(** * A shallow embedding of mm.c, an explicit-free-list allocator

    The allocator of [mm.c] manages one contiguous arena obtained from
    [mem_sbrk].  Every block carries a boundary tag (size and allocated
    bit) in a header and in a footer; free blocks are chained in a doubly
    linked list whose head cell sits at the very start of the arena.

    The embedding keeps the program's shape: memory is a byte-addressed
    store, the macros of the C file are small functions, and every routine
    is a computation in a state monad that can fault on an access outside
    the arena.

    The file has three parts: the program; the vocabulary in which its
    properties are stated (block lists, the heap invariant, what a walk
    shows); and the proofs, which end with the properties of the allocator
    and of whole sessions. *)

From Stdlib Require Import ZArith List Lia Bool.
Import ListNotations.
Open Scope Z_scope.

(** ** Machine integers and memory *)

Module Mem.

(** [size_t] and pointers are 64 bits wide; arithmetic wraps. *)
Definition wrap (z : Z) : Z := z mod 2 ^ 64.

(** The store maps every address to a byte (only the low eight bits of the
    stored integer are ever observed). *)
Definition memory := Z -> Z.

Definition byte_at (m : memory) (a : Z) : Z := m a mod 256.

Definition upd (m : memory) (a v : Z) : memory :=
  fun x => if x =? a then v else m x.

(** Little-endian multi-byte accesses, as on x86-64. *)
Fixpoint load_bytes (n : nat) (m : memory) (a : Z) : Z :=
  match n with
  | O => 0
  | S k => byte_at m a + 256 * load_bytes k m (a + 1)
  end.

Fixpoint store_bytes (n : nat) (m : memory) (a v : Z) : memory :=
  match n with
  | O => m
  | S k => store_bytes k (upd m a (v mod 256)) (a + 1) (v / 256)
  end.

Definition load (m : memory) (a : Z) : Z := load_bytes 8 m a.
Definition store (m : memory) (a v : Z) : memory := store_bytes 8 m a v.

End Mem.
Export Mem.

(** ** Program state and the monad of the embedding *)

(** [heap_start] is the global of mm.c.  The other three fields are the
    state of the arena primitive: first byte, current break, and the
    address the break may not pass. *)
Record state := mkState {
  mem : memory;
  heap_start : Z;
  mem_heap : Z;
  mem_brk : Z;
  mem_max_addr : Z
}.

Definition set_mem (s : state) (m : memory) : state :=
  mkState m (heap_start s) (mem_heap s) (mem_brk s) (mem_max_addr s).

Definition set_heap_start (s : state) (p : Z) : state :=
  mkState (mem s) p (mem_heap s) (mem_brk s) (mem_max_addr s).

Definition set_brk (s : state) (b : Z) : state :=
  mkState (mem s) (heap_start s) (mem_heap s) b (mem_max_addr s).

(** A run either returns a value and a new state, touches memory outside
    the arena ([Fault]: undefined behaviour in C), or exhausts the fuel
    given to one of its loops. *)
Inductive result (A : Type) : Type :=
| Ok (a : A) (s : state)
| Fault
| OutOfFuel.
Arguments Ok {A} a s.
Arguments Fault {A}.
Arguments OutOfFuel {A}.

Definition M (A : Type) : Type := state -> result A.

Definition ret {A} (a : A) : M A := fun s => Ok a s.

Definition bind {A B} (c : M A) (f : A -> M B) : M B :=
  fun s => match c s with
           | Ok a s' => f a s'
           | Fault => Fault
           | OutOfFuel => OutOfFuel
           end.

Notation "x <- c ;; k" := (bind c (fun x => k))
  (at level 61, c at next level, right associativity).
Notation "c ;;; k" := (bind c (fun _ => k))
  (at level 61, right associativity).

(** An access of [n] bytes at [p] is defined when it lies in the arena. *)
Definition in_arena (s : state) (p n : Z) : bool :=
  (mem_heap s <=? p) && (p + n <=? mem_brk s).

(** ** Constants and macros of mm.c *)

Definition WSIZE : Z := 8.
Definition DSIZE : Z := 16.
Definition CHUNKSIZE : Z := Z.shiftl 1 12.
Definition OVERHEAD : Z := 16.
Definition NULL : Z := 0.

Definition PACK (size alloc : Z) : Z := Z.lor size alloc.

Definition GET (p : Z) : M Z :=
  fun s => if in_arena s p 8 then Ok (load (mem s) p) s else Fault.

Definition PUT (p val : Z) : M unit :=
  fun s => if in_arena s p 8 then Ok tt (set_mem s (store (mem s) p val))
           else Fault.

Definition PADD (p val : Z) : Z := wrap (p + val).
Definition PSUB (p val : Z) : Z := wrap (p - val).

(** [~0xf] is the 64-bit mask with the low four bits clear. *)
Definition size_bits (w : Z) : Z := Z.land w (Z.lnot 15).
Definition alloc_bit (w : Z) : Z := Z.land w 1.

Definition GET_SIZE (p : Z) : M Z := w <- GET p ;; ret (size_bits w).
Definition GET_ALLOC (p : Z) : M Z := w <- GET p ;; ret (alloc_bit w).

Definition HDRP (bp : Z) : Z := PSUB bp WSIZE.

Definition FTRP (bp : Z) : M Z :=
  sz <- GET_SIZE (HDRP bp) ;; ret (PADD bp (wrap (sz - DSIZE))).

Definition NEXT_BLKP (bp : Z) : M Z :=
  sz <- GET_SIZE (HDRP bp) ;; ret (PADD bp sz).

Definition PREV_BLKP (bp : Z) : M Z :=
  sz <- GET_SIZE (PSUB bp DSIZE) ;; ret (PSUB bp sz).

(** Pointers are stored as 64-bit words. *)
Definition GET_PTR (p : Z) : M Z := GET p.
Definition PUT_PTR (p val : Z) : M unit := PUT p val.

Definition LL_START : M Z := fun s => Ok (PSUB (heap_start s) 16) s.

(** Single bytes, for the copy loop of [mm_realloc]. *)
Definition GET_BYTE (p : Z) : M Z :=
  fun s => if in_arena s p 1 then Ok (byte_at (mem s) p) s else Fault.

Definition PUT_BYTE (p b : Z) : M unit :=
  fun s => if in_arena s p 1 then Ok tt (set_mem s (upd (mem s) p b))
           else Fault.

(** Modelled from the spec: [mem_sbrk] of memlib.c, which is not among the
    sources.  It extends the arena by [incr] bytes and returns the old
    break, the first byte of the new region; when the arena cannot grow it
    changes nothing and reports failure.  Failure is the all-ones pointer
    [(void * )-1], the value that [extend_heap] tests for with
    [(long)bp < 0]. *)
Definition mem_sbrk (incr : Z) : M Z :=
  fun s => if mem_brk s + incr <=? mem_max_addr s
           then Ok (mem_brk s) (set_brk s (mem_brk s + incr))
           else Ok (wrap (-1)) s.

(** ** The free list *)

Definition remove_node (bp : Z) : M unit :=
  ll <- LL_START ;;
  h <- GET_PTR ll ;;
  if h =? NULL then ret tt
  else if bp =? NULL then ret tt
  else
    pblkp <- GET_PTR bp ;;
    nblkp <- GET_PTR (PADD bp 8) ;;
    if (pblkp =? NULL) && (nblkp =? NULL) then
      PUT_PTR ll NULL
    else if nblkp =? NULL then
      PUT_PTR (PADD pblkp 8) NULL
    else if pblkp =? NULL then
      PUT_PTR ll nblkp ;;; PUT_PTR nblkp NULL
    else
      PUT_PTR nblkp pblkp ;;; PUT_PTR (PADD pblkp 8) nblkp.

Definition insert_node (bp : Z) : M unit :=
  ll <- LL_START ;;
  head <- GET_PTR ll ;;
  (if head =? NULL then ret tt else PUT_PTR head bp) ;;;
  PUT_PTR bp NULL ;;;
  PUT_PTR (PADD bp 8) head ;;;
  PUT_PTR ll bp.

(** ** Coalescing *)

Definition coalesce (bp : Z) : M Z :=
  if bp =? NULL then ret NULL
  else
    let headp := HDRP bp in
    footp <- FTRP bp ;;
    pb <- PREV_BLKP bp ;;
    let prev_headp := HDRP pb in
    nb <- NEXT_BLKP bp ;;
    next_footp <- FTRP nb ;;
    alloc_bit_prev <- GET_ALLOC prev_headp ;;
    nb' <- NEXT_BLKP bp ;;
    alloc_bit_next <- GET_ALLOC (HDRP nb') ;;
    if (alloc_bit_next =? 0) && (alloc_bit_prev =? 0) then
      nb1 <- NEXT_BLKP bp ;;
      remove_node nb1 ;;;
      remove_node bp ;;;
      sp <- GET_SIZE prev_headp ;;
      sh <- GET_SIZE headp ;;
      sn <- GET_SIZE next_footp ;;
      PUT prev_headp (PACK (wrap (wrap (sp + sh) + sn)) 0) ;;;
      sp' <- GET_SIZE prev_headp ;;
      PUT next_footp (PACK sp' 0) ;;;
      PREV_BLKP bp
    else if alloc_bit_prev =? 0 then
      remove_node bp ;;;
      sp <- GET_SIZE prev_headp ;;
      sh <- GET_SIZE headp ;;
      PUT prev_headp (PACK (wrap (sp + sh)) 0) ;;;
      sp' <- GET_SIZE prev_headp ;;
      PUT footp (PACK sp' 0) ;;;
      PREV_BLKP bp
    else if alloc_bit_next =? 0 then
      nb1 <- NEXT_BLKP bp ;;
      remove_node nb1 ;;;
      sh <- GET_SIZE headp ;;
      sn <- GET_SIZE next_footp ;;
      PUT headp (PACK (wrap (sh + sn)) 0) ;;;
      sh' <- GET_SIZE headp ;;
      PUT next_footp (PACK sh' 0) ;;;
      ret bp
    else
      ret bp.

(** ** Growing the arena *)

Definition extend_heap (words : Z) : M Z :=
  let size := wrap (words * WSIZE) in
  let size := if words mod 2 =? 1 then wrap (size + WSIZE) else size in
  bp <- mem_sbrk size ;;
  if 2 ^ 63 <=? bp then ret NULL
  else
    PUT (HDRP bp) (PACK size 0) ;;;
    fp <- FTRP bp ;;
    PUT fp (PACK size 0) ;;;
    nb <- NEXT_BLKP bp ;;
    PUT (HDRP nb) (PACK 0 1) ;;;
    insert_node bp ;;;
    coalesce bp.

Definition mm_init : M Z :=
  p <- mem_sbrk (4 * WSIZE) ;;
  (fun s => Ok tt (set_heap_start s p)) ;;;
  if p =? NULL then ret (-1)
  else
    PUT_PTR p NULL ;;;
    PUT (PADD p WSIZE) (PACK OVERHEAD 1) ;;;
    PUT (PADD p DSIZE) (PACK OVERHEAD 1) ;;;
    PUT (PADD p (WSIZE + DSIZE)) (PACK 0 1) ;;;
    (fun s => Ok tt (set_heap_start s (PADD (heap_start s) DSIZE))) ;;;
    r <- extend_heap (CHUNKSIZE / WSIZE) ;;
    if r =? NULL then ret (-1) else ret 0.

(** ** Fit and placement *)

(** The [while] loop of [find_fit]; [fuel] bounds the number of nodes
    visited. *)
Fixpoint find_fit_loop (fuel : nat) (asize cur_bp : Z) : M Z :=
  if cur_bp =? NULL then ret NULL
  else match fuel with
       | O => fun _ => OutOfFuel
       | S k =>
           sz <- GET_SIZE (HDRP cur_bp) ;;
           if asize <=? sz then ret cur_bp
           else nx <- GET_PTR (PADD cur_bp 8) ;; find_fit_loop k asize nx
       end.

Definition find_fit (fuel : nat) (asize : Z) : M Z :=
  ll <- LL_START ;;
  cur_bp <- GET_PTR ll ;;
  find_fit_loop fuel asize cur_bp.

Definition place (bp asize : Z) : M unit :=
  sz <- GET_SIZE (HDRP bp) ;;
  let remaining := wrap (sz - asize) in
  if remaining <? 2 * OVERHEAD then
    sz1 <- GET_SIZE (HDRP bp) ;;
    PUT (HDRP bp) (PACK sz1 1) ;;;
    fp <- FTRP bp ;;
    sz2 <- GET_SIZE fp ;;
    PUT fp (PACK sz2 1) ;;;
    remove_node bp
  else
    PUT (HDRP bp) (PACK asize 1) ;;;
    PUT (PADD bp (wrap (asize - OVERHEAD))) (PACK asize 1) ;;;
    remove_node bp ;;;
    PUT (PADD bp (wrap (asize - WSIZE))) (PACK remaining 0) ;;;
    PUT (PADD bp (wrap (wrap (asize + remaining) - OVERHEAD)))
        (PACK remaining 0) ;;;
    insert_node (PADD bp asize) ;;;
    coalesce (PADD bp asize) ;;;
    ret tt.

Definition max (x y : Z) : Z := if y <? x then x else y.

(** The adjusted block size computed at the top of [mm_malloc]. *)
Definition adjusted_size (size : Z) : Z :=
  if size <=? DSIZE then DSIZE + OVERHEAD
  else wrap (DSIZE * (wrap (wrap (size + OVERHEAD) + (DSIZE - 1)) / DSIZE)).

(** ** Public operations *)

Definition mm_malloc (fuel : nat) (size : Z) : M Z :=
  if size <=? 0 then ret NULL
  else
    let asize := adjusted_size size in
    bp <- find_fit fuel asize ;;
    if negb (bp =? NULL) then
      place bp asize ;;; ret bp
    else
      let extendsize := max asize CHUNKSIZE in
      bp <- extend_heap (extendsize / WSIZE) ;;
      if bp =? NULL then ret NULL
      else place bp asize ;;; ret bp.

Definition mm_free (bp : Z) : M unit :=
  let headp := HDRP bp in
  footp <- FTRP bp ;;
  sh <- GET_SIZE headp ;;
  PUT headp (PACK sh 0) ;;;
  sf <- GET_SIZE footp ;;
  PUT footp (PACK sf 0) ;;;
  insert_node bp ;;;
  coalesce bp ;;;
  ret tt.

(** The byte loop of [mm_realloc]: [n] iterations are left, [i] is the
    loop counter. *)
Fixpoint copy_loop (n : nat) (i ptr old_ptr : Z) : M unit :=
  match n with
  | O => ret tt
  | S k =>
      b <- GET_BYTE (PADD old_ptr i) ;;
      PUT_BYTE (PADD ptr i) b ;;;
      copy_loop k (i + 1) ptr old_ptr
  end.

Definition mm_realloc (fuel : nat) (bp size : Z) : M Z :=
  let old_ptr := bp in
  if bp =? NULL then mm_malloc fuel size
  else if size =? 0 then mm_free bp ;;; ret NULL
  else
    old <- GET_SIZE (HDRP bp) ;;
    let old := if size <=? old then size else old in
    ptr <- mm_malloc fuel size ;;
    copy_loop (Z.to_nat old) 0 ptr old_ptr ;;;
    mm_free bp ;;;
    ret ptr.

(** ** The consistency checker *)

Definition check_block (bp : Z) : M bool :=
  if negb (bp mod DSIZE =? 0) then ret false
  else
    h <- GET (HDRP bp) ;;
    fp <- FTRP bp ;;
    f <- GET fp ;;
    if negb (h =? f) then ret false else ret true.

(** The [for] loop of [check_heap]: stops at the first header of size 0 and
    then inspects that header as the epilogue. *)
Fixpoint check_heap_loop (fuel : nat) (bp : Z) : M bool :=
  sz <- GET_SIZE (HDRP bp) ;;
  if 0 <? sz then
    match fuel with
    | O => fun _ => OutOfFuel
    | S k =>
        ok <- check_block bp ;;
        if negb ok then ret false
        else nb <- NEXT_BLKP bp ;; check_heap_loop k nb
    end
  else
    a <- GET_ALLOC (HDRP bp) ;;
    if negb (sz =? 0) || (a =? 0) then ret false else ret true.

Definition check_heap (fuel : nat) : M bool :=
  fun s =>
    (sz <- GET_SIZE (HDRP (heap_start s)) ;;
     a <- GET_ALLOC (HDRP (heap_start s)) ;;
     if negb (sz =? DSIZE) || (a =? 0) then ret false
     else check_heap_loop fuel (heap_start s)) s.

(** What [print_heap] writes, as a value: one record per block before the
    epilogue, with the block pointer and the size and allocated bit as read
    from the header and from the footer.  The last call of [print_block],
    on the epilogue, reads the same four fields and prints the end
    marker. *)
Definition print_block (bp : Z) : M (Z * (Z * Z) * (Z * Z)) :=
  hsize <- GET_SIZE (HDRP bp) ;;
  halloc <- GET_ALLOC (HDRP bp) ;;
  fp <- FTRP bp ;;
  fsize <- GET_SIZE fp ;;
  falloc <- GET_ALLOC fp ;;
  ret (bp, (hsize, halloc), (fsize, falloc)).

Fixpoint print_heap_loop (fuel : nat) (bp : Z)
  : M (list (Z * (Z * Z) * (Z * Z))) :=
  sz <- GET_SIZE (HDRP bp) ;;
  if 0 <? sz then
    match fuel with
    | O => fun _ => OutOfFuel
    | S k =>
        r <- print_block bp ;;
        nb <- NEXT_BLKP bp ;;
        rest <- print_heap_loop k nb ;;
        ret (r :: rest)
    end
  else print_block bp ;;; ret [].

Definition print_heap (fuel : nat) : M (list (Z * (Z * Z) * (Z * Z))) :=
  fun s => print_heap_loop fuel (heap_start s) s.

(** The nodes of the free list in the order [find_fit] visits them. *)
Fixpoint free_list_loop (fuel : nat) (cur_bp : Z) : M (list Z) :=
  if cur_bp =? NULL then ret []
  else match fuel with
       | O => fun _ => OutOfFuel
       | S k =>
           nx <- GET_PTR (PADD cur_bp 8) ;;
           rest <- free_list_loop k nx ;;
           ret (cur_bp :: rest)
       end.

Definition free_list (fuel : nat) : M (list Z) :=
  ll <- LL_START ;;
  cur_bp <- GET_PTR ll ;;
  free_list_loop fuel cur_bp.

(** ** Concrete runs *)

(** A fresh arena at address 4096 with room for [room] bytes and
    zero-filled memory; [mm_init] has not run yet. *)
Definition fresh (room : Z) : state :=
  mkState (fun _ => 0) NULL 4096 4096 (4096 + room).

Definition run_overflow : M (Z * Z * Z) :=
  mm_init ;;;
  a <- mm_malloc 8 16 ;;
  b <- mm_malloc 8 16 ;;
  mm_free a ;;;
  c <- mm_malloc 8 (2 ^ 64 - 16) ;;
  ret (a, b, c).

Definition observe {A B} (r : result A) (f : A -> M B) : result B :=
  match r with
  | Ok a s => match f a s with Ok b _ => Ok b s | Fault => Fault | OutOfFuel => OutOfFuel end
  | Fault => Fault
  | OutOfFuel => OutOfFuel
  end.

Definition forget {A} (r : result A) : option A :=
  match r with Ok a _ => Some a | _ => None end.

(** * The vocabulary of the statements *)

(** Boundary tags: a size that is a multiple of 16 and the allocated bit. *)
Definition tag (sz : Z) (a : bool) : Z := sz + Z.b2z a.

(** ** Weakest preconditions for the monad

    [wp c Q s] holds when [c] run from [s] returns normally in a state and
    with a value that satisfy [Q]: a total-correctness triple. *)

Definition wp {A} (c : M A) (Q : A -> state -> Prop) (s : state) : Prop :=
  match c s with
  | Ok a s' => Q a s'
  | _ => False
  end.

Definition valid (s : state) (p : Z) : Prop :=
  mem_heap s <= p /\ p + 8 <= mem_brk s.

(** ** The abstract heap: a list of blocks

    A block is its size and its allocated flag.  The list starts with the
    prologue; addresses are implicit, each block beginning where the one
    before it ends. *)

Abbreviation block := (Z * bool)%type.

Definition prologue : block := (16, true).

Fixpoint total (bs : list block) : Z :=
  match bs with
  | [] => 0
  | (sz, _) :: r => sz + total r
  end.

(** [blocks m bp bs]: the blocks [bs] are laid out in [m] from payload
    address [bp] on, each with matching header and footer. *)
Fixpoint blocks (m : memory) (bp : Z) (bs : list block) : Prop :=
  match bs with
  | [] => True
  | (sz, a) :: r =>
      load m (bp - 8) = tag sz a /\ load m (bp + sz - 16) = tag sz a /\
      blocks m (bp + sz) r
  end.

Definition okb (b : block) : Prop :=
  16 <= fst b /\ fst b mod 16 = 0 /\ (snd b = false -> 32 <= fst b).

Definition good (b : block) : Prop := 32 <= fst b /\ fst b mod 16 = 0.

Fixpoint free_addrs (bp : Z) (bs : list block) : list Z :=
  match bs with
  | [] => []
  | (sz, a) :: r => (if a then [] else [bp]) ++ free_addrs (bp + sz) r
  end.

(** Payload bytes of the blocks whose flag is [k]. *)
Fixpoint pay (k : bool) (bp : Z) (bs : list block) (x : Z) : Prop :=
  match bs with
  | [] => False
  | (sz, a) :: r => (a = k /\ bp <= x < bp + sz - 16) \/ pay k (bp + sz) r x
  end.

Fixpoint no_adj_free (bs : list block) : bool :=
  match bs with
  | [] => true
  | (_, a) :: r =>
      match r with
      | (_, a') :: _ => (a || a') && no_adj_free r
      | [] => true
      end
  end.

(** The free list: [dll m lo prev l] says that the nodes [l] are chained
    in [m] after the node [prev]; [prev = NULL] stands for the head cell at
    [lo]. *)
Definition cell (lo prev : Z) : Z := if prev =? 0 then lo else prev + 8.

Fixpoint dll (m : memory) (lo prev : Z) (l : list Z) : Prop :=
  match l with
  | [] => load m (cell lo prev) = 0
  | b :: r =>
      load m (cell lo prev) = b /\ b <> 0 /\ load m b = prev /\ dll m lo b r
  end.

(** ** Frames *)

Definition apart (l : list Z) : Prop :=
  forall b b', In b l -> In b' l -> b = b' \/ b + 16 <= b' \/ b' + 16 <= b.

Definition same_ctl (s s' : state) : Prop :=
  heap_start s' = heap_start s /\ mem_heap s' = mem_heap s /\
  mem_brk s' = mem_brk s /\ mem_max_addr s' = mem_max_addr s.

(** ** The heap invariant *)

Record arena (s : state) : Prop := mkArena {
  ar_pos : 0 < mem_heap s;
  ar_align : mem_heap s mod 16 = 0;
  ar_start : heap_start s = mem_heap s + 16;
  ar_brk : mem_brk s <= mem_max_addr s;
  ar_max : mem_max_addr s < 2 ^ 63
}.

Definition tags (s : state) (ubs : list block) : Prop :=
  Forall good ubs /\ mem_brk s = mem_heap s + 32 + total ubs /\
  blocks (mem s) (mem_heap s + 16) (prologue :: ubs) /\
  load (mem s) (mem_brk s - 8) = 1.

Definition flist (s : state) (ubs : list block) (fl : list Z) : Prop :=
  dll (mem s) (mem_heap s) 0 fl /\ NoDup fl /\
  (forall b, In b fl <-> In b (free_addrs (mem_heap s + 32) ubs)).

Definition wf (s : state) (ubs : list block) (fl : list Z) : Prop :=
  arena s /\ tags s ubs /\ flist s ubs fl.

Definition heap_ok (s : state) (ubs : list block) (fl : list Z) : Prop :=
  wf s ubs fl /\ no_adj_free ubs = true.

(** [m'] differs from [m] at most in the head cell of the free list and in
    the link cells of the free blocks of the layout [L]. *)
Definition link_change (lo base : Z) (L : list block) (m m' : memory) : Prop :=
  forall a, ~ (lo <= a < lo + 8) ->
            (forall b, In b (free_addrs base L) -> ~ (b <= a < b + 16)) ->
            m' a = m a.

Definition prev_free (upre : list block) : option Z :=
  match last upre prologue with
  | (ps, false) => Some ps
  | _ => None
  end.

Definition next_free (post : list block) : option Z :=
  match post with
  | (ns, false) :: _ => Some ns
  | _ => None
  end.

(** The effect of [coalesce] on the block list: the block of size [sz]
    between [upre] and [post] absorbs a free successor and is absorbed by a
    free predecessor. *)
Definition coalesced (upre : list block) (sz : Z) (post : list block)
  : list block * Z * list block :=
  let '(upre1, sz1) :=
    match prev_free upre with
    | Some ps => (removelast upre, ps + sz)
    | None => (upre, sz)
    end in
  match next_free post with
  | Some ns => (upre1, sz1 + ns, tl post)
  | None => (upre1, sz1, post)
  end.

Definition coalesced_list (bp : Z) (upre : list block) (sz : Z)
  (post : list block) (fl : list Z) : list Z :=
  let l1 := match next_free post with
            | Some _ => remove Z.eq_dec (bp + sz) fl
            | None => fl
            end in
  match prev_free upre with
  | Some _ => remove Z.eq_dec bp l1
  | None => l1
  end.

(** The invariant without the requirement that every free block is on the
    list: what holds between the steps of an operation. *)
Definition pre_wf (s : state) (ubs : list block) (fl : list Z) : Prop :=
  arena s /\ tags s ubs /\ dll (mem s) (mem_heap s) 0 fl /\ NoDup fl /\
  (forall b, In b fl -> In b (free_addrs (mem_heap s + 32) ubs)).

(** ** Adjacent free blocks *)

Fixpoint last_alloc (l : list block) : bool :=
  match l with
  | [] => true
  | (_, a) :: r => match r with [] => a | _ :: _ => last_alloc r end
  end.

Definition hd_alloc (l : list block) : bool :=
  match l with
  | [] => true
  | (_, a) :: _ => a
  end.

(** ** The layout as a list of positioned blocks *)

Fixpoint layout (bp : Z) (bs : list block) : list (Z * Z * bool) :=
  match bs with
  | [] => []
  | (sz, a) :: r => (bp, sz, a) :: layout (bp + sz) r
  end.

(** ** What the operations establish *)

Definition grown (s s' : state) (size : Z) : Prop :=
  heap_start s' = heap_start s /\ mem_heap s' = mem_heap s /\
  mem_brk s' = mem_brk s + size /\ mem_max_addr s' = mem_max_addr s.

Definition even_bytes (words : Z) : Z :=
  if words mod 2 =? 1 then words * 8 + 8 else words * 8.

Definition fit_at (s : state) (ubs : list block) (asize r : Z) : Prop :=
  exists (upre : list block) S (post : list block),
    ubs = upre ++ (S, false) :: post /\
    r = mem_heap s + 32 + total upre /\ asize <= S.

Definition alloc_kept (lo : Z) (ubs ubs' : list block) : Prop :=
  forall p sz, In (p, sz, true) (layout (lo + 32) ubs) ->
               In (p, sz, true) (layout (lo + 32) ubs').

Definition placed (upre : list block) (S : Z) (post : list block) (A : Z)
  : list block :=
  if S - A <? 32 then upre ++ (S, true) :: post
  else upre ++ (A, true) :: (S - A, false) :: post.

Definition malloc_ok (s : state) (ubs : list block) (size r : Z)
  (s' : state) (ubs' : list block) (fl' : list Z) : Prop :=
  heap_ok s' ubs' fl' /\
  heap_start s' = heap_start s /\ mem_heap s' = mem_heap s /\
  mem_max_addr s' = mem_max_addr s /\ mem_brk s <= mem_brk s' /\
  alloc_kept (mem_heap s) ubs ubs' /\
  (forall a, pay true (mem_heap s + 16) (prologue :: ubs) a ->
             mem s' a = mem s a) /\
  exists szr, In (r, szr, true) (layout (mem_heap s + 32) ubs') /\
              size + 16 <= szr /\
              forall sz, ~ In (r, sz, true) (layout (mem_heap s + 32) ubs).

(** The state after copying [n] bytes from [src] to [dst]. *)
Definition copied (m : memory) (dst src n : Z) : memory :=
  fun a => if (dst <=? a) && (a <? dst + n) then byte_at m (src + (a - dst))
           else m a.

Definition realloc_post (s s1 s3 : state) (p szp size r : Z) : Prop :=
  exists ubs3 fl3 szr,
    heap_ok s3 ubs3 fl3 /\
    In (r, szr, true) (layout (mem_heap s + 32) ubs3) /\
    size + 16 <= szr /\ r <> p /\
    (forall sz, ~ In (p, sz, true) (layout (mem_heap s + 32) ubs3)) /\
    (exists q szq, In (q, szq, false) (layout (mem_heap s + 32) ubs3) /\
                   q <= p /\ p + szp <= q + szq) /\
    (forall i, 0 <= i < Z.min szp size ->
               byte_at (mem s3) (r + i) = byte_at (mem s1) (p + i)) /\
    (forall i, 0 <= i < Z.min (szp - 16) size ->
               byte_at (mem s3) (r + i) = byte_at (mem s) (p + i)) /\
    (forall a, r + Z.min szp size <= a < r + szr - 16 ->
               mem s3 a = mem s1 a).

(** ** What the heap walk and the list walk show *)

Abbreviation line := (Z * (Z * Z) * (Z * Z))%type.

Definition line_of (b : Z * Z * bool) : line :=
  let '(p, sz, a) := b in (p, (sz, Z.b2z a), (sz, Z.b2z a)).

(** Block pointers of the walk whose header says free. *)
Definition walk_free (w : list line) : list Z :=
  map (fun l : line => fst (fst l))
      (filter (fun l : line => snd (snd (fst l)) =? 0) w).

(** Two consecutive blocks of the walk both have a header that says free. *)
Fixpoint adjacent_free (w : list line) : bool :=
  match w with
  | [] => false
  | l :: r =>
      match r with
      | l' :: _ =>
          ((snd (snd (fst l)) =? 0) && (snd (snd (fst l')) =? 0))
          || adjacent_free r
      | [] => false
      end
  end.

(** Every block of the walk has the same size and flag in its header and in
    its footer. *)
Definition tags_agree (w : list line) : bool :=
  forallb (fun l : line =>
             (fst (snd (fst l)) =? fst (snd l)) &&
             (snd (snd (fst l)) =? snd (snd l))) w.

(** ** Concrete states *)

(** The state a run ends in; the start state when the run does not end. *)
Definition after {A} (c : M A) (s : state) : state :=
  match c s with Ok _ s' => s' | _ => s end.

(** What a client sees of the heap: the block walk, the free list and the
    verdict of the checker. *)
Definition survey (fuel : nat) : M (list line * list Z * bool) :=
  w <- print_heap fuel ;;
  l <- free_list fuel ;;
  ok <- check_heap fuel ;;
  ret (w, l, ok).

(** The run of [run_overflow] up to, and without, its last request. *)
Definition run_before : M (Z * Z) :=
  mm_init ;;;
  a <- mm_malloc 8 16 ;;
  b <- mm_malloc 8 16 ;;
  mm_free a ;;;
  ret (a, b).

(** Resizing as the specification words it: the number of bytes copied is
    the smaller of the new size and the payload capacity of the old block,
    its size less header and footer. *)
Definition resize_as_specified (fuel : nat) (bp size : Z) : M Z :=
  if bp =? NULL then mm_malloc fuel size
  else if size =? 0 then mm_free bp ;;; ret NULL
  else
    old <- GET_SIZE (HDRP bp) ;;
    let n := Z.min (old - OVERHEAD) size in
    ptr <- mm_malloc fuel size ;;
    copy_loop (Z.to_nat n) 0 ptr bp ;;;
    mm_free bp ;;;
    ret ptr.

(** The walk that a block list stands for. *)
Definition walk_of (lo : Z) (ubs : list block) : list line :=
  map line_of (layout (lo + 16) (prologue :: ubs)).

(** [mm_free] up to, and without, its call of [coalesce]. *)
Definition mm_free_unmerged (bp : Z) : M unit :=
  let headp := HDRP bp in
  footp <- FTRP bp ;;
  sh <- GET_SIZE headp ;;
  PUT headp (PACK sh 0) ;;;
  sf <- GET_SIZE footp ;;
  PUT footp (PACK sf 0) ;;;
  insert_node bp.

(** Four allocations of 16 bytes; the first and the third are released,
    and the second is released up to its merge. *)
Definition three_free : state :=
  after (mm_init ;;;
         a <- mm_malloc 8 16 ;; b <- mm_malloc 8 16 ;;
         c <- mm_malloc 8 16 ;; d <- mm_malloc 8 16 ;;
         mm_free a ;;; mm_free c ;;; mm_free_unmerged b) (fresh 65536).

(** Three allocations of 16 bytes, the first of them released. *)
Definition one_released : state :=
  after (mm_init ;;;
         a <- mm_malloc 8 16 ;; b <- mm_malloc 8 16 ;;
         c <- mm_malloc 8 16 ;; mm_free a) (fresh 65536).

(** One allocation of 16 bytes. *)
Definition one_live : state :=
  after (mm_init ;;; mm_malloc 8 16) (fresh 65536).

(** ** Sequences of operations *)

(** Enough fuel for every loop over the blocks or the free list of [s]. *)
Definition fuel_of (s : state) : nat := Z.to_nat (mem_brk s - mem_heap s).

(** The blocks a client holds: payload pointer and requested size. *)
Definition live_ok (lo : Z) (ubs : list block) (L : list (Z * Z)) : Prop :=
  NoDup (map fst L) /\
  forall p n, In (p, n) L ->
    exists sz, In (p, sz, true) (layout (lo + 32) ubs) /\ n + 16 <= sz.

Definition inv (s : state) (L : list (Z * Z)) : Prop :=
  exists ubs fl, heap_ok s ubs fl /\ live_ok (mem_heap s) ubs L.

Definition drop_nth {A} (k : nat) (l : list A) : list A :=
  firstn k l ++ skipn (S k) l.

(** A client of the allocator: it asks for blocks, and releases or resizes
    blocks it holds, named by their position in its list of holdings. *)
Inductive op : Type :=
  | Malloc (n : Z)
  | Free (k : nat)
  | Realloc (k : nat) (n : Z).

Definition op_ok (o : op) : Prop :=
  match o with
  | Malloc n | Realloc _ n => 0 <= n <= 2 ^ 64 - 32
  | Free _ => True
  end.

Definition is_realloc (o : op) : bool :=
  match o with Realloc _ _ => true | _ => false end.

Definition step (o : op) (L : list (Z * Z)) : M (list (Z * Z)) :=
  fun s =>
    match o with
    | Malloc n =>
        (r <- mm_malloc (fuel_of s) n ;;
         ret (if r =? NULL then L else (r, n) :: L)) s
    | Free k =>
        match nth_error L k with
        | Some (p, _) => (mm_free p ;;; ret (drop_nth k L)) s
        | None => Ok L s
        end
    | Realloc k n =>
        match nth_error L k with
        | Some (p, _) =>
            (r <- mm_realloc (fuel_of s) p n ;;
             ret (if n =? 0 then drop_nth k L else (r, n) :: drop_nth k L)) s
        | None => Ok L s
        end
    end.

Fixpoint run (os : list op) (L : list (Z * Z)) : M (list (Z * Z)) :=
  match os with
  | [] => ret L
  | o :: r => L' <- step o L ;; run r L'
  end.

Definition session (os : list op) : M (list (Z * Z)) :=
  mm_init ;;; run os [].

(** What a consistent heap means for the code: the checker accepts it, the
    walk shows equal tags and no two neighbouring free blocks, the free
    list holds exactly the free blocks of the walk, once each, and the
    blocks the client holds are allocated blocks of the walk, large enough,
    pairwise disjoint and clear of prologue and epilogue. *)
Definition consistent (s : state) (L : list (Z * Z)) : Prop :=
  (exists w fl,
     survey (fuel_of s) s = Ok (w, fl, true) s /\
     tags_agree w = true /\ adjacent_free w = false /\ NoDup fl /\
     (forall b, In b fl <-> In b (walk_free w)) /\
     (forall p n, In (p, n) L ->
        exists sz, In (p, (sz, 1), (sz, 1)) w /\ n + 16 <= sz)) /\
  (forall i j p n q m,
     nth_error L i = Some (p, n) -> nth_error L j = Some (q, m) -> i <> j ->
     p + n <= q \/ q + m <= p) /\
  (forall p n, In (p, n) L ->
     mem_heap s + 32 <= p /\ p + n <= mem_brk s - 16).

(** An arena nothing has been taken from yet, with room for the first two
    requests of [mm_init]. *)
Definition start_ok (s : state) : Prop :=
  0 < mem_heap s /\ mem_heap s mod 16 = 0 /\ mem_brk s = mem_heap s /\
  mem_heap s + 4128 <= mem_max_addr s /\ mem_max_addr s < 2 ^ 63.

Definition sample_session : list op :=
  [Malloc 100; Malloc 24; Free 1; Realloc 0 200; Malloc 0; Malloc 5000].

(** One allocation of 16 bytes in an arena that [mm_init] has used up. *)
Definition full_arena : state :=
  after (mm_init ;;; mm_malloc 8 16) (fresh 4128).

(** ** Vocabulary of the further properties *)

(** A free list on its own: the head cell at the start of the arena and
    nodes of 16 bytes each, inside the arena and apart from each other. *)
Definition list_ok (s : state) (fl : list Z) : Prop :=
  0 < mem_heap s /\ heap_start s = mem_heap s + 16 /\
  mem_heap s + 8 <= mem_brk s /\ mem_brk s < 2 ^ 63 /\
  dll (mem s) (mem_heap s) 0 fl /\ NoDup fl /\ apart fl /\
  Forall (fun b => mem_heap s + 8 <= b /\ b + 16 <= mem_brk s) fl.

(** Four allocations, of 16, 16, 48 and 16 bytes; the first and the third
    are released again, so that the two free blocks stay apart and the
    free block of the arena's end stays behind an allocated one. *)
Definition two_free : state :=
  after (mm_init ;;;
         a <- mm_malloc 8 16 ;; b <- mm_malloc 8 16 ;;
         c <- mm_malloc 8 48 ;; d <- mm_malloc 8 16 ;;
         mm_free a ;;; mm_free c) (fresh 65536).

(** The test of [find_fit] on the node [b]: the size in the header in
    front of [b] is at least [asize]. *)
Definition fits (s : state) (asize b : Z) : bool :=
  asize <=? size_bits (load (mem s) (b - 8)).

(** The answer of a first-fit search over the nodes [fl]. *)
Definition first_fit (s : state) (asize : Z) (fl : list Z) : Z :=
  match find (fits s asize) fl with
  | Some b => b
  | None => NULL
  end.

(** Three allocations of 16 bytes; the first is released and the second is
    released up to its merge. *)
Definition free_before : state :=
  after (mm_init ;;;
         a <- mm_malloc 8 16 ;; b <- mm_malloc 8 16 ;;
         c <- mm_malloc 8 16 ;;
         mm_free a ;;; mm_free_unmerged b) (fresh 65536).

(** Four allocations of 16 bytes; the third is released and the second is
    released up to its merge. *)
Definition free_behind : state :=
  after (mm_init ;;;
         a <- mm_malloc 8 16 ;; b <- mm_malloc 8 16 ;;
         c <- mm_malloc 8 16 ;; d <- mm_malloc 8 16 ;;
         mm_free c ;;; mm_free_unmerged b) (fresh 65536).

(** The footer address of the block at [bp], as [FTRP] computes it. *)
Definition footer_of (s : state) (bp : Z) : Z :=
  PADD bp (wrap (size_bits (load (mem s) (HDRP bp)) - DSIZE)).

(** A computation that never changes the state it returns in. *)
Definition pure {A} (c : M A) : Prop :=
  forall s r s', c s = Ok r s' -> s' = s.

(** [tiles p w e]: the blocks of the walk [w] lie back to back from the
    address [p] to the address [e]. *)
Fixpoint tiles (p : Z) (w : list line) (e : Z) : Prop :=
  match w with
  | [] => p = e
  | l :: r => fst (fst l) = p /\ tiles (p + fst (snd (fst l))) r e
  end.

(** Block pointer and size are multiples of 16, and the size is at least
    [least]. *)
Definition line_aligned (least : Z) (l : line) : Prop :=
  fst (fst l) mod 16 = 0 /\ fst (snd (fst l)) mod 16 = 0 /\
  least <= fst (snd (fst l)).

(** * Properties of the memory model *)

Module MemFacts.

Lemma wrap_small z : 0 <= z < 2 ^ 64 -> wrap z = z.
Proof. intros H. unfold wrap. now apply Z.mod_small. Qed.

Lemma wrap_range z : 0 <= wrap z < 2 ^ 64.
Proof. unfold wrap. apply Z.mod_pos_bound. lia. Qed.

Lemma byte_at_range m a : 0 <= byte_at m a < 256.
Proof. unfold byte_at. apply Z.mod_pos_bound. lia. Qed.

Lemma load_bytes_range n m a : 0 <= load_bytes n m a < 256 ^ Z.of_nat n.
Proof.
  revert a. induction n as [|n IH]; intros a.
  - simpl. lia.
  - rewrite Nat2Z.inj_succ, Z.pow_succ_r by lia.
    cbn [load_bytes]. pose proof (byte_at_range m a). specialize (IH (a + 1)). lia.
Qed.

Lemma load_range m a : 0 <= load m a < 2 ^ 64.
Proof. apply (load_bytes_range 8 m a). Qed.

Lemma load_bytes_ext n m m' a :
  (forall x, a <= x < a + Z.of_nat n -> m' x = m x) ->
  load_bytes n m' a = load_bytes n m a.
Proof.
  revert a. induction n as [|n IH]; intros a H; [reflexivity|].
  cbn [load_bytes]. unfold byte_at. rewrite H by lia.
  rewrite IH; [reflexivity|]. intros x Hx. apply H. lia.
Qed.

Lemma load_ext m m' a :
  (forall x, a <= x < a + 8 -> m' x = m x) -> load m' a = load m a.
Proof. intros H. apply load_bytes_ext. exact H. Qed.

Lemma store_bytes_other n m a v x :
  x < a \/ a + Z.of_nat n <= x -> store_bytes n m a v x = m x.
Proof.
  revert m a v. induction n as [|n IH]; intros m a v H; [reflexivity|].
  cbn [store_bytes]. rewrite IH by lia. unfold upd.
  destruct (x =? a) eqn:E; [apply Z.eqb_eq in E; lia | reflexivity].
Qed.

Lemma store_other m a v x : x < a \/ a + 8 <= x -> store m a v x = m x.
Proof. intros H. apply (store_bytes_other 8). exact H. Qed.

Lemma load_bytes_store_bytes n m a v :
  load_bytes n (store_bytes n m a v) a = v mod 256 ^ Z.of_nat n.
Proof.
  revert m a v. induction n as [|n IH]; intros m a v.
  - simpl. now rewrite Z.mod_1_r.
  - cbn [load_bytes store_bytes]. rewrite IH.
    unfold byte_at. rewrite store_bytes_other by lia.
    unfold upd. rewrite Z.eqb_refl.
    rewrite Nat2Z.inj_succ, Z.pow_succ_r by lia.
    rewrite Z.mod_mod by lia.
    rewrite (Z.rem_mul_r v 256 (256 ^ Z.of_nat n)) by lia. reflexivity.
Qed.

Lemma load_store_same m a v : 0 <= v < 2 ^ 64 -> load (store m a v) a = v.
Proof.
  intros H. unfold load, store. rewrite load_bytes_store_bytes.
  apply Z.mod_small. exact H.
Qed.

Lemma load_store_other m a v c :
  c + 8 <= a \/ a + 8 <= c -> load (store m a v) c = load m c.
Proof. intros H. apply load_ext. intros x Hx. apply store_other. lia. Qed.

Lemma size_bits_spec w : size_bits w = 16 * (w / 16).
Proof.
  unfold size_bits. rewrite <- Z.ldiff_land.
  change 15 with (Z.ones 4). rewrite Z.ldiff_ones_r by lia.
  rewrite Z.shiftr_div_pow2, Z.shiftl_mul_pow2 by lia.
  change (2 ^ 4) with 16. lia.
Qed.

Lemma alloc_bit_spec w : alloc_bit w = w mod 2.
Proof.
  unfold alloc_bit. change 1 with (Z.ones 1) at 1.
  rewrite Z.land_ones by lia. reflexivity.
Qed.

Lemma size_bits_tag sz a : sz mod 16 = 0 -> size_bits (tag sz a) = sz.
Proof.
  intros H. rewrite size_bits_spec. unfold tag.
  pose proof (Z.div_mod sz 16 ltac:(lia)) as D. rewrite H in D.
  assert (E : (sz + Z.b2z a) / 16 = sz / 16).
  { rewrite D at 1. rewrite (Z.mul_comm 16), Z.add_0_r.
    rewrite Z.div_add_l by lia. destruct a; simpl; rewrite Z.add_0_r;
      reflexivity. }
  rewrite E. lia.
Qed.

Lemma alloc_bit_tag sz a : sz mod 16 = 0 -> alloc_bit (tag sz a) = Z.b2z a.
Proof.
  intros H. rewrite alloc_bit_spec. unfold tag.
  pose proof (Z.div_mod sz 16 ltac:(lia)) as D. rewrite H in D.
  replace (sz + Z.b2z a) with (Z.b2z a + (8 * (sz / 16)) * 2) by lia.
  rewrite Z.mod_add by lia. destruct a; reflexivity.
Qed.

Lemma PACK_tag sz a : sz mod 16 = 0 -> PACK sz (Z.b2z a) = tag sz a.
Proof.
  intros H. unfold PACK, tag. destruct a; simpl.
  - assert (L : Z.land sz 1 = 0).
    { change 1 with (Z.ones 1). rewrite Z.land_ones by lia.
      pose proof (Z.div_mod sz 16 ltac:(lia)) as D. rewrite H in D.
      replace sz with (0 + (8 * (sz / 16)) * 2) by lia.
      now rewrite Z.mod_add by lia. }
    rewrite <- Z.lxor_lor by exact L. symmetry. now apply Z.add_nocarry_lxor.
  - rewrite Z.lor_0_r. lia.
Qed.

Lemma tag_range sz a : 0 <= sz < 2 ^ 63 -> 0 <= tag sz a < 2 ^ 64.
Proof. unfold tag. destruct a; simpl; lia. Qed.

End MemFacts.
Export MemFacts.

(** * Rules for the weakest precondition *)

Section WpRules.
Context {A B : Type}.

Lemma wp_ret (a : A) Q s : Q a s -> wp (ret a) Q s.
Proof. intros H. exact H. Qed.

Lemma wp_bind (c : M A) (f : A -> M B) Q s :
  wp c (fun a s' => wp (f a) Q s') s -> wp (bind c f) Q s.
Proof. unfold wp, bind. destruct (c s); auto. Qed.

Lemma wp_mono (c : M A) (Q Q' : A -> state -> Prop) s :
  wp c Q s -> (forall a s', Q a s' -> Q' a s') -> wp c Q' s.
Proof. unfold wp. destruct (c s); auto. Qed.

Lemma wp_run (c : M A) Q s :
  wp c Q s -> exists a s', c s = Ok a s' /\ Q a s'.
Proof. unfold wp. destruct (c s) as [a s'| |]; try tauto. eauto. Qed.

Lemma wp_of_run (c : M A) (Q : A -> state -> Prop) s a s' :
  c s = Ok a s' -> Q a s' -> wp c Q s.
Proof. unfold wp. intros ->. auto. Qed.

End WpRules.

Lemma in_arena_valid s p : valid s p -> in_arena s p 8 = true.
Proof.
  unfold valid, in_arena. intros [H1 H2].
  apply andb_true_intro. split; apply Z.leb_le; lia.
Qed.

Lemma wp_GET p Q s : valid s p -> Q (load (mem s) p) s -> wp (GET p) Q s.
Proof. intros V H. unfold wp, GET. now rewrite in_arena_valid. Qed.

Lemma wp_PUT p v Q s :
  valid s p -> Q tt (set_mem s (store (mem s) p v)) -> wp (PUT p v) Q s.
Proof. intros V H. unfold wp, PUT. now rewrite in_arena_valid. Qed.

Lemma wp_GET_PTR p Q s : valid s p -> Q (load (mem s) p) s -> wp (GET_PTR p) Q s.
Proof. apply wp_GET. Qed.

Lemma wp_PUT_PTR p v Q s :
  valid s p -> Q tt (set_mem s (store (mem s) p v)) -> wp (PUT_PTR p v) Q s.
Proof. apply wp_PUT. Qed.

Lemma wp_GET_SIZE p Q s :
  valid s p -> Q (size_bits (load (mem s) p)) s -> wp (GET_SIZE p) Q s.
Proof.
  intros V H. unfold GET_SIZE. apply wp_bind. apply wp_GET; [exact V|].
  now apply wp_ret.
Qed.

Lemma wp_GET_ALLOC p Q s :
  valid s p -> Q (alloc_bit (load (mem s) p)) s -> wp (GET_ALLOC p) Q s.
Proof.
  intros V H. unfold GET_ALLOC. apply wp_bind. apply wp_GET; [exact V|].
  now apply wp_ret.
Qed.

Lemma wp_LL_START Q s : Q (PSUB (heap_start s) 16) s -> wp LL_START Q s.
Proof. intros H. exact H. Qed.

(** * Block lists and the free list *)

Section ListFacts.

Lemma good_okb b : good b -> okb b.
Proof. unfold good, okb. intros [H1 H2]. repeat split; auto; lia. Qed.

Lemma Forall_good_okb bs : Forall good bs -> Forall okb bs.
Proof. apply Forall_impl. exact good_okb. Qed.

Lemma okb_prologue : okb prologue.
Proof. unfold okb, prologue. simpl. repeat split; try lia; discriminate. Qed.

Lemma total_app l1 l2 : total (l1 ++ l2) = total l1 + total l2.
Proof.
  induction l1 as [|[sz a] l1 IH]; simpl; [reflexivity|]. rewrite IH. lia.
Qed.

Lemma total_nonneg bs : Forall okb bs -> 0 <= total bs.
Proof.
  induction 1 as [|[sz a] r [H _] _ IH]; simpl in *; lia.
Qed.

Lemma blocks_app m l1 : forall bp l2,
  blocks m bp (l1 ++ l2) <-> blocks m bp l1 /\ blocks m (bp + total l1) l2.
Proof.
  induction l1 as [|[sz a] l1 IH]; intros bp l2; simpl.
  - rewrite Z.add_0_r. tauto.
  - rewrite IH. replace (bp + (sz + total l1)) with (bp + sz + total l1) by lia.
    tauto.
Qed.

Lemma free_addrs_app l1 : forall bp l2,
  free_addrs bp (l1 ++ l2) =
  free_addrs bp l1 ++ free_addrs (bp + total l1) l2.
Proof.
  induction l1 as [|[sz a] l1 IH]; intros bp l2; simpl.
  - now rewrite Z.add_0_r.
  - rewrite IH, <- app_assoc.
    now replace (bp + (sz + total l1)) with (bp + sz + total l1) by lia.
Qed.

Lemma pay_app k l1 : forall bp l2 x,
  pay k bp (l1 ++ l2) x <-> pay k bp l1 x \/ pay k (bp + total l1) l2 x.
Proof.
  induction l1 as [|[sz a] l1 IH]; intros bp l2 x; simpl.
  - rewrite Z.add_0_r. tauto.
  - rewrite IH. replace (bp + (sz + total l1)) with (bp + sz + total l1) by lia.
    tauto.
Qed.

Lemma free_addrs_bounds bs : forall bp b,
  Forall okb bs -> In b (free_addrs bp bs) ->
  bp <= b /\ b + 32 <= bp + total bs.
Proof.
  induction bs as [|[sz a] r IH]; intros bp b F H; simpl in *; [tauto|].
  inversion F as [|? ? [O1 [O2 O3]] F']; subst. simpl in *.
  pose proof (total_nonneg r F').
  apply in_app_or in H. destruct H as [H|H].
  - destruct a; simpl in H; [tauto|]. destruct H as [<-|[]].
    specialize (O3 eq_refl). lia.
  - apply IH in H; auto. lia.
Qed.

Lemma pay_bounds k bs : forall bp x,
  Forall okb bs -> pay k bp bs x -> bp <= x < bp + total bs - 16.
Proof.
  induction bs as [|[sz a] r IH]; intros bp x F H; simpl in *; [tauto|].
  inversion F as [|? ? [O1 [O2 O3]] F']; subst. simpl in *.
  pose proof (total_nonneg r F').
  destruct H as [[_ H]|H]; [lia|]. apply IH in H; auto. lia.
Qed.

Lemma free_addrs_pay bs : forall bp b x,
  Forall okb bs -> In b (free_addrs bp bs) -> b <= x < b + 16 ->
  pay false bp bs x.
Proof.
  induction bs as [|[sz a] r IH]; intros bp b x F H Hx; simpl in *; [tauto|].
  inversion F as [|? ? [O1 [O2 O3]] F']; subst. simpl in *.
  apply in_app_or in H. destruct H as [H|H].
  - destruct a; simpl in H; [tauto|]. destruct H as [<-|[]].
    specialize (O3 eq_refl). left. split; [reflexivity|lia].
  - right. eapply IH; eauto.
Qed.

Lemma free_addrs_NoDup bs : forall bp,
  Forall okb bs -> NoDup (free_addrs bp bs).
Proof.
  induction bs as [|[sz a] r IH]; intros bp F; simpl; [constructor|].
  inversion F as [|? ? [O1 [O2 O3]] F']; subst. simpl in *.
  destruct a; simpl; [now apply IH|].
  constructor; [|now apply IH].
  intros H. apply free_addrs_bounds in H; auto. lia.
Qed.

(** Two distinct free blocks are at least 32 bytes apart. *)
Lemma free_addrs_apart bs : forall bp b b',
  Forall okb bs -> In b (free_addrs bp bs) -> In b' (free_addrs bp bs) ->
  b = b' \/ b + 32 <= b' \/ b' + 32 <= b.
Proof.
  induction bs as [|[sz a] r IH]; intros bp b b' F H H'; simpl in *; [tauto|].
  inversion F as [|? ? [O1 [O2 O3]] F']; subst. simpl in *.
  apply in_app_or in H. apply in_app_or in H'.
  assert (E : forall c, In c (if a then [] else [bp]) -> c = bp /\ 32 <= sz).
  { intros c Hc. destruct a; simpl in Hc; [tauto|]. destruct Hc as [<-|[]].
    split; [reflexivity|now apply O3]. }
  destruct H as [H|H], H' as [H'|H'].
  - apply E in H, H'. lia.
  - apply E in H. apply free_addrs_bounds in H'; auto. lia.
  - apply E in H'. apply free_addrs_bounds in H; auto. lia.
  - eapply IH; eauto.
Qed.

(** A change of memory that stays inside payloads leaves the boundary tags
    of a run of blocks alone. *)
Lemma blocks_frame m m' bs : forall bp,
  Forall okb bs -> blocks m bp bs ->
  (forall x, bp - 8 <= x < bp + total bs - 8 ->
             ~ pay true bp bs x -> ~ pay false bp bs x -> m' x = m x) ->
  blocks m' bp bs.
Proof.
  induction bs as [|[sz a] r IH]; intros bp F B H; simpl in *; [exact I|].
  inversion F as [|? ? [O1 [O2 O3]] F']; subst. simpl in *.
  pose proof (total_nonneg r F') as T.
  destruct B as (B1 & B2 & B3).
  assert (N : forall k x, pay k (bp + sz) r x -> bp + sz <= x).
  { intros k x Hx. apply pay_bounds in Hx; auto. lia. }
  repeat split.
  - rewrite <- B1. apply load_ext. intros x Hx. apply H; [lia| |].
    + intros [[_ ?]|P]; [lia|]. apply N in P. lia.
    + intros [[_ ?]|P]; [lia|]. apply N in P. lia.
  - rewrite <- B2. apply load_ext. intros x Hx. apply H; [lia| |].
    + intros [[_ ?]|P]; [lia|]. apply N in P. lia.
    + intros [[_ ?]|P]; [lia|]. apply N in P. lia.
  - apply IH; auto. intros x Hx P1 P2. apply H; [lia| |].
    + intros [[_ ?]|P]; [lia|]. tauto.
    + intros [[_ ?]|P]; [lia|]. tauto.
Qed.

Lemma cell_node lo b : b <> 0 -> cell lo b = b + 8.
Proof.
  intros Hb. unfold cell. destruct (b =? 0) eqn:E; [|reflexivity].
  apply Z.eqb_eq in E. contradiction.
Qed.

Lemma dll_frame m m' lo : forall l prev,
  dll m lo prev l ->
  (forall x, cell lo prev <= x < cell lo prev + 8 -> m' x = m x) ->
  (forall b x, In b l -> b <= x < b + 16 -> m' x = m x) ->
  dll m' lo prev l.
Proof.
  induction l as [|b r IH]; intros prev D Hc Hn; simpl in *.
  - rewrite <- D. apply load_ext. exact Hc.
  - destruct D as (D1 & D0 & D2 & D3).
    repeat split; auto.
    + rewrite <- D1. apply load_ext. exact Hc.
    + rewrite <- D2. apply load_ext. intros x Hx. apply (Hn b); [now left|lia].
    + apply IH; auto.
      * intros x Hx. rewrite cell_node in Hx by exact D0.
        apply (Hn b); [now left|lia].
      * intros b' x Hb' Hx. apply (Hn b'); [now right|exact Hx].
Qed.

Lemma dll_nonzero m lo : forall l prev, dll m lo prev l -> ~ In 0 l.
Proof.
  induction l as [|b r IH]; intros prev D; simpl in *; [tauto|].
  destruct D as (_ & D0 & _ & D3). intros [E|E]; [congruence|].
  eapply IH; eauto.
Qed.

End ListFacts.

(** * The free-list routines *)

Lemma last_cons_default (A : Type) (l : list A) (b q : A) :
  last (b :: l) q = last l b.
Proof.
  revert b q. induction l as [|c l IH]; intros b q; [reflexivity|].
  change (last (b :: c :: l) q) with (last (c :: l) q).
  now rewrite !IH.
Qed.

Lemma last_In (A : Type) (l : list A) (q : A) : In (last l q) (q :: l).
Proof.
  revert q. induction l as [|c l IH]; intros q; [now left|].
  rewrite last_cons_default. right. apply IH.
Qed.

Lemma hd_In (l : list Z) : hd 0 l <> 0 -> In (hd 0 l) l.
Proof. destruct l; simpl; [congruence|auto]. Qed.

Lemma dll_remove m m' lo x l2 p n : forall l1 q,
  (forall b, In b (l1 ++ x :: l2) ->
             cell lo q + 8 <= b \/ b + 16 <= cell lo q) ->
  NoDup (l1 ++ x :: l2) ->
  apart (l1 ++ x :: l2) ->
  dll m lo q (l1 ++ x :: l2) ->
  p = last l1 q -> n = hd 0 l2 ->
  load m' (cell lo p) = n ->
  (n <> 0 -> load m' n = p) ->
  (forall a, ~ (cell lo p <= a < cell lo p + 8) ->
             (n = 0 \/ ~ (n <= a < n + 8)) -> m' a = m a) ->
  dll m' lo q (l1 ++ l2).
Proof.
  induction l1 as [|b l1 IH]; intros q Cq ND AP D Hp Hn Lp Ln Fr.
  - simpl in *. subst p. destruct D as (D1 & D0 & D2 & D3).
    destruct l2 as [|n' r]; simpl in *.
    + subst n. exact Lp.
    + subst n'. destruct D3 as (E1 & E0 & E2 & E3).
      repeat split; auto.
      apply NoDup_cons_iff in ND as [Nx ND'].
      apply NoDup_cons_iff in ND' as [Nn ND''].
      apply (dll_frame m); auto.
      * intros a Ha. rewrite cell_node in Ha by exact E0.
        apply Fr; [|right; lia].
        specialize (Cq n (or_intror (or_introl eq_refl))). lia.
      * intros b a Hb Ha. apply Fr.
        -- specialize (Cq b (or_intror (or_intror Hb))). lia.
        -- right. destruct (AP n b) as [E|E]; simpl; auto.
           ++ subst b. contradiction.
           ++ lia.
  - simpl in D. destruct D as (D1 & D0 & D2 & D3).
    rewrite last_cons_default in Hp.
    apply NoDup_cons_iff in ND as [Nb ND'].
    assert (AP' : apart (l1 ++ x :: l2)).
    { intros c c' Hc Hc'. apply AP; now right. }
    assert (Cb : forall c, In c (l1 ++ x :: l2) ->
                           cell lo b + 8 <= c \/ c + 16 <= cell lo b).
    { intros c Hc. rewrite cell_node by exact D0.
      destruct (AP b c) as [E|E]; [now left|now right| |lia].
      subst c. contradiction. }
    specialize (IH b Cb ND' AP' D3 Hp Hn Lp Ln Fr).
    assert (Pin : In p (b :: l1)) by (subst p; apply last_In).
    assert (P0 : p <> 0).
    { destruct Pin as [<-|Pin]; [exact D0|].
      intros ->. eapply (dll_nonzero _ _ _ _ D3). apply in_or_app. now left. }
    assert (PL : In p (b :: l1 ++ x :: l2)).
    { destruct Pin as [<-|Pin]; [now left|right; apply in_or_app; now left]. }
    assert (NL : n <> 0 -> In n (b :: l1 ++ x :: l2) /\ n <> b).
    { intros N0. subst n. apply hd_In in N0.
      assert (In (hd 0 l2) (l1 ++ x :: l2)) by (apply in_or_app; right; now right).
      split; [now right|]. intros E. rewrite E in H. contradiction. }
    simpl. repeat split; auto.
    + rewrite <- D1. apply load_ext. intros a Ha. apply Fr.
      * rewrite cell_node by exact P0. specialize (Cq p PL). lia.
      * destruct (Z.eq_dec n 0) as [|N0]; [now left|right].
        destruct (NL N0) as [NL1 _]. specialize (Cq n NL1). lia.
    + rewrite <- D2. apply load_ext. intros a Ha. apply Fr.
      * rewrite cell_node by exact P0.
        destruct (AP b p) as [E|E]; [now left|exact PL| |]; lia.
      * destruct (Z.eq_dec n 0) as [|N0]; [now left|right].
        destruct (NL N0) as [NL1 NL2].
        destruct (AP b n) as [E|E]; [now left|exact NL1| |]; [congruence|lia].
Qed.

Lemma same_ctl_refl s : same_ctl s s.
Proof. repeat split. Qed.

Lemma same_ctl_trans s1 s2 s3 : same_ctl s1 s2 -> same_ctl s2 s3 -> same_ctl s1 s3.
Proof. unfold same_ctl. intuition congruence. Qed.

Lemma same_ctl_set_mem s m : same_ctl s (set_mem s m).
Proof. repeat split. Qed.

Lemma remove_split (x : Z) l1 l2 :
  NoDup (l1 ++ x :: l2) -> remove Z.eq_dec x (l1 ++ x :: l2) = l1 ++ l2.
Proof.
  intros ND. rewrite remove_app. simpl.
  destruct (Z.eq_dec x x) as [_|N]; [|congruence].
  apply NoDup_remove_2 in ND.
  rewrite !notin_remove; [reflexivity| |]; intros H; apply ND, in_or_app; auto.
Qed.

Lemma NoDup_app_disj (l1 l2 : list Z) a :
  NoDup (l1 ++ l2) -> In a l1 -> In a l2 -> False.
Proof.
  induction l1 as [|b l1 IH]; simpl; intros ND H1 H2; [tauto|].
  apply NoDup_cons_iff in ND as [N1 N2].
  destruct H1 as [->|H1]; [apply N1, in_or_app; now right|auto].
Qed.

Lemma dll_at m lo x l2 : forall l1 q,
  dll m lo q (l1 ++ x :: l2) ->
  x <> 0 /\ load m x = last l1 q /\ load m (x + 8) = hd 0 l2 /\
  load m (cell lo q) <> 0.
Proof.
  induction l1 as [|b l1 IH]; intros q D; simpl in D.
  - destruct D as (D1 & D0 & D2 & D3). repeat split; auto; [|congruence].
    rewrite <- (cell_node lo x D0). destruct l2; simpl in *; tauto.
  - destruct D as (D1 & D0 & D2 & D3). rewrite last_cons_default.
    apply IH in D3. intuition congruence.
Qed.

Ltac unwrap :=
  repeat match goal with
    | |- context [wrap ?z] => rewrite (wrap_small z) by lia
    end.

Lemma remove_node_spec s lo fl x :
  mem_heap s = lo -> heap_start s = lo + 16 -> 0 < lo -> mem_brk s < 2 ^ 63 ->
  dll (mem s) lo 0 fl -> NoDup fl -> apart fl ->
  Forall (fun b => lo + 8 <= b /\ b + 16 <= mem_brk s) fl ->
  In x fl ->
  wp (remove_node x) (fun _ s' =>
      same_ctl s s' /\ dll (mem s') lo 0 (remove Z.eq_dec x fl) /\
      (forall a, ~ (lo <= a < lo + 8) ->
                 (forall b, In b fl -> b <> x -> ~ (b <= a < b + 16)) ->
                 mem s' a = mem s a)) s.
Proof.
  intros Hlo Hhs Lpos Hbrk D ND AP FB Hx.
  destruct (in_split _ _ Hx) as (l1 & l2 & ->).
  rewrite remove_split by exact ND.
  destruct (dll_at _ _ _ _ _ _ D) as (X0 & Xp & Xn & Hh).
  simpl in Hh.
  pose proof (proj1 (Forall_forall _ _) FB) as FB'. cbv beta in FB'.
  pose proof (FB' x Hx) as Bx.
  set (p := last l1 0) in *. set (n := hd 0 l2) in *.
  assert (Pin : p <> 0 -> In p l1).
  { intros P0. destruct (last_In _ l1 0) as [E|E]; [|exact E].
    fold p in E. congruence. }
  assert (Nin : n <> 0 -> In n l2) by (apply hd_In).
  assert (Pb : p <> 0 -> lo + 8 <= p /\ p + 16 <= mem_brk s /\ p <> x /\
                         (p + 16 <= x \/ x + 16 <= p)).
  { intros P0. specialize (Pin P0).
    assert (In p (l1 ++ x :: l2)) by (apply in_or_app; now left).
    assert (p <> x).
    { intros ->. apply NoDup_remove_2 in ND. apply ND, in_or_app. now left. }
    destruct (AP p x H Hx) as [E|E]; [contradiction|].
    specialize (FB' p H). lia. }
  assert (Nb : n <> 0 -> lo + 8 <= n /\ n + 16 <= mem_brk s /\ n <> x /\
                         (n + 16 <= x \/ x + 16 <= n)).
  { intros N0. specialize (Nin N0).
    assert (In n (l1 ++ x :: l2)) by (apply in_or_app; right; now right).
    assert (n <> x).
    { intros ->. apply NoDup_remove_2 in ND. apply ND, in_or_app. now right. }
    destruct (AP n x H Hx) as [E|E]; [contradiction|].
    specialize (FB' n H). lia. }
  assert (PN : p <> 0 -> n <> 0 -> p + 16 <= n \/ n + 16 <= p).
  { intros P0 N0. specialize (Pin P0). specialize (Nin N0).
    destruct (AP p n) as [E|E]; auto.
    - apply in_or_app; now left.
    - apply in_or_app; right; now right.
    - exfalso. apply NoDup_remove_1 in ND. rewrite E in Pin.
      exact (NoDup_app_disj _ _ _ ND Pin Nin). }
  assert (Cq : forall b, In b (l1 ++ x :: l2) ->
                         cell lo 0 + 8 <= b \/ b + 16 <= cell lo 0).
  { intros b Hb. specialize (FB' b Hb). unfold cell. simpl. lia. }
  unfold remove_node.
  apply wp_bind, wp_LL_START. rewrite Hhs. unfold PSUB. unwrap.
  replace (lo + 16 - 16) with lo by lia.
  apply wp_bind, wp_GET_PTR; [unfold valid; lia|].
  unfold NULL.
  destruct (load (mem s) lo =? 0) eqn:E0; [apply Z.eqb_eq in E0; contradiction|].
  destruct (x =? 0) eqn:E1; [apply Z.eqb_eq in E1; contradiction|].
  apply wp_bind, wp_GET_PTR; [unfold valid; lia|]. rewrite Xp.
  unfold PADD. unwrap.
  apply wp_bind, wp_GET_PTR; [unfold valid; lia|]. rewrite Xn.
  destruct (Z.eqb_spec p 0) as [Ep|Ep]; destruct (Z.eqb_spec n 0) as [En|En];
    simpl.
  - (* only node *)
    apply wp_PUT_PTR; [unfold valid; lia|].
    split; [apply same_ctl_set_mem|]. simpl. split.
    + apply (dll_remove (mem s) _ lo x l2 p n l1 0); auto.
      * rewrite Ep, En. unfold cell. simpl. apply load_store_same. lia.
      * congruence.
      * intros a Ha _. rewrite Ep in Ha. unfold cell in Ha. simpl in Ha.
        apply store_other. lia.
    + intros a Ha _. apply store_other. lia.
  - (* first node, something behind *)
    specialize (Nb En).
    apply wp_bind, wp_PUT_PTR; [unfold valid; lia|].
    apply wp_PUT_PTR; [unfold valid; simpl; lia|].
    split; [repeat split|]. simpl. split.
    + apply (dll_remove (mem s) _ lo x l2 p n l1 0); auto.
      * rewrite Ep. unfold cell. simpl. rewrite load_store_other by lia.
        apply load_store_same. lia.
      * intros _. rewrite Ep. apply load_store_same. lia.
      * intros a Ha Ha'. rewrite Ep in Ha. unfold cell in Ha. simpl in Ha.
        rewrite !store_other; auto; lia.
    + intros a Ha Hb. rewrite !store_other; auto; [lia|].
      specialize (Hb n). 
      assert (In n (l1 ++ x :: l2)) by (apply in_or_app; right; right; auto).
      specialize (Hb H (proj1 (proj2 (proj2 Nb)))). lia.
  - (* last node *)
    specialize (Pb Ep). unwrap.
    apply wp_PUT_PTR; [unfold valid; lia|].
    split; [apply same_ctl_set_mem|]. simpl. split.
    + apply (dll_remove (mem s) _ lo x l2 p n l1 0); auto.
      * rewrite cell_node by exact Ep. rewrite En. apply load_store_same. lia.
      * congruence.
      * intros a Ha _. rewrite cell_node in Ha by exact Ep.
        apply store_other. lia.
    + intros a Ha Hb. apply store_other.
      specialize (Hb p).
      assert (In p (l1 ++ x :: l2)) by (apply in_or_app; left; auto).
      specialize (Hb H (proj1 (proj2 (proj2 Pb)))). lia.
  - (* middle node *)
    specialize (Pb Ep). specialize (Nb En). specialize (PN Ep En). unwrap.
    apply wp_bind, wp_PUT_PTR; [unfold valid; lia|].
    apply wp_PUT_PTR; [unfold valid; simpl; lia|].
    split; [repeat split|]. simpl. split.
    + apply (dll_remove (mem s) _ lo x l2 p n l1 0); auto.
      * rewrite cell_node by exact Ep. apply load_store_same. lia.
      * intros _. rewrite load_store_other by lia. apply load_store_same. lia.
      * intros a Ha Ha'. rewrite cell_node in Ha by exact Ep.
        rewrite !store_other; auto; lia.
    + intros a Ha Hb. 
      assert (In p (l1 ++ x :: l2)) by (apply in_or_app; left; auto).
      assert (In n (l1 ++ x :: l2)) by (apply in_or_app; right; right; auto).
      pose proof (Hb p H (proj1 (proj2 (proj2 Pb)))).
      pose proof (Hb n H0 (proj1 (proj2 (proj2 Nb)))).
      rewrite !store_other; auto; lia.
Qed.

Lemma insert_node_spec s lo fl x :
  mem_heap s = lo -> heap_start s = lo + 16 -> 0 < lo -> mem_brk s < 2 ^ 63 ->
  dll (mem s) lo 0 fl -> NoDup fl -> apart fl ->
  Forall (fun b => lo + 8 <= b /\ b + 16 <= mem_brk s) fl ->
  lo + 8 <= x -> x + 16 <= mem_brk s ->
  (forall b, In b fl -> b + 16 <= x \/ x + 16 <= b) ->
  wp (insert_node x) (fun _ s' =>
      same_ctl s s' /\ dll (mem s') lo 0 (x :: fl) /\
      (forall a, ~ (lo <= a < lo + 8) -> ~ (x <= a < x + 16) ->
                 (forall b, In b fl -> ~ (b <= a < b + 8)) ->
                 mem s' a = mem s a)) s.
Proof.
  intros Hlo Hhs Lpos Hbrk D ND AP FB X1 X2 XA.
  pose proof (proj1 (Forall_forall _ _) FB) as FB'. cbv beta in FB'.
  unfold insert_node.
  apply wp_bind, wp_LL_START. rewrite Hhs. unfold PSUB, PADD. unwrap.
  replace (lo + 16 - 16) with lo by lia.
  apply wp_bind, wp_GET_PTR; [unfold valid; lia|].
  unfold NULL.
  destruct fl as [|h r]; simpl in D.
  - unfold cell in D. simpl in D. rewrite D. simpl.
    apply wp_bind, wp_ret.
    apply wp_bind, wp_PUT_PTR; [unfold valid; lia|].
    apply wp_bind, wp_PUT_PTR; [unfold valid; simpl; lia|].
    apply wp_PUT_PTR; [unfold valid; simpl; lia|].
    split; [repeat split|]. simpl. split.
    + unfold cell. simpl. rewrite load_store_same by lia.
      repeat split; [lia| |].
      * rewrite !load_store_other by lia. apply load_store_same. lia.
      * destruct (Z.eqb_spec x 0); [lia|].
        rewrite load_store_other by lia. apply load_store_same. lia.
    + intros a A1 A2 _. rewrite !store_other by lia. reflexivity.
  - destruct D as (D1 & D0 & D2 & D3). unfold cell in D1. simpl in D1.
    rewrite D1. destruct (Z.eqb_spec h 0) as [|_]; [contradiction|].
    pose proof (FB' h (or_introl eq_refl)) as Bh.
    pose proof (XA h (or_introl eq_refl)) as Ah.
    apply NoDup_cons_iff in ND as [Nh ND'].
    apply wp_bind, wp_PUT_PTR; [unfold valid; lia|].
    apply wp_bind, wp_PUT_PTR; [unfold valid; simpl; lia|].
    apply wp_bind, wp_PUT_PTR; [unfold valid; simpl; lia|].
    apply wp_PUT_PTR; [unfold valid; simpl; lia|].
    split; [repeat split|]. simpl. split.
    + unfold cell at 1. simpl. rewrite load_store_same by lia.
      repeat split; [lia| | | | |].
      * rewrite !load_store_other by lia. apply load_store_same. lia.
      * rewrite cell_node by lia.
        rewrite load_store_other by lia. apply load_store_same. lia.
      * exact D0.
      * rewrite !load_store_other by lia. apply load_store_same. lia.
      * apply (dll_frame (mem s)); auto.
        -- intros a Ha. rewrite cell_node in Ha by exact D0.
           rewrite !store_other by lia. reflexivity.
        -- intros b a Hb Ha.
           pose proof (FB' b (or_intror Hb)). pose proof (XA b (or_intror Hb)).
           destruct (AP h b) as [E|E]; [now left|now right| |].
           ++ subst b. contradiction.
           ++ rewrite !store_other by lia. reflexivity.
    + intros a A1 A2 A3. specialize (A3 h (or_introl eq_refl)).
      rewrite !store_other by lia. reflexivity.
Qed.

(** * Coalescing *)

Lemma link_change_refl lo base L m : link_change lo base L m m.
Proof. intros a _ _. reflexivity. Qed.

Lemma link_change_trans lo base L m1 m2 m3 :
  link_change lo base L m1 m2 -> link_change lo base L m2 m3 ->
  link_change lo base L m1 m3.
Proof. intros H1 H2 a A1 A2. rewrite H2, H1; auto. Qed.

Lemma blocks_ext m m' bs : forall bp,
  blocks m bp bs ->
  (forall x, bp - 8 <= x < bp + total bs - 8 -> m' x = m x) ->
  Forall okb bs ->
  blocks m' bp bs.
Proof.
  intros bp B H F. apply (blocks_frame m); auto.
Qed.

Lemma link_change_blocks lo base L m m' :
  link_change lo base L m m' -> Forall okb L -> lo + 16 <= base ->
  blocks m base L -> blocks m' base L.
Proof.
  intros LC F Hb B. apply (blocks_frame m); auto.
  intros x Hx P1 P2. apply LC; [lia|].
  intros b Hin Hr. apply P2. eapply free_addrs_pay; eauto.
Qed.

Lemma pay_true_not_link bs : forall bp b x,
  Forall okb bs -> In b (free_addrs bp bs) -> pay true bp bs x ->
  ~ (b <= x < b + 16).
Proof.
  induction bs as [|[sz a] r IH]; intros bp b x F H P; simpl in *; [tauto|].
  inversion F as [|? ? [O1 [O2 O3]] F']; subst. simpl in *.
  pose proof (total_nonneg r F').
  apply in_app_or in H. destruct H as [H|H], P as [[Ea P]|P].
  - subst a. simpl in H. tauto.
  - destruct a; simpl in H; [tauto|]. destruct H as [<-|[]].
    apply pay_bounds in P; auto. specialize (O3 eq_refl). lia.
  - apply free_addrs_bounds in H; auto. lia.
  - eapply IH; eauto.
Qed.

Lemma link_change_pay lo base L m m' a :
  link_change lo base L m m' -> Forall okb L -> lo + 16 <= base ->
  pay true base L a -> m' a = m a.
Proof.
  intros LC F Hb P. apply LC.
  - apply pay_bounds in P; auto. lia.
  - intros b Hin. eapply pay_true_not_link; eauto.
Qed.

(** A word outside the head cell and at least 16 bytes away from the start
    of every block payload is no link cell. *)
Lemma link_change_load lo base L m m' c :
  link_change lo base L m m' ->
  c + 8 <= lo \/ lo + 8 <= c ->
  (forall b, In b (free_addrs base L) -> c + 8 <= b \/ b + 16 <= c) ->
  load m' c = load m c.
Proof.
  intros LC H1 H2. apply load_ext. intros x Hx. apply LC; [lia|].
  intros b Hb. specialize (H2 b Hb). lia.
Qed.

Lemma PADD_wrap p z : PADD p (wrap z) = wrap (p + z).
Proof. unfold PADD, wrap. now rewrite Zplus_mod_idemp_r. Qed.

Lemma incl_free_geometry lo brk (ubs : list block) (fl : list Z) :
  Forall okb ubs -> brk = lo + 32 + total ubs ->
  (forall b, In b fl -> In b (free_addrs (lo + 32) ubs)) ->
  apart fl /\ Forall (fun b => lo + 8 <= b /\ b + 16 <= brk) fl.
Proof.
  intros F Hb Hin. split.
  - intros b b' H H'. apply Hin in H, H'.
    destruct (free_addrs_apart _ _ _ _ F H H'); lia.
  - apply Forall_forall. intros b H. apply Hin in H.
    apply free_addrs_bounds in H; auto. lia.
Qed.

Lemma last_split (upre : list block) :
  exists pre0, prologue :: upre = pre0 ++ [last upre prologue] /\
    (snd (last upre prologue) = false ->
     pre0 = prologue :: removelast upre /\
     upre = removelast upre ++ [last upre prologue]).
Proof.
  destruct upre as [|b l].
  - exists []. split; [reflexivity|]. simpl. discriminate.
  - assert (N : b :: l <> []) by discriminate.
    destruct (exists_last N) as (l' & x & E). rewrite E.
    rewrite last_last, removelast_last.
    exists (prologue :: l'). split; [reflexivity|]. auto.
Qed.

Ltac norm_ptr :=
  unfold HDRP, PSUB, PADD, WSIZE, DSIZE, OVERHEAD, NULL in *;
  repeat match goal with
    | |- context [wrap (?p + wrap ?z)] =>
        change (wrap (p + wrap z)) with (PADD p (wrap z));
        rewrite (PADD_wrap p z); unfold PADD
    end;
  repeat match goal with
    | |- context [wrap ?z] => rewrite (wrap_small z) by lia
    end.

Lemma tag_free sz : tag sz false = sz.
Proof. unfold tag. simpl. lia. Qed.

Lemma NoDup_remove_list (x : Z) l : NoDup l -> NoDup (remove Z.eq_dec x l).
Proof.
  induction 1 as [|a l H ND IH]; simpl; [constructor|].
  destruct (Z.eq_dec x a); [exact IH|].
  constructor; [|exact IH]. intros Hin. apply in_remove in Hin. tauto.
Qed.

Lemma free_addrs_prologue lo ubs :
  free_addrs (lo + 16) (prologue :: ubs) = free_addrs (lo + 32) ubs.
Proof.
  unfold prologue. cbn [free_addrs app].
  now replace (lo + 16 + 16) with (lo + 32) by lia.
Qed.

Lemma okb_all ubs : Forall good ubs -> Forall okb (prologue :: ubs).
Proof.
  intros F. constructor; [apply okb_prologue|now apply Forall_good_okb].
Qed.

Lemma total_prologue ubs : total (prologue :: ubs) = 16 + total ubs.
Proof. reflexivity. Qed.

Lemma wf_pre_wf s ubs fl : wf s ubs fl -> pre_wf s ubs fl.
Proof.
  unfold wf, flist, pre_wf. intros (A & T & D & N & I).
  split; [exact A|]. split; [exact T|]. split; [exact D|].
  split; [exact N|]. intros b. apply I.
Qed.

Lemma pre_wf_wf s ubs fl :
  pre_wf s ubs fl ->
  (forall b, In b (free_addrs (mem_heap s + 32) ubs) -> In b fl) ->
  wf s ubs fl.
Proof.
  unfold wf, flist, pre_wf. intros (A & T & D & N & I) J.
  split; [exact A|]. split; [exact T|]. split; [exact D|].
  split; [exact N|]. intros b. split; auto.
Qed.

Lemma tags_link_change s s' ubs :
  tags s ubs -> same_ctl s s' -> 0 < mem_heap s ->
  link_change (mem_heap s) (mem_heap s + 16) (prologue :: ubs) (mem s) (mem s') ->
  tags s' ubs.
Proof.
  intros (T1 & T2 & T3 & T4) (C1 & C2 & C3 & C4) Hpos LC.
  pose proof (okb_all _ T1) as FO.
  pose proof (total_nonneg _ FO) as TN. rewrite total_prologue in TN.
  unfold tags. rewrite C2, C3.
  split; [exact T1|]. split; [exact T2|]. split.
  - apply (link_change_blocks _ _ _ _ _ LC); auto. lia.
  - rewrite <- T4. apply (link_change_load _ _ _ _ _ _ LC); [lia|].
    intros b Hb. apply free_addrs_bounds in Hb; auto.
    rewrite total_prologue in Hb. lia.
Qed.

Lemma remove_node_pre s ubs fl x :
  pre_wf s ubs fl -> In x fl ->
  wp (remove_node x) (fun _ s' =>
      same_ctl s s' /\ pre_wf s' ubs (remove Z.eq_dec x fl) /\
      link_change (mem_heap s) (mem_heap s + 16) (prologue :: ubs)
                  (mem s) (mem s')) s.
Proof.
  intros (AR & TG & D & ND & IN) Hx.
  destruct AR as [A1 A2 A3 A4 A5].
  destruct TG as (T1 & T2 & T3 & T4).
  destruct (incl_free_geometry (mem_heap s) (mem_brk s) ubs fl) as [AP FB];
    auto using Forall_good_okb.
  eapply wp_mono.
  - apply (remove_node_spec s (mem_heap s) fl x); auto; lia.
  - cbv beta. intros _ s' (SC & D' & FR).
    assert (LC : link_change (mem_heap s) (mem_heap s + 16) (prologue :: ubs)
                   (mem s) (mem s')).
    { intros a Ha Hb. apply FR; auto. intros b Hin _.
      apply Hb. rewrite free_addrs_prologue. now apply IN. }
    assert (TG' : tags s' ubs).
    { apply (tags_link_change s); auto. exact (conj T1 (conj T2 (conj T3 T4))). }
    destruct SC as (C1 & C2 & C3 & C4).
    split; [repeat split; auto|]. split; [|exact LC].
    split; [constructor; congruence|]. split; [exact TG'|].
    rewrite C2. split; [exact D'|]. split; [now apply NoDup_remove_list|].
    intros b Hb. apply in_remove in Hb. apply IN. tauto.
Qed.

Lemma insert_node_pre s ubs fl x :
  pre_wf s ubs fl -> In x (free_addrs (mem_heap s + 32) ubs) -> ~ In x fl ->
  wp (insert_node x) (fun _ s' =>
      same_ctl s s' /\ pre_wf s' ubs (x :: fl) /\
      link_change (mem_heap s) (mem_heap s + 16) (prologue :: ubs)
                  (mem s) (mem s')) s.
Proof.
  intros (AR & TG & D & ND & IN) Hx Nx.
  destruct AR as [A1 A2 A3 A4 A5].
  destruct TG as (T1 & T2 & T3 & T4).
  pose proof (Forall_good_okb _ T1) as FO.
  destruct (incl_free_geometry (mem_heap s) (mem_brk s) ubs fl) as [AP FB];
    auto.
  pose proof (free_addrs_bounds _ _ _ FO Hx) as Bx.
  eapply wp_mono.
  - apply (insert_node_spec s (mem_heap s) fl x); auto; try lia.
    intros b Hb. 
    destruct (free_addrs_apart _ _ _ _ FO (IN b Hb) Hx) as [E|E]; [|lia].
    subst b. contradiction.
  - cbv beta. intros _ s' (SC & D' & FR).
    assert (LC : link_change (mem_heap s) (mem_heap s + 16) (prologue :: ubs)
                   (mem s) (mem s')).
    { intros a Ha Hb. rewrite free_addrs_prologue in Hb. apply FR; auto.
      intros b Hin. specialize (Hb b (IN b Hin)). lia. }
    assert (TG' : tags s' ubs).
    { apply (tags_link_change s); auto. exact (conj T1 (conj T2 (conj T3 T4))). }
    destruct SC as (C1 & C2 & C3 & C4).
    split; [repeat split; auto|]. split; [|exact LC].
    split; [constructor; congruence|]. split; [exact TG'|].
    rewrite C2. split; [exact D'|]. split; [constructor; auto|].
    intros b [<-|Hb]; auto.
Qed.

Lemma same_ctl_arena s s' : arena s -> same_ctl s s' -> arena s'.
Proof.
  intros [A1 A2 A3 A4 A5] (C1 & C2 & C3 & C4). constructor; congruence.
Qed.

(** Rewriting the tags of a run [F] of blocks into those of [F'], which
    covers the same bytes. *)
Lemma retag s s' (l1 F F' l2 : list block) fl :
  pre_wf s (l1 ++ F ++ l2) fl -> same_ctl s s' ->
  Forall good F' -> total F' = total F ->
  (forall a, a < mem_heap s + 32 + total l1 - 8 \/
             mem_heap s + 32 + total l1 + total F - 8 <= a ->
             mem s' a = mem s a) ->
  blocks (mem s') (mem_heap s + 32 + total l1) F' ->
  (forall b, In b fl -> In b (free_addrs (mem_heap s + 32 + total l1) F) ->
     In b (free_addrs (mem_heap s + 32 + total l1) F') /\
     forall x, b <= x < b + 16 -> mem s' x = mem s x) ->
  pre_wf s' (l1 ++ F' ++ l2) fl.
Proof.
  intros (AR & TG & D & ND & IN) SC GF' TF' FR BF' HF.
  pose proof (same_ctl_arena _ _ AR SC) as AR'.
  destruct SC as (C1 & C2 & C3 & C4).
  destruct AR as [A1 A2 A3 A4 A5].
  destruct TG as (T1 & T2 & T3 & T4).
  set (lo := mem_heap s) in *. set (A := lo + 32 + total l1) in *.
  apply Forall_app in T1 as [G1 G23]. apply Forall_app in G23 as [G2 G3].
  pose proof (Forall_good_okb _ G1) as O1.
  pose proof (Forall_good_okb _ G2) as O2.
  pose proof (Forall_good_okb _ G3) as O3.
  pose proof (Forall_good_okb _ GF') as OF'.
  pose proof (total_nonneg _ O1) as N1. pose proof (total_nonneg _ O2) as N2.
  pose proof (total_nonneg _ O3) as N3.
  rewrite !total_app in T2.
  change (prologue :: l1 ++ F ++ l2) with ((prologue :: l1) ++ F ++ l2) in T3.
  apply blocks_app in T3 as [B1 B23]. apply blocks_app in B23 as [B2 B3].
  rewrite total_prologue in B2, B3.
  replace (lo + 16 + (16 + total l1)) with A in B2, B3 by (unfold A; lia).
  assert (CL : forall b, In b fl ->
     (lo + 32 <= b /\ b + 32 <= A) \/
     In b (free_addrs A F) \/ (A + total F <= b)).
  { intros b Hb. apply IN in Hb. rewrite !free_addrs_app in Hb.
    apply in_app_or in Hb as [Hb|Hb].
    - left. apply free_addrs_bounds in Hb; auto; unfold A; lia.
    - apply in_app_or in Hb as [Hb|Hb]; [right; left; exact Hb|].
      right; right. apply free_addrs_bounds in Hb; auto; fold A in Hb; lia. }
  split; [exact AR'|]. split; [|split; [|split; [exact ND|]]].
  - unfold tags. rewrite C2, C3. fold lo.
    split; [|split; [|split]].
    + apply Forall_app; split; auto. apply Forall_app; split; auto.
    + rewrite !total_app. lia.
    + change (prologue :: l1 ++ F' ++ l2) with ((prologue :: l1) ++ F' ++ l2).
      apply blocks_app. split; [|apply blocks_app; split].
      * apply (blocks_ext (mem s)); auto.
        -- intros x Hx. apply FR. rewrite total_prologue in Hx. unfold A. lia.
        -- constructor; auto. apply okb_prologue.
      * rewrite total_prologue.
        replace (lo + 16 + (16 + total l1)) with A by (unfold A; lia).
        exact BF'.
      * rewrite total_prologue.
        replace (lo + 16 + (16 + total l1) + total F') with (A + total F)
          by (unfold A; lia).
        apply (blocks_ext (mem s)); auto.
        intros x Hx. apply FR. fold A. lia.
    + rewrite <- T4. apply load_ext. intros x Hx. apply FR. fold A. lia.
  - rewrite C2. fold lo. apply (dll_frame (mem s)); auto.
    + intros x Hx. unfold cell in Hx. simpl in Hx. apply FR. fold A. lia.
    + intros b x Hb Hx. destruct (CL b Hb) as [H|[H|H]].
      * apply FR. fold A. lia.
      * now apply (HF b Hb H).
      * apply FR. fold A. lia.
  - intros b Hb. rewrite C2. fold lo. rewrite !free_addrs_app.
    pose proof (IN b Hb) as Hb'. rewrite !free_addrs_app in Hb'.
    apply in_app_or in Hb' as [Hb'|Hb'].
    + apply in_or_app. now left.
    + apply in_or_app. right. apply in_or_app.
      apply in_app_or in Hb' as [Hb'|Hb'].
      * left. fold A. now apply (HF b Hb).
      * right. fold A. fold A in Hb'. now rewrite TF'.
Qed.

Lemma tags_cur s (upre : list block) sz a (post : list block) :
  tags s (upre ++ (sz, a) :: post) -> 0 < mem_heap s ->
  load (mem s) (mem_heap s + 32 + total upre - 8) = tag sz a /\
  load (mem s) (mem_heap s + 32 + total upre + sz - 16) = tag sz a /\
  32 <= sz /\ sz mod 16 = 0 /\ 0 <= total upre /\ 0 <= total post /\
  mem_brk s = mem_heap s + 32 + total upre + sz + total post.
Proof.
  intros (T1 & T2 & T3 & T4) Hpos.
  change (prologue :: upre ++ (sz, a) :: post)
    with ((prologue :: upre) ++ (sz, a) :: post) in T3.
  apply blocks_app in T3 as [_ B]. rewrite total_prologue in B.
  cbn [blocks] in B. destruct B as (B1 & B2 & _).
  apply Forall_app in T1 as [G1 G2].
  apply Forall_cons_iff in G2 as [[G2 G2'] G3]. cbn [fst] in G2, G2'.
  pose proof (total_nonneg _ (Forall_good_okb _ G1)).
  pose proof (total_nonneg _ (Forall_good_okb _ G3)).
  rewrite total_app in T2. cbn [total] in T2.
  repeat split; auto; try lia.
  - rewrite <- B1. f_equal. lia.
  - rewrite <- B2. f_equal. lia.
Qed.

Lemma tags_prev s (upre : list block) sz a (post : list block) :
  tags s (upre ++ (sz, a) :: post) -> 0 < mem_heap s ->
  exists ps pa, last upre prologue = (ps, pa) /\
    load (mem s) (mem_heap s + 32 + total upre - 16) = tag ps pa /\
    load (mem s) (mem_heap s + 32 + total upre - ps - 8) = tag ps pa /\
    16 <= ps /\ ps mod 16 = 0 /\
    mem_heap s + 16 <= mem_heap s + 32 + total upre - ps /\
    (pa = false -> 32 <= ps /\ upre = removelast upre ++ [(ps, false)]).
Proof.
  intros (T1 & T2 & T3 & T4) Hpos.
  pose proof (okb_all _ T1) as FO.
  destruct (last_split upre) as (pre0 & E0 & Efree).
  destruct (last upre prologue) as [ps pa] eqn:EL. cbn [snd] in Efree.
  exists ps, pa. split; [reflexivity|].
  assert (ET : 16 + total upre = total pre0 + ps).
  { apply (f_equal total) in E0. rewrite total_app in E0.
    unfold prologue in E0. cbn [total] in E0. lia. }
  change (prologue :: upre ++ (sz, a) :: post)
    with ((prologue :: upre) ++ (sz, a) :: post) in T3, FO.
  rewrite E0, <- app_assoc in T3, FO.
  apply blocks_app in T3 as [_ B]. cbn [app blocks] in B.
  destruct B as (B1 & B2 & _).
  apply Forall_app in FO as [FO1 FO2]. cbn [app] in FO2.
  apply Forall_cons_iff in FO2 as [(O1 & O2 & O3) _]. cbn [fst snd] in O1, O2, O3.
  pose proof (total_nonneg _ FO1).
  repeat split; auto; try lia.
  - rewrite <- B2. f_equal. lia.
  - rewrite <- B1. f_equal. lia.
  - subst pa. apply Efree. reflexivity.
Qed.

Lemma tags_next s (upre : list block) sz a (post : list block) :
  tags s (upre ++ (sz, a) :: post) -> 0 < mem_heap s ->
  exists ns na,
    load (mem s) (mem_heap s + 32 + total upre + sz - 8) = tag ns na /\
    0 <= ns /\ ns mod 16 = 0 /\
    mem_heap s + 32 + total upre + sz + ns <= mem_brk s /\
    (na = false -> 32 <= ns /\ exists post', post = (ns, false) :: post' /\
       load (mem s) (mem_heap s + 32 + total upre + sz + ns - 16) = tag ns false) /\
    (na = true -> next_free post = None).
Proof.
  intros T Hpos. pose proof (tags_cur _ _ _ _ _ T Hpos) as (_ & _ & _ & _ & N1 & N2 & Eb).
  destruct T as (T1 & T2 & T3 & T4).
  change (prologue :: upre ++ (sz, a) :: post)
    with ((prologue :: upre) ++ (sz, a) :: post) in T3.
  apply blocks_app in T3 as [_ B]. rewrite total_prologue in B.
  cbn [blocks] in B. destruct B as (_ & _ & B).
  apply Forall_app in T1 as [_ G2].
  apply Forall_cons_iff in G2 as [_ G3].
  destruct post as [|[ns na] post'].
  - exists 0, true. cbn [total] in Eb.
    replace (mem_heap s + 32 + total upre + sz - 8) with (mem_brk s - 8) by lia.
    repeat split; auto; try lia; discriminate.
  - cbn [blocks] in B. destruct B as (B1 & B2 & _).
    apply Forall_cons_iff in G3 as [[G3 G3'] G4]. cbn [fst] in G3, G3'.
    pose proof (total_nonneg _ (Forall_good_okb _ G4)).
    cbn [total] in Eb. exists ns, na.
    split; [rewrite <- B1; f_equal; lia|].
    repeat split; try lia.
    + subst na. exists post'. split; [reflexivity|].
      rewrite <- B2. f_equal. lia.
    + intros ->. reflexivity.
Qed.

Lemma pay_free_run k (F : list block) : forall A a,
  Forall (fun b => snd b = negb k) F -> ~ pay k A F a.
Proof.
  induction F as [|[sz al] F IH]; intros A a H; cbn [pay]; [tauto|].
  apply Forall_cons_iff in H as [H1 H2]. cbn [snd] in H1.
  intros [[E _]|P]; [subst; destruct k; discriminate|].
  now apply (IH _ _ H2) in P.
Qed.

(** Allocated payload lies outside a run of free blocks. *)
Lemma pay_true_outside lo (l1 F l2 : list block) a :
  Forall good (l1 ++ F ++ l2) -> Forall (fun b => snd b = false) F ->
  pay true (lo + 16) (prologue :: l1 ++ F ++ l2) a ->
  a < lo + 32 + total l1 - 16 \/ lo + 32 + total l1 + total F <= a.
Proof.
  intros G HF P.
  apply Forall_app in G as [G1 G23]. apply Forall_app in G23 as [G2 G3].
  change (prologue :: l1 ++ F ++ l2) with ((prologue :: l1) ++ F ++ l2) in P.
  apply pay_app in P as [P|P].
  - apply pay_bounds in P; [|apply okb_all; auto].
    rewrite total_prologue in P. lia.
  - rewrite total_prologue in P. apply pay_app in P as [P|P].
    + exfalso. eapply (pay_free_run true); eauto.
    + apply pay_bounds in P; [|apply Forall_good_okb; auto]. lia.
Qed.

Lemma total_mod16 (F : list block) : Forall good F -> total F mod 16 = 0.
Proof.
  induction 1 as [|[sz a] F [_ H] _ IH]; [reflexivity|].
  cbn [total fst] in *. rewrite Z.add_mod, H, IH by lia. reflexivity.
Qed.

(** Two stores that merge a run [F] of free blocks into one. *)
Lemma merge_run s (l1 F l2 : list block) fl :
  pre_wf s (l1 ++ F ++ l2) fl -> F <> [] ->
  Forall (fun b => snd b = false) F ->
  (forall b, In b fl -> In b (free_addrs (mem_heap s + 32 + total l1) F) ->
             b = mem_heap s + 32 + total l1) ->
  let A := mem_heap s + 32 + total l1 in
  let T := total F in
  let m4 := store (store (mem s) (A - 8) T) (A + T - 16) T in
  pre_wf (set_mem s m4) (l1 ++ [(T, false)] ++ l2) fl /\
  (forall a, pay true (mem_heap s + 16) (prologue :: l1 ++ F ++ l2) a ->
             m4 a = mem s a).
Proof.
  intros PW NE FF HA A T m4.
  pose proof PW as (AR & TG & _).
  destruct AR as [A1 A2 A3 A4 A5].
  destruct TG as (T1 & T2 & _).
  pose proof T1 as G. apply Forall_app in G as [G1 G23].
  apply Forall_app in G23 as [G2 G3].
  pose proof (total_nonneg _ (Forall_good_okb _ G1)) as N1.
  pose proof (total_nonneg _ (Forall_good_okb _ G3)) as N3.
  rewrite !total_app in T2. fold T in T2.
  assert (T32 : 32 <= T).
  { unfold T. destruct F as [|[sz a] F]; [congruence|].
    apply Forall_cons_iff in G2 as [[H _] G2]. cbn [fst] in H.
    pose proof (total_nonneg _ (Forall_good_okb _ G2)). cbn [total]. lia. }
  assert (T16 : T mod 16 = 0) by (apply total_mod16; auto).
  split.
  - apply (retag s (set_mem s m4) l1 F [(T, false)] l2 fl); auto.
    + apply same_ctl_set_mem.
    + constructor; [split; auto|constructor].
    + cbn [total]. fold T. lia.
    + intros a Ha. cbn [mem set_mem]. unfold m4. fold A in Ha. fold T in Ha.
      rewrite !store_other by lia. reflexivity.
    + cbn [blocks mem set_mem]. fold A. rewrite tag_free. unfold m4.
      split; [|split; [|exact I]].
      * rewrite load_store_other by lia. apply load_store_same. lia.
      * apply load_store_same. lia.
    + intros b Hb HbF. rewrite (HA b Hb HbF). fold A. split.
      * cbn [free_addrs app]. now left.
      * intros x Hx. cbn [mem set_mem]. unfold m4.
        rewrite !store_other by lia. reflexivity.
  - intros a P. apply pay_true_outside in P; auto. fold A T in P.
    unfold m4. rewrite !store_other by lia. reflexivity.
Qed.

Lemma PACK_free sz : PACK sz 0 = sz.
Proof. unfold PACK. apply Z.lor_0_r. Qed.

Lemma size_bits_mult sz : sz mod 16 = 0 -> size_bits sz = sz.
Proof. intros H. rewrite <- (tag_free sz) at 1. now apply size_bits_tag. Qed.

Lemma set_mem_set_mem s m m' : set_mem (set_mem s m) m' = set_mem s m'.
Proof. reflexivity. Qed.

Lemma same_ctl_sym s s' : same_ctl s s' -> same_ctl s' s.
Proof. unfold same_ctl. intuition congruence. Qed.

Lemma coalesce_spec s (upre : list block) sz (post : list block) fl :
  wf s (upre ++ (sz, false) :: post) fl ->
  wp (coalesce (mem_heap s + 32 + total upre))
     (fun r s' =>
        same_ctl s s' /\
        let '(upre', sz', post') := coalesced upre sz post in
        r = mem_heap s + 32 + total upre' /\
        wf s' (upre' ++ (sz', false) :: post')
           (coalesced_list (mem_heap s + 32 + total upre) upre sz post fl) /\
        (forall a, pay true (mem_heap s + 16)
                       (prologue :: upre ++ (sz, false) :: post) a ->
                   mem s' a = mem s a)) s.
Proof.
  intros WF. pose proof (wf_pre_wf _ _ _ WF) as PW.
  destruct WF as (AR & TG & (FL1 & FL2 & FL3)).
  pose proof AR as [A1 A2 A3 A4 A5].
  pose proof TG as (TG1 & _).
  pose proof (Forall_good_okb _ TG1) as FO.
  destruct (tags_cur _ _ _ _ _ TG A1) as (C1 & C2 & C3 & C4 & N1 & N2 & Eb).
  destruct (tags_prev _ _ _ _ _ TG A1)
    as (ps & pa & EL & P2 & P1 & Op1 & Op2 & Op4 & Pf).
  destruct (tags_next _ _ _ _ _ TG A1)
    as (ns & na & NX1 & NX2 & NX3 & NX4 & NXf & NXa).
  set (lo := mem_heap s) in *. set (bp := lo + 32 + total upre) in *.
  assert (Hbp : In bp fl).
  { apply FL3. rewrite free_addrs_app. apply in_or_app. right.
    cbn [free_addrs app]. now left. }
  unfold coalesce.
  destruct (Z.eqb_spec bp NULL) as [E|_]; [unfold NULL in E; lia|].
  assert (Hhdr : forall z, 8 <= z < 2 ^ 64 -> HDRP z = z - 8).
  { intros z Hz. unfold HDRP, PSUB, WSIZE. apply wrap_small. lia. }
  unfold FTRP, NEXT_BLKP, PREV_BLKP.
  (* footp *)
  apply wp_bind, wp_bind.
  rewrite !Hhdr by lia.
  apply wp_GET_SIZE; [unfold valid; fold lo; lia|].
  rewrite C1, size_bits_tag by auto.
  apply wp_ret.
  (* prev *)
  apply wp_bind, wp_bind. norm_ptr.
  apply wp_GET_SIZE; [unfold valid; fold lo; lia|].
  rewrite P2, size_bits_tag by auto.
  apply wp_ret.
  (* next *)
  apply wp_bind, wp_bind. norm_ptr.
  apply wp_GET_SIZE; [unfold valid; fold lo; lia|].
  rewrite C1, size_bits_tag by auto.
  apply wp_ret.
  (* next_footp *)
  apply wp_bind, wp_bind. norm_ptr.
  apply wp_GET_SIZE; [unfold valid; fold lo; lia|].
  rewrite NX1, size_bits_tag by auto.
  apply wp_ret. norm_ptr.
  (* alloc bits *)
  apply wp_bind, wp_GET_ALLOC; [unfold valid; fold lo; lia|].
  rewrite P1, alloc_bit_tag by auto.
  apply wp_bind, wp_bind.
  apply wp_GET_SIZE; [unfold valid; fold lo; lia|].
  rewrite C1, size_bits_tag by auto.
  apply wp_ret. norm_ptr.
  apply wp_bind, wp_GET_ALLOC; [unfold valid; fold lo; lia|].
  rewrite NX1, alloc_bit_tag by auto.
  unfold coalesced, coalesced_list, prev_free. rewrite EL.
  replace (bp + (sz - 16)) with (bp + sz - 16) by lia.
  replace (bp + sz + (ns - 16)) with (bp + sz + ns - 16) by lia.
  destruct na, pa; cbn [Z.b2z Z.eqb andb].
  - (* both neighbours allocated *)
    rewrite (NXa eq_refl). apply wp_ret.
    split; [apply same_ctl_refl|]. split; [reflexivity|].
    split; [|reflexivity].
    exact (conj AR (conj TG (conj FL1 (conj FL2 FL3)))).
  - (* only the predecessor is free *)
    rewrite (NXa eq_refl).
    destruct (Pf eq_refl) as (Ops & Eup).
    set (upre' := removelast upre) in *.
    assert (Tup : total upre = total upre' + ps).
    { rewrite Eup, total_app. cbn [total]. lia. }
    assert (EU : upre ++ (sz, false) :: post =
                 upre' ++ [(ps, false); (sz, false)] ++ post).
    { rewrite Eup at 1. rewrite <- app_assoc. reflexivity. }
    pose proof (total_nonneg _ (Forall_good_okb _ (proj1 (proj1 (Forall_app _ _ _)
      (eq_ind _ (Forall good) TG1 _ EU))))) as Nup.
    apply wp_bind. eapply wp_mono; [apply (remove_node_pre s _ fl bp PW Hbp)|].
    cbv beta. intros _ s2 (SC2 & PW2 & LC2).
    pose proof SC2 as (K1 & K2 & K3 & K4).
    pose proof PW2 as (_ & TG2 & _).
    destruct (tags_cur _ _ _ _ _ TG2 ltac:(lia)) as (C1' & _).
    destruct (tags_prev _ _ _ _ _ TG2 ltac:(lia))
      as (ps' & pa' & EL' & P2' & P1' & _).
    rewrite EL in EL'. injection EL' as <- <-.
    rewrite K2 in C1', P2', P1'. fold lo bp in C1', P2', P1'.
    apply wp_bind, wp_GET_SIZE; [unfold valid; rewrite K2, K3; fold lo; lia|].
    rewrite P1', size_bits_tag by auto.
    apply wp_bind, wp_GET_SIZE; [unfold valid; rewrite K2, K3; fold lo; lia|].
    rewrite C1', size_bits_tag by auto.
    norm_ptr. rewrite PACK_free.
    apply wp_bind, wp_PUT; [unfold valid; rewrite K2, K3; fold lo; lia|].
    apply wp_bind, wp_GET_SIZE; [unfold valid; cbn [mem_heap mem_brk set_mem]; rewrite K2, K3; fold lo; lia|].
    cbn [mem set_mem]. rewrite load_store_same by lia.
    rewrite size_bits_mult by (rewrite Z.add_mod, Op2, C4 by lia; reflexivity).
    rewrite PACK_free.
    apply wp_bind, wp_PUT; [unfold valid; cbn [mem_heap mem_brk set_mem]; rewrite K2, K3; fold lo; lia|].
    cbn [mem set_mem]. rewrite set_mem_set_mem.
    apply wp_bind, wp_GET_SIZE; [unfold valid; cbn [mem_heap mem_brk set_mem]; rewrite K2, K3; fold lo; lia|].
    cbn [mem set_mem]. rewrite !load_store_other by lia.
    rewrite P2', size_bits_tag by auto.
    apply wp_ret. norm_ptr.
    rewrite EU in PW2.
    destruct (merge_run s2 upre' [(ps, false); (sz, false)] post _ PW2)
      as [PW4 FR4].
    { discriminate. }
    { repeat constructor. }
    { rewrite K2. fold lo. intros b Hb HF. apply in_remove in Hb as [Hb Nb].
      cbn [free_addrs app] in HF. destruct HF as [<-|[HF|[]]]; [reflexivity|].
      exfalso. apply Nb. rewrite <- HF. unfold bp. lia. }
    cbn [total] in PW4, FR4. rewrite K2 in PW4, FR4. fold lo in PW4, FR4.
    replace (lo + 32 + total upre' - 8) with (bp - ps - 8) in PW4, FR4 by (unfold bp; lia).
    replace (lo + 32 + total upre' + (ps + (sz + 0)) - 16) with (bp + sz - 16)
      in PW4, FR4 by (unfold bp; lia).
    replace (ps + (sz + 0)) with (ps + sz) in PW4, FR4 by lia.
    split; [eapply same_ctl_trans; [exact SC2|apply same_ctl_set_mem]|].
    split; [unfold bp; lia|]. split.
    + apply pre_wf_wf; [exact PW4|].
      cbn [mem_heap set_mem]. rewrite K2. fold lo.
      intros b Hb. 
      assert (Hb' : In b (free_addrs (lo + 32) (upre ++ (sz, false) :: post)) /\ b <> bp).
      { rewrite EU. rewrite !free_addrs_app in Hb |- *.
        apply in_app_or in Hb as [Hb|Hb].
        - split; [apply in_or_app; now left|].
          apply free_addrs_bounds in Hb; [|apply Forall_good_okb;
            exact (proj1 (proj1 (Forall_app _ _ _) (eq_ind _ (Forall good) TG1 _ EU)))].
          unfold bp. lia.
        - cbn [free_addrs app total] in Hb |- *. destruct Hb as [<-|Hb].
          + split; [apply in_or_app; right; now left|]. unfold bp. lia.
          + split; [apply in_or_app; right; right; right|].
            * now replace (lo + 32 + total upre' + ps + sz)
                with (lo + 32 + total upre' + (ps + sz)) by lia.
            * apply free_addrs_bounds in Hb; [|now apply Forall_good_okb;
                apply Forall_app in TG1 as [_ TG1];
                apply Forall_cons_iff in TG1 as [_ TG1]].
              unfold bp. lia. }
      apply in_in_remove; [tauto|]. apply FL3. tauto.
    + intros a Pa. cbn [mem set_mem]. rewrite EU in Pa.
      rewrite (FR4 a Pa). rewrite <- EU in Pa.
      apply (link_change_pay _ _ _ _ _ _ LC2); auto; [|lia].
      apply okb_all; auto.
  - (* only the successor is free *)
    destruct (NXf eq_refl) as (Ons & post' & -> & NX5).
    cbn [next_free tl].
    assert (HN : In (bp + sz) fl).
    { apply FL3. rewrite free_addrs_app. apply in_or_app. right.
      cbn [free_addrs app]. right. left. reflexivity. }
    apply Forall_app in TG1 as [G1 G2].
    apply Forall_cons_iff in G2 as [_ G2]. apply Forall_cons_iff in G2 as [_ G3].
    pose proof (total_nonneg _ (Forall_good_okb _ G3)) as Npost.
    cbn [total] in Eb.
    apply wp_bind, wp_bind.
    apply wp_GET_SIZE; [unfold valid; fold lo; lia|].
    rewrite C1, size_bits_tag by auto.
    apply wp_ret. norm_ptr.
    apply wp_bind. eapply wp_mono; [apply (remove_node_pre s _ fl _ PW HN)|].
    cbv beta. intros _ s2 (SC2 & PW2 & LC2).
    pose proof SC2 as (K1 & K2 & K3 & K4).
    pose proof PW2 as (_ & TG2 & _).
    destruct (tags_cur _ _ _ _ _ TG2 ltac:(lia)) as (C1' & _).
    destruct (tags_next _ _ _ _ _ TG2 ltac:(lia))
      as (ns' & na' & NX1' & _ & _ & _ & NXf' & NXa').
    destruct na'; [specialize (NXa' eq_refl); discriminate|].
    destruct (NXf' eq_refl) as (_ & post'' & Epost & NX5').
    injection Epost as <- <-.
    rewrite K2 in C1', NX5'. fold lo bp in C1', NX5'.
    apply wp_bind, wp_GET_SIZE; [unfold valid; rewrite K2, K3; fold lo; lia|].
    rewrite C1', size_bits_tag by auto.
    apply wp_bind, wp_GET_SIZE; [unfold valid; rewrite K2, K3; fold lo; lia|].
    rewrite NX5', size_bits_tag by auto.
    norm_ptr. rewrite PACK_free.
    apply wp_bind, wp_PUT; [unfold valid; rewrite K2, K3; fold lo; lia|].
    apply wp_bind, wp_GET_SIZE; [unfold valid; cbn [mem_heap mem_brk set_mem]; rewrite K2, K3; fold lo; lia|].
    cbn [mem set_mem]. rewrite load_store_same by lia.
    rewrite size_bits_mult by (rewrite Z.add_mod, NX3, C4 by lia; reflexivity).
    rewrite PACK_free.
    apply wp_bind, wp_PUT; [unfold valid; cbn [mem_heap mem_brk set_mem]; rewrite K2, K3; fold lo; lia|].
    cbn [mem set_mem]. rewrite set_mem_set_mem.
    apply wp_ret.
    change (upre ++ (sz, false) :: (ns, false) :: post')
      with (upre ++ [(sz, false); (ns, false)] ++ post') in PW2.
    destruct (merge_run s2 upre [(sz, false); (ns, false)] post' _ PW2)
      as [PW4 FR4].
    { discriminate. }
    { repeat constructor. }
    { rewrite K2. fold lo bp. intros b Hb HF. apply in_remove in Hb as [Hb Nb].
      cbn [free_addrs app] in HF. destruct HF as [<-|[HF|[]]]; [reflexivity|].
      exfalso. apply Nb. rewrite <- HF. reflexivity. }
    cbn [total] in PW4, FR4. rewrite K2 in PW4, FR4. fold lo bp in PW4, FR4.
    replace (bp + (sz + (ns + 0)) - 16) with (bp + sz + ns - 16)
      in PW4, FR4 by lia.
    replace (sz + (ns + 0)) with (sz + ns) in PW4, FR4 by lia.
    split; [eapply same_ctl_trans; [exact SC2|apply same_ctl_set_mem]|].
    split; [reflexivity|]. split.
    + apply pre_wf_wf; [exact PW4|].
      cbn [mem_heap set_mem]. rewrite K2. fold lo.
      intros b Hb.
      assert (Hb' : In b (free_addrs (lo + 32)
                     (upre ++ (sz, false) :: (ns, false) :: post')) /\
                    b <> bp + sz).
      { rewrite !free_addrs_app in Hb |- *. fold bp in Hb |- *.
        apply in_app_or in Hb as [Hb|Hb].
        - split; [apply in_or_app; now left|].
          apply free_addrs_bounds in Hb; [|now apply Forall_good_okb].
          unfold bp. lia.
        - cbn [free_addrs app total] in Hb |- *. destruct Hb as [<-|Hb].
          + split; [apply in_or_app; right; now left|]. lia.
          + split; [apply in_or_app; right; right; right|].
            * now replace (bp + sz + ns) with (bp + (sz + ns)) by lia.
            * apply free_addrs_bounds in Hb; [|now apply Forall_good_okb].
              lia. }
      apply in_in_remove; [tauto|]. apply FL3. tauto.
    + intros a Pa. cbn [mem set_mem].
      rewrite (FR4 a Pa).
      apply (link_change_pay _ _ _ _ _ _ LC2); auto; [|lia].
      apply okb_all. apply Forall_app. split; auto.
      destruct TG as (TG1' & _). apply Forall_app in TG1' as [_ TG1']. exact TG1'.
  - (* both neighbours are free *)
    destruct (NXf eq_refl) as (Ons & post' & -> & NX5).
    destruct (Pf eq_refl) as (Ops & Eup).
    cbn [next_free tl].
    set (upre' := removelast upre) in *.
    assert (Tup : total upre = total upre' + ps).
    { rewrite Eup, total_app. cbn [total]. lia. }
    assert (EU : upre ++ (sz, false) :: (ns, false) :: post' =
                 upre' ++ [(ps, false); (sz, false); (ns, false)] ++ post').
    { rewrite Eup at 1. rewrite <- app_assoc. reflexivity. }
    assert (HN : In (bp + sz) fl).
    { apply FL3. rewrite free_addrs_app. apply in_or_app. right.
      cbn [free_addrs app]. right. left. reflexivity. }
    pose proof TG1 as TG1'. rewrite EU in TG1'.
    apply Forall_app in TG1' as [G1 G2].
    apply Forall_app in G2 as [_ G3].
    pose proof (total_nonneg _ (Forall_good_okb _ G1)) as Nup.
    pose proof (total_nonneg _ (Forall_good_okb _ G3)) as Npost.
    cbn [total] in Eb.
    apply wp_bind, wp_bind.
    apply wp_GET_SIZE; [unfold valid; fold lo; lia|].
    rewrite C1, size_bits_tag by auto.
    apply wp_ret. norm_ptr.
    apply wp_bind. eapply wp_mono; [apply (remove_node_pre s _ fl _ PW HN)|].
    cbv beta. intros _ s1 (SC1 & PW1 & LC1).
    assert (Hbp1 : In bp (remove Z.eq_dec (bp + sz) fl)).
    { apply in_in_remove; [lia|exact Hbp]. }
    pose proof SC1 as (J1 & J2 & J3 & J4).
    apply wp_bind. eapply wp_mono; [apply (remove_node_pre s1 _ _ _ PW1 Hbp1)|].
    cbv beta. intros _ s2 (SC2 & PW2 & LC2).
    rewrite J2 in LC2.
    pose proof (link_change_trans _ _ _ _ _ _ LC1 LC2) as LC.
    pose proof (same_ctl_trans _ _ _ SC1 SC2) as SC.
    pose proof SC as (K1 & K2 & K3 & K4).
    pose proof PW2 as (_ & TG2 & _).
    destruct (tags_cur _ _ _ _ _ TG2 ltac:(lia)) as (C1' & _).
    destruct (tags_prev _ _ _ _ _ TG2 ltac:(lia))
      as (ps' & pa' & EL' & P2' & P1' & _).
    rewrite EL in EL'. injection EL' as <- <-.
    destruct (tags_next _ _ _ _ _ TG2 ltac:(lia))
      as (ns' & na' & NX1' & _ & _ & _ & NXf' & NXa').
    destruct na'; [specialize (NXa' eq_refl); discriminate|].
    destruct (NXf' eq_refl) as (_ & post'' & Epost & NX5').
    injection Epost as <- <-.
    rewrite K2 in C1', P2', P1', NX5'. fold lo bp in C1', P2', P1', NX5'.
    apply wp_bind, wp_GET_SIZE; [unfold valid; rewrite K2, K3; fold lo; lia|].
    rewrite P1', size_bits_tag by auto.
    apply wp_bind, wp_GET_SIZE; [unfold valid; rewrite K2, K3; fold lo; lia|].
    rewrite C1', size_bits_tag by auto.
    apply wp_bind, wp_GET_SIZE; [unfold valid; rewrite K2, K3; fold lo; lia|].
    rewrite NX5', size_bits_tag by auto.
    norm_ptr. rewrite PACK_free.
    apply wp_bind, wp_PUT; [unfold valid; rewrite K2, K3; fold lo; lia|].
    apply wp_bind, wp_GET_SIZE; [unfold valid; cbn [mem_heap mem_brk set_mem]; rewrite K2, K3; fold lo; lia|].
    cbn [mem set_mem]. rewrite load_store_same by lia.
    rewrite size_bits_mult
      by (rewrite Z.add_mod, (Z.add_mod ps sz), NX3, Op2, C4 by lia; reflexivity).
    rewrite PACK_free.
    apply wp_bind, wp_PUT; [unfold valid; cbn [mem_heap mem_brk set_mem]; rewrite K2, K3; fold lo; lia|].
    cbn [mem set_mem]. rewrite set_mem_set_mem.
    apply wp_bind, wp_GET_SIZE; [unfold valid; cbn [mem_heap mem_brk set_mem]; rewrite K2, K3; fold lo; lia|].
    cbn [mem set_mem]. rewrite !load_store_other by lia.
    rewrite P2', size_bits_tag by auto.
    apply wp_ret. norm_ptr.
    rewrite EU in PW2.
    destruct (merge_run s2 upre' [(ps, false); (sz, false); (ns, false)] post' _ PW2)
      as [PW4 FR4].
    { discriminate. }
    { repeat constructor. }
    { rewrite K2. fold lo. intros b Hb HF. apply in_remove in Hb as [Hb Nb].
      apply in_remove in Hb as [Hb Nb'].
      cbn [free_addrs app] in HF.
      destruct HF as [<-|[HF|[HF|[]]]]; [reflexivity| |]; exfalso.
      - apply Nb. rewrite <- HF. unfold bp. lia.
      - apply Nb'. rewrite <- HF. unfold bp. lia. }
    cbn [total] in PW4, FR4. rewrite K2 in PW4, FR4. fold lo in PW4, FR4.
    replace (lo + 32 + total upre' - 8) with (bp - ps - 8) in PW4, FR4
      by (unfold bp; lia).
    replace (lo + 32 + total upre' + (ps + (sz + (ns + 0))) - 16)
      with (bp + sz + ns - 16) in PW4, FR4 by (unfold bp; lia).
    replace (ps + (sz + (ns + 0))) with (ps + sz + ns) in PW4, FR4 by lia.
    split; [eapply same_ctl_trans; [exact SC|apply same_ctl_set_mem]|].
    split; [unfold bp; lia|]. split.
    + apply pre_wf_wf; [exact PW4|].
      cbn [mem_heap set_mem]. rewrite K2. fold lo.
      intros b Hb.
      assert (Hb' : In b (free_addrs (lo + 32)
                     (upre ++ (sz, false) :: (ns, false) :: post')) /\
                    b <> bp /\ b <> bp + sz).
      { rewrite EU. rewrite !free_addrs_app in Hb |- *.
        apply in_app_or in Hb as [Hb|Hb].
        - split; [apply in_or_app; now left|].
          apply free_addrs_bounds in Hb; [|now apply Forall_good_okb].
          unfold bp. lia.
        - cbn [free_addrs app total] in Hb |- *. destruct Hb as [<-|Hb].
          + split; [apply in_or_app; right; now left|]. unfold bp. lia.
          + split; [apply in_or_app; right; right; right; right|].
            * now replace (lo + 32 + total upre' + ps + sz + ns)
                with (lo + 32 + total upre' + (ps + sz + ns)) by lia.
            * apply free_addrs_bounds in Hb; [|now apply Forall_good_okb].
              unfold bp. lia. }
      apply in_in_remove; [tauto|]. apply in_in_remove; [tauto|].
      apply FL3. tauto.
    + intros a Pa. cbn [mem set_mem]. rewrite EU in Pa.
      rewrite (FR4 a Pa). rewrite <- EU in Pa.
      apply (link_change_pay _ _ _ _ _ _ LC); auto; [|lia].
      apply okb_all; auto.
Qed.

(** * Freeing, growing and placing *)

Lemma last_alloc_last l : last_alloc l = snd (last l prologue).
Proof.
  induction l as [|[sz a] r IH]; [reflexivity|].
  destruct r as [|b r]; [reflexivity|]. exact IH.
Qed.

Lemma naf_cons sz a (l : list block) :
  no_adj_free ((sz, a) :: l) = (a || hd_alloc l) && no_adj_free l.
Proof.
  destruct l as [|[s' a'] l']; cbn [no_adj_free hd_alloc].
  - now rewrite orb_true_r.
  - reflexivity.
Qed.

Lemma naf_app l1 : forall l2,
  no_adj_free (l1 ++ l2) =
  no_adj_free l1 && no_adj_free l2 && (last_alloc l1 || hd_alloc l2).
Proof.
  induction l1 as [|[sz a] r IH]; intros l2.
  - cbn [app no_adj_free last_alloc]. now rewrite orb_true_l, andb_true_r.
  - destruct r as [|[sz' a'] r'].
    + cbn [app last_alloc]. rewrite naf_cons. cbn [no_adj_free].
      rewrite andb_true_l. apply andb_comm.
    + specialize (IH l2). cbn [app] in IH |- *.
      rewrite (naf_cons sz a ((sz', a') :: r' ++ l2)), IH,
        (naf_cons sz a ((sz', a') :: r')).
      cbn [hd_alloc last_alloc]. now rewrite !andb_assoc.
Qed.

Lemma last_alloc_snoc l sz a : last_alloc (l ++ [(sz, a)]) = a.
Proof. rewrite last_alloc_last, last_last. reflexivity. Qed.

(** Coalescing a block whose surroundings have no adjacent free blocks
    leaves none. *)
Lemma coalesced_naf (upre : list block) sz (post : list block) :
  no_adj_free upre = true -> no_adj_free post = true ->
  let '(upre', sz', post') := coalesced upre sz post in
  no_adj_free (upre' ++ (sz', false) :: post') = true.
Proof.
  intros H1 H2.
  unfold coalesced, prev_free, next_free.
  assert (U : forall ps,
            last upre prologue = (ps, false) ->
            no_adj_free (removelast upre) = true /\
            last_alloc (removelast upre) = true).
  { intros ps EL. destruct (last_split upre) as (pre0 & E0 & Efree).
    rewrite EL in Efree. destruct (Efree eq_refl) as (_ & Eup).
    rewrite Eup, naf_app in H1.
    apply andb_prop in H1 as [H1 H1']. apply andb_prop in H1 as [H1 _].
    cbn [hd_alloc] in H1'. rewrite orb_false_r in H1'. auto. }
  assert (P : forall ns post', post = (ns, false) :: post' ->
            no_adj_free post' = true /\ hd_alloc post' = true).
  { intros ns post' ->. rewrite naf_cons in H2.
    apply andb_prop in H2 as [H2 H2']. auto. }
  assert (Q : forall l1 s' l2, no_adj_free l1 = true -> last_alloc l1 = true ->
              no_adj_free l2 = true -> hd_alloc l2 = true ->
              no_adj_free (l1 ++ (s', false) :: l2) = true).
  { intros l1 s' l2 Q1 Q2 Q3 Q4. rewrite naf_app, naf_cons, Q1, Q2, Q3, Q4.
    reflexivity. }
  assert (LA : snd (last upre prologue) = true -> last_alloc upre = true).
  { intros E. now rewrite last_alloc_last. }
  destruct (last upre prologue) as [ps pa] eqn:EL.
  destruct pa.
  - destruct post as [|[ns na] post'].
    + apply Q; auto.
    + destruct na.
      * apply Q; auto.
      * destruct (P ns post' eq_refl). cbn [tl]. apply Q; auto.
  - destruct (U ps eq_refl) as [U1 U2].
    destruct post as [|[ns na] post'].
    + apply Q; auto.
    + destruct na.
      * apply Q; auto.
      * destruct (P ns post' eq_refl). cbn [tl]. apply Q; auto.
Qed.

Lemma layout_app l1 : forall bp l2,
  layout bp (l1 ++ l2) = layout bp l1 ++ layout (bp + total l1) l2.
Proof.
  induction l1 as [|[sz a] l1 IH]; intros bp l2; cbn [app layout total].
  - now rewrite Z.add_0_r.
  - rewrite IH. now replace (bp + (sz + total l1)) with (bp + sz + total l1) by lia.
Qed.

Lemma layout_split bs : forall bp p sz a,
  In (p, sz, a) (layout bp bs) ->
  exists l1 l2, bs = l1 ++ (sz, a) :: l2 /\ p = bp + total l1.
Proof.
  induction bs as [|[sz0 a0] r IH]; intros bp p sz a H; cbn [layout] in H.
  - destruct H.
  - destruct H as [E|H].
    + injection E as <- <- <-. exists [], r. split; [reflexivity|].
      cbn [total]. lia.
    + apply IH in H as (l1 & l2 & -> & ->).
      exists ((sz0, a0) :: l1), l2. split; [reflexivity|]. cbn [total]. lia.
Qed.

Lemma layout_bounds bs : forall bp p sz a,
  Forall okb bs -> In (p, sz, a) (layout bp bs) ->
  bp <= p /\ p + sz <= bp + total bs.
Proof.
  intros bp p sz a F H. apply layout_split in H as (l1 & l2 & -> & ->).
  apply Forall_app in F as [F1 F2]. apply Forall_cons_iff in F2 as [_ F2].
  pose proof (total_nonneg _ F1). pose proof (total_nonneg _ F2).
  rewrite total_app. cbn [total]. lia.
Qed.

(** Distinct blocks of a layout do not overlap. *)
Lemma layout_disjoint bs : forall bp p sz a p' sz' a',
  Forall okb bs ->
  In (p, sz, a) (layout bp bs) -> In (p', sz', a') (layout bp bs) ->
  p = p' \/ p + sz <= p' \/ p' + sz' <= p.
Proof.
  induction bs as [|[sz0 a0] r IH]; intros bp p sz a p' sz' a' F H H';
    cbn [layout] in *; [destruct H|].
  apply Forall_cons_iff in F as [(O1 & _) F]. cbn [fst] in O1.
  destruct H as [E|H], H' as [E'|H'].
  - injection E as <- <- <-. injection E' as <- <- <-. now left.
  - injection E as <- <- <-. apply layout_bounds in H'; auto. lia.
  - injection E' as <- <- <-. apply layout_bounds in H; auto. lia.
  - eapply IH; eauto.
Qed.

Lemma layout_pay bs : forall bp p sz a x,
  In (p, sz, a) (layout bp bs) -> p <= x < p + sz - 16 -> pay a bp bs x.
Proof.
  induction bs as [|[sz0 a0] r IH]; intros bp p sz a x H Hx;
    cbn [layout pay] in *; [destruct H|].
  destruct H as [E|H].
  - injection E as <- <- <-. left. split; [reflexivity|lia].
  - right. eapply IH; eauto.
Qed.

Lemma PACK_alloc sz : sz mod 16 = 0 -> PACK sz 1 = tag sz true.
Proof. intros H. exact (PACK_tag sz true H). Qed.

Lemma coalesced_shape (upre : list block) sz (post : list block) :
  exists upre' sz' post', coalesced upre sz post = (upre', sz', post').
Proof.
  destruct (coalesced upre sz post) as [[u s'] p]. eauto.
Qed.

Lemma mm_free_spec s (upre : list block) sz (post : list block) fl :
  heap_ok s (upre ++ (sz, true) :: post) fl ->
  wp (mm_free (mem_heap s + 32 + total upre))
    (fun _ s' =>
       same_ctl s s' /\
       let '(upre', sz', post') := coalesced upre sz post in
       heap_ok s' (upre' ++ (sz', false) :: post')
         (coalesced_list (mem_heap s + 32 + total upre) upre sz post
            ((mem_heap s + 32 + total upre) :: fl)) /\
       (forall a, pay true (mem_heap s + 16)
                      (prologue :: upre ++ (sz, false) :: post) a ->
                  mem s' a = mem s a)) s.
Proof.
  intros (WF & NAF). pose proof (wf_pre_wf _ _ _ WF) as PW.
  destruct WF as (AR & TG & (FL1 & FL2 & FL3)).
  pose proof AR as [A1 A2 A3 A4 A5].
  pose proof TG as (TG1 & _).
  destruct (tags_cur _ _ _ _ _ TG A1) as (C1 & C2 & C3 & C4 & N1 & N2 & Eb).
  set (lo := mem_heap s) in *. set (bp := lo + 32 + total upre) in *.
  apply Forall_app in TG1 as [G1 G2]. apply Forall_cons_iff in G2 as [G2 G3].
  unfold mm_free, FTRP.
  apply wp_bind, wp_bind. norm_ptr.
  apply wp_GET_SIZE; [unfold valid; fold lo; lia|].
  rewrite C1, size_bits_tag by auto.
  apply wp_ret. norm_ptr.
  replace (bp + (sz - 16)) with (bp + sz - 16) by lia.
  apply wp_bind, wp_GET_SIZE; [unfold valid; fold lo; lia|].
  rewrite C1, size_bits_tag by auto. rewrite PACK_free.
  apply wp_bind, wp_PUT; [unfold valid; fold lo; lia|].
  apply wp_bind, wp_GET_SIZE; [unfold valid; cbn [mem_heap mem_brk set_mem]; fold lo; lia|].
  cbn [mem set_mem]. rewrite load_store_other by lia.
  rewrite C2, size_bits_tag by auto. rewrite PACK_free.
  apply wp_bind, wp_PUT; [unfold valid; cbn [mem_heap mem_brk set_mem]; fold lo; lia|].
  cbn [mem set_mem]. rewrite set_mem_set_mem.
  set (m2 := store (store (mem s) (bp - 8) sz) (bp + sz - 16) sz).
  change (upre ++ (sz, true) :: post) with (upre ++ [(sz, true)] ++ post) in PW.
  assert (PW2 : pre_wf (set_mem s m2) (upre ++ [(sz, false)] ++ post) fl).
  { apply (retag s (set_mem s m2) upre [(sz, true)] [(sz, false)] post fl).
    - exact PW.
    - apply same_ctl_set_mem.
    - constructor; [exact G2|constructor].
    - reflexivity.
    - fold lo bp. cbn [total mem set_mem]. intros a Ha. unfold m2.
      rewrite !store_other by lia. reflexivity.
    - fold lo bp. cbn [blocks mem set_mem]. rewrite tag_free. unfold m2.
      split; [|split; [|exact I]].
      + rewrite load_store_other by lia. apply load_store_same. lia.
      + apply load_store_same. lia.
    - intros b _ []. }
  assert (NI : ~ In bp fl).
  { intros H. apply FL3 in H. rewrite free_addrs_app in H.
    apply in_app_or in H as [H|H].
    - apply free_addrs_bounds in H; [|now apply Forall_good_okb].
      unfold bp in H. lia.
    - cbn [free_addrs app] in H. 
      apply free_addrs_bounds in H; [|now apply Forall_good_okb].
      fold bp in H. lia. }
  assert (HI : In bp (free_addrs (lo + 32) (upre ++ [(sz, false)] ++ post))).
  { rewrite free_addrs_app. apply in_or_app. right. now left. }
  apply wp_bind. eapply wp_mono;
    [apply (insert_node_pre (set_mem s m2) _ fl bp PW2 HI NI)|].
  cbv beta. intros _ s3 (SC3 & PW3 & LC3).
  cbn [mem_heap set_mem mem] in LC3. fold lo in LC3.
  assert (SC : same_ctl s s3).
  { eapply same_ctl_trans; [apply (same_ctl_set_mem s m2)|exact SC3]. }
  pose proof SC as (K1 & K2 & K3 & K4).
  assert (WF3 : wf s3 (upre ++ (sz, false) :: post) (bp :: fl)).
  { apply pre_wf_wf; [exact PW3|]. rewrite K2. fold lo.
    intros b Hb. rewrite free_addrs_app in Hb.
    apply in_app_or in Hb as [Hb|Hb].
    - right. apply FL3. rewrite free_addrs_app. apply in_or_app. now left.
    - cbn [free_addrs app] in Hb. fold bp in Hb. destruct Hb as [<-|Hb].
      + now left.
      + right. apply FL3. rewrite free_addrs_app. apply in_or_app. right.
        exact Hb. }
  apply wp_bind. eapply wp_mono.
  { pose proof (coalesce_spec s3 upre sz post (bp :: fl) WF3) as H.
    rewrite K2 in H. exact H. }
  cbv beta. intros r s4 (SC4 & H4).
  apply wp_ret. split; [eapply same_ctl_trans; eauto|].
  assert (NAF' : let '(upre', sz', post') := coalesced upre sz post in
                 no_adj_free (upre' ++ (sz', false) :: post') = true).
  { rewrite naf_app, naf_cons in NAF.
    apply andb_prop in NAF as [NAF _]. apply andb_prop in NAF as [NF1 NF2].
    apply andb_prop in NF2 as [_ NF2]. now apply coalesced_naf. }
  destruct (coalesced upre sz post) as [[upre' sz'] post'].
  destruct H4 as (_ & WF4 & FR4).
  split; [split; [exact WF4|exact NAF']|].
  intros a Pa. fold lo in FR4. rewrite (FR4 a Pa).
  rewrite (link_change_pay _ _ _ _ _ a LC3); auto.
  - cbn [mem set_mem]. unfold m2.
    apply (pay_true_outside lo upre [(sz, false)] post) in Pa.
    + cbn [total] in Pa. fold bp in Pa. rewrite !store_other by lia.
      reflexivity.
    + apply Forall_app. split; [exact G1|]. constructor; [exact G2|exact G3].
    + repeat constructor.
  - apply okb_all. apply Forall_app. split; [exact G1|].
    constructor; [exact G2|exact G3].
  - lia.
Qed.

Lemma even_bytes_mod16 words : 0 <= words -> even_bytes words mod 16 = 0.
Proof.
  intros H. unfold even_bytes.
  pose proof (Z.mod_pos_bound words 2 ltac:(lia)).
  pose proof (Z.div_mod words 2 ltac:(lia)) as D.
  destruct (Z.eqb_spec (words mod 2) 1) as [E|E].
  - replace (words * 8 + 8) with (0 + (words / 2 + 1) * 16) by lia.
    now rewrite Z.mod_add by lia.
  - replace (words * 8) with (0 + (words / 2) * 16) by lia.
    now rewrite Z.mod_add by lia.
Qed.

Lemma extend_heap_spec s ubs fl words :
  heap_ok s ubs fl -> 3 <= words -> words * 8 + 8 < 2 ^ 64 ->
  wp (extend_heap words)
    (fun r s' =>
       if mem_brk s + even_bytes words <=? mem_max_addr s then
         grown s s' (even_bytes words) /\
         let '(upre', sz', post') := coalesced ubs (even_bytes words) [] in
         r = mem_heap s + 32 + total upre' /\
         heap_ok s' (upre' ++ (sz', false) :: post')
           (coalesced_list (mem_brk s) ubs (even_bytes words) []
              (mem_brk s :: fl)) /\
         (forall a, pay true (mem_heap s + 16) (prologue :: ubs) a ->
                    mem s' a = mem s a)
       else r = NULL /\ s' = s) s.
Proof.
  intros (WF & NAF) Hw Hw'. pose proof (wf_pre_wf _ _ _ WF) as PW.
  destruct WF as (AR & TG & (FL1 & FL2 & FL3)).
  pose proof AR as [A1 A2 A3 A4 A5].
  pose proof TG as (TG1 & TG2 & TG3 & TG4).
  pose proof (okb_all _ TG1) as FO.
  pose proof (total_nonneg _ (Forall_good_okb _ TG1)) as TN.
  set (lo := mem_heap s) in *. set (bp := mem_brk s) in *.
  pose proof (even_bytes_mod16 words ltac:(lia)) as S16.
  assert (S32 : 24 <= even_bytes words < 2 ^ 64 /\ 32 <= even_bytes words).
  { assert (24 <= even_bytes words < 2 ^ 64).
    { unfold even_bytes. destruct (words mod 2 =? 1); lia. }
    split; [exact H|].
    pose proof (Z.div_mod (even_bytes words) 16 ltac:(lia)) as D.
    rewrite S16 in D. lia. }
  destruct S32 as [S24 S32].
  unfold extend_heap.
  assert (ES : (if words mod 2 =? 1
                then wrap (wrap (words * WSIZE) + WSIZE)
                else wrap (words * WSIZE)) = even_bytes words).
  { unfold even_bytes, WSIZE. destruct (words mod 2 =? 1).
    - rewrite (wrap_small (words * 8)) by lia. apply wrap_small. lia.
    - apply wrap_small. lia. }
  rewrite ES. set (size := even_bytes words) in *.
  apply wp_bind. unfold wp at 1, mem_sbrk. fold bp.
  destruct (Z.leb_spec (bp + size) (mem_max_addr s)) as [Hfit|Hfit].
  2:{ replace (2 ^ 63 <=? wrap (-1)) with true by reflexivity.
      apply wp_ret. auto. }
  destruct (Z.leb_spec (2 ^ 63) bp) as [Hbig|_]; [lia|].
  set (s1 := set_brk s (bp + size)).
  assert (V1 : forall p, lo <= p -> p + 8 <= bp + size -> valid s1 p).
  { intros p H1 H2. unfold valid. cbn [mem_heap mem_brk s1 set_brk]. fold lo. lia. }
  norm_ptr.
  apply wp_bind, wp_PUT; [apply V1; lia|]. rewrite PACK_free.
  unfold FTRP, NEXT_BLKP. norm_ptr.
  apply wp_bind, wp_bind.
  apply wp_GET_SIZE; [apply V1; cbn [mem_heap set_mem]; lia|].
  cbn [mem set_mem s1 set_brk]. rewrite load_store_same by lia.
  rewrite size_bits_mult by auto. apply wp_ret. norm_ptr.
  apply wp_bind, wp_PUT; [apply V1; lia|].
  cbn [mem set_mem s1 set_brk].
  apply wp_bind, wp_bind.
  apply wp_GET_SIZE; [apply V1; lia|].
  cbn [mem set_mem s1 set_brk]. rewrite load_store_other by lia.
  rewrite load_store_same by lia.
  rewrite size_bits_mult by auto. apply wp_ret. norm_ptr.
  apply wp_bind, wp_PUT; [apply V1; lia|].
  cbn [mem set_mem s1 set_brk].
  replace (PACK 0 1) with 1 by reflexivity.
  replace (bp + (size - 16)) with (bp + size - 16) by lia.
  set (m4 := store (store (store (mem s) (bp - 8) size) (bp + size - 16) size)
                   (bp + size - 8) 1).
  set (s4 := set_mem (set_mem (set_mem s1 _) _) m4).
  assert (G4 : grown s s4 size) by (repeat split).
  assert (FR4 : forall a, a < bp - 8 -> m4 a = mem s a).
  { intros a Ha. unfold m4. rewrite !store_other by lia. reflexivity. }
  assert (PW4 : pre_wf s4 (ubs ++ [(size, false)]) fl).
  { split; [constructor; cbn [mem_heap heap_start mem_brk mem_max_addr s4 s1 set_mem set_brk]; auto; lia|].
    split; [|split; [|split; [exact FL2|]]].
    - unfold tags. cbn [mem_heap heap_start mem_brk mem_max_addr mem s4 s1 set_mem set_brk].
      fold lo bp. split; [|split; [|split]].
      + apply Forall_app. split; [exact TG1|]. constructor; [split; auto|constructor].
      + rewrite total_app. cbn [total]. lia.
      + change (prologue :: ubs ++ [(size, false)])
          with ((prologue :: ubs) ++ [(size, false)]).
        apply blocks_app. split.
        * apply (blocks_ext (mem s)); auto.
          intros x Hx. apply FR4. rewrite total_prologue in Hx. lia.
        * rewrite total_prologue.
          replace (lo + 16 + (16 + total ubs)) with bp by lia.
          cbn [blocks]. rewrite tag_free. unfold m4.
          split; [|split; [|exact I]].
          -- rewrite !load_store_other by lia. apply load_store_same. lia.
          -- rewrite load_store_other by lia. apply load_store_same. lia.
      + unfold m4. apply load_store_same. lia.
    - cbn [mem_heap mem s4 s1 set_mem set_brk]. fold lo.
      apply (dll_frame (mem s)); auto.
      + intros x Hx. unfold cell in Hx. cbn [Z.eqb] in Hx. apply FR4. lia.
      + intros b x Hb Hx. apply FL3 in Hb.
        apply free_addrs_bounds in Hb; [|now apply Forall_good_okb].
        apply FR4. lia.
    - cbn [mem_heap mem s4 s1 set_mem set_brk]. fold lo.
      intros b Hb. rewrite free_addrs_app. apply in_or_app. left.
      now apply FL3. }
  assert (NI : ~ In bp fl).
  { intros H. apply FL3 in H.
    apply free_addrs_bounds in H; [|now apply Forall_good_okb]. lia. }
  assert (HI : In bp (free_addrs (mem_heap s4 + 32) (ubs ++ [(size, false)]))).
  { rewrite free_addrs_app. apply in_or_app. right.
    cbn [free_addrs app mem_heap s4 s1 set_mem set_brk]. fold lo. left. lia. }
  apply wp_bind. eapply wp_mono;
    [apply (insert_node_pre s4 _ fl bp PW4 HI NI)|].
  cbv beta. intros _ s5 (SC5 & PW5 & LC5).
  cbn [mem_heap mem s4 s1 set_mem set_brk] in LC5. fold lo in LC5.
  pose proof SC5 as (K1 & K2 & K3 & K4).
  cbn [mem_heap heap_start mem_brk mem_max_addr s4 s1 set_mem set_brk] in K1, K2, K3, K4.
  fold lo bp in K2, K3.
  assert (WF5 : wf s5 (ubs ++ (size, false) :: []) (bp :: fl)).
  { apply pre_wf_wf; [exact PW5|]. rewrite K2.
    intros b Hb. rewrite free_addrs_app in Hb.
    apply in_app_or in Hb as [Hb|Hb].
    - right. now apply FL3.
    - cbn [free_addrs app] in Hb. destruct Hb as [<-|[]]. left. lia. }
  eapply wp_mono.
  { pose proof (coalesce_spec s5 ubs size [] (bp :: fl) WF5) as H.
    rewrite K2 in H. replace (lo + 32 + total ubs) with bp in H by lia.
    exact H. }
  cbv beta. intros r s6 (SC6 & H6).
  pose proof (coalesced_naf ubs size [] NAF eq_refl) as NAF'.
  split.
  { destruct SC6 as (L1 & L2 & L3 & L4). unfold grown.
    rewrite L1, L2, L3, L4, K1, K2, K3, K4. repeat split. }
  destruct (coalesced ubs size []) as [[upre' sz'] post'].
  destruct H6 as (Hr & WF6 & FR6).
  split; [exact Hr|]. split.
  - split; [exact WF6|exact NAF'].
  - intros a Pa.
    assert (Pa' : pay true (lo + 16) (prologue :: ubs ++ [(size, false)]) a).
    { change (prologue :: ubs ++ [(size, false)])
        with ((prologue :: ubs) ++ [(size, false)]).
      apply pay_app. now left. }
    rewrite (FR6 a Pa').
    rewrite (link_change_pay _ _ _ _ _ a LC5); auto.
    + cbn [mem set_mem s4]. apply FR4.
      apply pay_bounds in Pa; auto. rewrite total_prologue in Pa. lia.
    + apply okb_all. apply Forall_app. split; [exact TG1|].
      constructor; [split; auto|constructor].
    + lia.
Qed.

(** Rewriting the tags of a run of blocks while link cells elsewhere may
    change as well. *)
Lemma tags_retag s s' (l1 F F' l2 : list block) :
  tags s (l1 ++ F ++ l2) -> 0 < mem_heap s -> same_ctl s s' ->
  Forall good F' -> total F' = total F ->
  (forall a, a < mem_heap s + 32 + total l1 - 8 \/
             mem_heap s + 32 + total l1 + total F - 8 <= a ->
             ~ (mem_heap s <= a < mem_heap s + 8) ->
             (forall b, In b (free_addrs (mem_heap s + 32) (l1 ++ F ++ l2)) ->
                        ~ (b <= a < b + 16)) ->
             mem s' a = mem s a) ->
  blocks (mem s') (mem_heap s + 32 + total l1) F' ->
  tags s' (l1 ++ F' ++ l2).
Proof.
  intros (T1 & T2 & T3 & T4) Hpos (C1 & C2 & C3 & C4) GF' TF' FR BF'.
  set (lo := mem_heap s) in *. set (A := lo + 32 + total l1) in *.
  apply Forall_app in T1 as [G1 G23]. apply Forall_app in G23 as [G2 G3].
  pose proof (Forall_good_okb _ G1) as O1.
  pose proof (Forall_good_okb _ G2) as O2.
  pose proof (Forall_good_okb _ G3) as O3.
  pose proof (total_nonneg _ O1) as N1. pose proof (total_nonneg _ O2) as N2.
  pose proof (total_nonneg _ O3) as N3.
  rewrite !total_app in T2.
  change (prologue :: l1 ++ F ++ l2) with ((prologue :: l1) ++ F ++ l2) in T3.
  apply blocks_app in T3 as [B1 B23]. apply blocks_app in B23 as [B2 B3].
  rewrite total_prologue in B2, B3.
  replace (lo + 16 + (16 + total l1)) with A in B2, B3 by (unfold A; lia).
  assert (O1' : Forall okb (prologue :: l1)) by (apply okb_all; auto).
  unfold tags. rewrite C2, C3. fold lo.
  split; [|split; [|split]].
  - apply Forall_app; split; auto. apply Forall_app; split; auto.
  - rewrite !total_app. lia.
  - change (prologue :: l1 ++ F' ++ l2) with ((prologue :: l1) ++ F' ++ l2).
    apply blocks_app. split; [|apply blocks_app; split].
    + apply (blocks_frame (mem s)); auto.
      intros x Hx P1 P2. rewrite total_prologue in Hx.
      apply FR; [fold A; lia|lia|].
      intros b Hb Hr. rewrite <- free_addrs_prologue in Hb.
      change (prologue :: l1 ++ F ++ l2) with ((prologue :: l1) ++ F ++ l2) in Hb.
      rewrite free_addrs_app in Hb. apply in_app_or in Hb as [Hb|Hb].
      * apply P2. eapply free_addrs_pay; eauto.
      * rewrite total_prologue in Hb.
        apply free_addrs_bounds in Hb; [|apply Forall_app; auto].
        unfold A in Hx. lia.
    + rewrite total_prologue.
      replace (lo + 16 + (16 + total l1)) with A by (unfold A; lia).
      exact BF'.
    + rewrite total_prologue.
      replace (lo + 16 + (16 + total l1) + total F') with (A + total F)
        by (unfold A; lia).
      apply (blocks_frame (mem s)); auto.
      intros x Hx P1 P2.
      apply FR; [fold A; lia|lia|].
      intros b Hb Hr. rewrite !free_addrs_app in Hb.
      apply in_app_or in Hb as [Hb|Hb].
      * apply free_addrs_bounds in Hb; auto. unfold A in Hx. lia.
      * apply in_app_or in Hb as [Hb|Hb].
        -- apply free_addrs_bounds in Hb; auto. fold A in Hb. lia.
        -- apply P2. fold A in Hb. eapply free_addrs_pay; eauto.
  - rewrite <- T4. apply load_ext. intros x Hx.
    apply FR; [fold A; lia|lia|].
    intros b Hb Hr.
    apply free_addrs_bounds in Hb.
    + rewrite !total_app in Hb. lia.
    + apply Forall_app; split; auto. apply Forall_app; split; auto.
Qed.

(** Where a free block lies relative to the block at [upre]. *)
Lemma free_addrs_class lo (upre : list block) S a (post : list block) b :
  Forall good (upre ++ (S, a) :: post) ->
  In b (free_addrs (lo + 32) (upre ++ (S, a) :: post)) ->
  (lo + 32 <= b /\ b + 32 <= lo + 32 + total upre /\
   In b (free_addrs (lo + 32) upre)) \/
  (b = lo + 32 + total upre /\ a = false) \/
  (lo + 32 + total upre + S <= b /\
   b + 32 <= lo + 32 + total upre + S + total post /\
   In b (free_addrs (lo + 32 + total upre + S) post)).
Proof.
  intros G H. apply Forall_app in G as [G1 G2].
  apply Forall_cons_iff in G2 as [_ G3].
  rewrite free_addrs_app in H. apply in_app_or in H as [H|H].
  - left. pose proof (free_addrs_bounds _ _ _ (Forall_good_okb _ G1) H). tauto.
  - cbn [free_addrs] in H. apply in_app_or in H as [H|H].
    + destruct a; [destruct H|]. destruct H as [<-|[]]. right. left. auto.
    + right. right.
      pose proof (free_addrs_bounds _ _ _ (Forall_good_okb _ G3) H). tauto.
Qed.

Lemma next_free_hd_alloc (post : list block) :
  hd_alloc post = true -> next_free post = None.
Proof. destruct post as [|[ns []] post']; simpl; congruence. Qed.

Lemma prev_free_snoc (l : list block) sz : prev_free (l ++ [(sz, true)]) = None.
Proof. unfold prev_free. now rewrite last_last. Qed.

Lemma place_spec s (upre : list block) S (post : list block) fl A :
  heap_ok s (upre ++ (S, false) :: post) fl ->
  32 <= A <= S -> A mod 16 = 0 ->
  wp (place (mem_heap s + 32 + total upre) A)
    (fun _ s' =>
       same_ctl s s' /\
       (if S - A <? 32
        then heap_ok s' (upre ++ (S, true) :: post)
               (remove Z.eq_dec (mem_heap s + 32 + total upre) fl)
        else heap_ok s' (upre ++ (A, true) :: (S - A, false) :: post)
               ((mem_heap s + 32 + total upre + A) ::
                remove Z.eq_dec (mem_heap s + 32 + total upre) fl)) /\
       (forall a, pay true (mem_heap s + 16)
                      (prologue :: upre ++ (S, false) :: post) a ->
                  mem s' a = mem s a)) s.
Proof.
  intros (WF & NAF) HA A16.
  destruct WF as (AR & TG & (FL1 & FL2 & FL3)).
  pose proof AR as [A1 A2 A3 A4 A5].
  pose proof TG as (TG1 & _).
  destruct (tags_cur _ _ _ _ _ TG A1) as (C1 & C2 & C3 & C4 & N1 & N2 & Eb).
  set (lo := mem_heap s) in *. set (bp := lo + 32 + total upre) in *.
  set (L := upre ++ (S, false) :: post) in *.
  pose proof (Forall_good_okb _ TG1) as FO.
  destruct (incl_free_geometry lo (mem_brk s) L fl FO) as [AP FB].
  { destruct TG as (_ & T2 & _). exact T2. }
  { intros b. apply FL3. }
  assert (CL : forall b, In b fl -> b + 32 <= bp \/ b = bp \/ bp + S <= b).
  { intros b Hb. apply FL3 in Hb.
    destruct (free_addrs_class lo upre S false post b TG1 Hb) as [H|[H|H]];
      fold bp in H; lia. }
  assert (Hbp : In bp fl).
  { apply FL3. unfold L. rewrite free_addrs_app. apply in_or_app. right.
    cbn [free_addrs app]. now left. }
  pose proof TG1 as G. apply Forall_app in G as [G1 G2].
  apply Forall_cons_iff in G2 as [G2 G3].
  unfold L in NAF. rewrite naf_app, naf_cons in NAF.
  apply andb_prop in NAF as [NAF NF3]. apply andb_prop in NAF as [NF1 NF2].
  apply andb_prop in NF2 as [NF4 NF2].
  rewrite orb_false_r in NF3. rewrite orb_false_l in NF4.
  (* frame for bytes the operation may not touch *)
  assert (OUT : forall a,
            pay true (lo + 16) (prologue :: L) a ->
            (a < bp - 16 \/ bp + S <= a) /\ ~ (lo <= a < lo + 8) /\
            (forall b, In b fl -> ~ (b <= a < b + 16))).
  { intros a Pa. split; [|split].
    - apply (pay_true_outside lo upre [(S, false)] post) in Pa;
        [|exact TG1|repeat constructor].
      cbn [total] in Pa. fold bp in Pa. lia.
    - apply pay_bounds in Pa; [|apply okb_all; auto]. lia.
    - intros b Hb. apply FL3 in Hb. rewrite <- free_addrs_prologue in Hb.
      apply (pay_true_not_link (prologue :: L) (lo + 16) b a);
        [apply okb_all; auto|exact Hb|exact Pa]. }
  unfold place. norm_ptr.
  apply wp_bind, wp_GET_SIZE; [unfold valid; fold lo; lia|].
  rewrite C1, size_bits_tag by auto. norm_ptr.
  change (2 * 16) with 32.
  destruct (Z.ltb_spec (S - A) 32) as [Hsmall|Hbig].
  - (* the whole block is handed out *)
    apply wp_bind, wp_GET_SIZE; [unfold valid; fold lo; lia|].
    rewrite C1, size_bits_tag by auto. rewrite PACK_alloc by auto.
    apply wp_bind, wp_PUT; [unfold valid; fold lo; lia|].
    unfold FTRP. norm_ptr.
    apply wp_bind, wp_bind.
    apply wp_GET_SIZE; [unfold valid; cbn [mem_heap mem_brk set_mem]; fold lo; lia|].
    cbn [mem set_mem]. rewrite load_store_same by (apply tag_range; lia).
    rewrite size_bits_tag by auto. apply wp_ret. norm_ptr.
    replace (bp + (S - 16)) with (bp + S - 16) by lia.
    apply wp_bind.
    apply wp_GET_SIZE; [unfold valid; cbn [mem_heap mem_brk set_mem]; fold lo; lia|].
    cbn [mem set_mem]. rewrite load_store_other by lia.
    rewrite C2, size_bits_tag by auto. rewrite PACK_alloc by auto.
    apply wp_bind, wp_PUT; [unfold valid; cbn [mem_heap mem_brk set_mem]; fold lo; lia|].
    cbn [mem set_mem]. rewrite set_mem_set_mem.
    set (m2 := store (store (mem s) (bp - 8) (tag S true)) (bp + S - 16)
                 (tag S true)).
    assert (D2 : dll m2 lo 0 fl).
    { apply (dll_frame (mem s)); auto.
      - intros x Hx. unfold cell in Hx. cbn [Z.eqb] in Hx. unfold m2.
        rewrite !store_other by lia. reflexivity.
      - intros b x Hb Hx. specialize (CL b Hb). unfold m2.
        rewrite !store_other by lia. reflexivity. }
    eapply wp_mono.
    { apply (remove_node_spec (set_mem s m2) lo fl bp); auto.
      cbn [mem_brk set_mem]. lia. }
    cbv beta. intros _ s3 (SC3 & D3 & FR3).
    cbn [mem set_mem] in FR3.
    assert (SC : same_ctl s s3).
    { eapply same_ctl_trans; [apply (same_ctl_set_mem s m2)|exact SC3]. }
    pose proof SC as (K1 & K2 & K3 & K4).
    assert (FR : forall a, a < bp - 8 \/ bp + S - 8 <= a ->
               ~ (lo <= a < lo + 8) ->
               (forall b, In b fl -> b <> bp -> ~ (b <= a < b + 16)) ->
               mem s3 a = mem s a).
    { intros a H1 H2 H3. rewrite FR3 by auto. unfold m2.
      rewrite !store_other by lia. reflexivity. }
    assert (LD : forall c, bp - 8 <= c -> c + 8 <= bp + S - 8 ->
               load (mem s3) c = load m2 c).
    { intros c H1 H2. apply load_ext. intros x Hx. apply FR3; [lia|].
      intros b Hb Nb. specialize (CL b Hb). lia. }
    split; [exact SC|]. split.
    + assert (TG3 : tags s3 (upre ++ [(S, true)] ++ post)).
      { apply (tags_retag s s3 upre [(S, false)] [(S, true)] post).
        - exact TG.
        - exact A1.
        - exact SC.
        - constructor; [exact G2|constructor].
        - reflexivity.
        - fold lo bp. cbn [total]. intros a H1 H2 H3. apply FR; auto; [lia|].
          intros b Hb _. apply H3. now apply FL3.
        - fold lo bp. cbn [blocks]. split; [|split; [|exact I]].
          + rewrite LD by lia. unfold m2. rewrite load_store_other by lia.
            apply load_store_same. apply tag_range. lia.
          + rewrite LD by lia. unfold m2. apply load_store_same.
            apply tag_range. lia. }
      split; [split; [|split; [exact TG3|split; [|split]]]|].
      * eapply same_ctl_arena; eauto.
      * rewrite K2. exact D3.
      * now apply NoDup_remove_list.
      * rewrite K2. fold lo. intros b. split.
        -- intros Hb. apply in_remove in Hb as [Hb Nb]. apply FL3 in Hb.
           unfold L in Hb. rewrite free_addrs_app in Hb |- *.
           apply in_app_or in Hb as [Hb|Hb]; apply in_or_app; [now left|right].
           cbn [free_addrs app] in Hb |- *. fold bp in Hb.
           destruct Hb as [Hb|Hb]; [congruence|exact Hb].
        -- intros Hb.
           assert (In b (free_addrs (lo + 32) L) /\ b <> bp) as [H1 H2].
           { unfold L. rewrite free_addrs_app in Hb |- *.
             apply in_app_or in Hb as [Hb|Hb].
             - split; [apply in_or_app; now left|].
               apply free_addrs_bounds in Hb; [|now apply Forall_good_okb].
               unfold bp. lia.
             - cbn [free_addrs app] in Hb |- *. split.
               + apply in_or_app. right. now right.
               + apply free_addrs_bounds in Hb; [|now apply Forall_good_okb].
                 unfold bp. lia. }
           apply in_in_remove; [exact H2|]. now apply FL3.
      * rewrite naf_app, naf_cons, NF1, NF2, NF3. reflexivity.
    + intros a Pa. destruct (OUT a Pa) as (O1 & O2 & O3).
      apply FR; auto; lia.
  - (* split *)
    set (rem := S - A) in *.
    assert (R16 : rem mod 16 = 0).
    { unfold rem. rewrite Zminus_mod, C4, A16. reflexivity. }
    rewrite PACK_alloc by auto.
    apply wp_bind, wp_PUT; [unfold valid; fold lo; lia|].
    apply wp_bind, wp_PUT; [unfold valid; cbn [mem_heap mem_brk set_mem]; fold lo; lia|].
    cbn [mem set_mem]. rewrite set_mem_set_mem.
    replace (bp + (A - 16)) with (bp + A - 16) by lia.
    replace (bp + (A - 8)) with (bp + A - 8) by lia.
    replace (bp + (A + rem - 16)) with (bp + S - 16) by (unfold rem; lia).
    set (m2 := store (store (mem s) (bp - 8) (tag A true)) (bp + A - 16)
                 (tag A true)).
    assert (D2 : dll m2 lo 0 fl).
    { apply (dll_frame (mem s)); auto.
      - intros x Hx. unfold cell in Hx. cbn [Z.eqb] in Hx. unfold m2.
        rewrite !store_other by lia. reflexivity.
      - intros b x Hb Hx. specialize (CL b Hb). unfold m2.
        rewrite !store_other by lia. reflexivity. }
    apply wp_bind. eapply wp_mono.
    { apply (remove_node_spec (set_mem s m2) lo fl bp); auto.
      cbn [mem_brk set_mem]. lia. }
    cbv beta. intros _ s3 (SC3 & D3 & FR3).
    cbn [mem set_mem] in FR3.
    assert (SC : same_ctl s s3).
    { eapply same_ctl_trans; [apply (same_ctl_set_mem s m2)|exact SC3]. }
    pose proof SC as (K1 & K2 & K3 & K4).
    assert (LD : forall c, bp - 8 <= c -> c + 8 <= bp + S - 8 ->
               load (mem s3) c = load m2 c).
    { intros c H1 H2. apply load_ext. intros x Hx. apply FR3; [lia|].
      intros b Hb Nb. specialize (CL b Hb). lia. }
    rewrite !PACK_free.
    apply wp_bind, wp_PUT; [unfold valid; rewrite K2, K3; fold lo; lia|].
    apply wp_bind, wp_PUT; [unfold valid; cbn [mem_heap mem_brk set_mem]; rewrite K2, K3; fold lo; lia|].
    cbn [mem set_mem]. rewrite set_mem_set_mem.
    set (m5 := store (store (mem s3) (bp + A - 8) rem) (bp + S - 16) rem).
    set (s5 := set_mem s3 m5).
    assert (SC5 : same_ctl s s5).
    { eapply same_ctl_trans; [exact SC|apply same_ctl_set_mem]. }
    set (fl' := remove Z.eq_dec bp fl) in *.
    assert (CL' : forall b, In b fl' -> In b fl /\ (b + 32 <= bp \/ bp + S <= b)).
    { intros b Hb. apply in_remove in Hb as [Hb Nb]. split; [exact Hb|].
      specialize (CL b Hb). lia. }
    assert (FR5 : forall a, a < bp - 8 \/ bp + S - 8 <= a ->
               ~ (lo <= a < lo + 8) ->
               (forall b, In b fl -> b <> bp -> ~ (b <= a < b + 16)) ->
               mem s5 a = mem s a).
    { intros a H1 H2 H3. cbn [mem s5 set_mem]. unfold m5.
      rewrite !store_other by lia. rewrite FR3 by auto. unfold m2.
      rewrite !store_other by lia. reflexivity. }
    assert (TG5 : tags s5 (upre ++ [(A, true); (rem, false)] ++ post)).
    { apply (tags_retag s s5 upre [(S, false)] [(A, true); (rem, false)] post).
      - exact TG.
      - exact A1.
      - exact SC5.
      - constructor; [split; cbn [fst]; [lia|exact A16]|].
        constructor; [split; cbn [fst]; [lia|exact R16]|constructor].
      - cbn [total]. unfold rem. lia.
      - fold lo bp. cbn [total]. intros a H1 H2 H3. apply FR5; auto; [lia|].
        intros b Hb _. apply H3. now apply FL3.
      - fold lo bp. cbn [blocks mem s5 set_mem]. unfold m5.
        replace (bp + A + rem - 16) with (bp + S - 16) by (unfold rem; lia).
        split; [|split; [|split; [|split; [|exact I]]]].
        + rewrite !load_store_other by lia. rewrite LD by lia. unfold m2.
          rewrite load_store_other by lia.
          apply load_store_same. apply tag_range. lia.
        + rewrite !load_store_other by lia. rewrite LD by lia. unfold m2.
          apply load_store_same. apply tag_range. lia.
        + rewrite tag_free. rewrite load_store_other by lia.
          apply load_store_same. lia.
        + rewrite tag_free. apply load_store_same. lia. }
    assert (PW5 : pre_wf s5 (upre ++ [(A, true); (rem, false)] ++ post) fl').
    { split; [eapply same_ctl_arena; eauto|]. split; [exact TG5|].
      split; [|split; [now apply NoDup_remove_list|]].
      - cbn [mem_heap mem s5 set_mem]. rewrite K2. fold lo.
        apply (dll_frame (mem s3)); auto.
        + intros x Hx. unfold cell in Hx. cbn [Z.eqb] in Hx. unfold m5.
          rewrite !store_other by lia. reflexivity.
        + intros b x Hb Hx. destruct (CL' b Hb) as [_ Hc]. unfold m5.
          rewrite !store_other by lia. reflexivity.
      - cbn [mem_heap s5 set_mem]. rewrite K2. fold lo.
        intros b Hb. destruct (CL' b Hb) as [Hb' Hc]. apply FL3 in Hb'.
        unfold L in Hb'. rewrite free_addrs_app in Hb' |- *.
        apply in_app_or in Hb' as [Hb'|Hb']; apply in_or_app; [now left|right].
        cbn [free_addrs app] in Hb' |- *. fold bp in Hb' |- *.
        destruct Hb' as [Hb'|Hb']; [lia|]. right.
        now replace (bp + A + rem) with (bp + S) by (unfold rem; lia). }
    assert (HI : In (bp + A) (free_addrs (mem_heap s5 + 32)
                   (upre ++ [(A, true); (rem, false)] ++ post))).
    { cbn [mem_heap s5 set_mem]. rewrite K2. fold lo.
      rewrite free_addrs_app. apply in_or_app. right.
      cbn [free_addrs app]. fold bp. now left. }
    assert (NI : ~ In (bp + A) fl').
    { intros H. destruct (CL' _ H) as [_ Hc]. lia. }
    apply wp_bind. eapply wp_mono;
      [apply (insert_node_pre s5 _ fl' (bp + A) PW5 HI NI)|].
    cbv beta. intros _ s6 (SC6 & PW6 & LC6).
    cbn [mem_heap mem s5 set_mem] in LC6. rewrite K2 in LC6. fold lo in LC6.
    assert (SC06 : same_ctl s s6) by (eapply same_ctl_trans; eauto).
    pose proof SC06 as (J1 & J2 & J3 & J4).
    assert (WF6 : wf s6 ((upre ++ [(A, true)]) ++ (rem, false) :: post)
                    ((bp + A) :: fl')).
    { rewrite <- app_assoc. apply pre_wf_wf; [exact PW6|]. rewrite J2. fold lo.
      intros b Hb. rewrite free_addrs_app in Hb.
      apply in_app_or in Hb as [Hb|Hb].
      - right. apply in_in_remove.
        + apply free_addrs_bounds in Hb; [|now apply Forall_good_okb].
          unfold bp. lia.
        + apply FL3. unfold L. rewrite free_addrs_app. apply in_or_app.
          now left.
      - cbn [free_addrs app] in Hb. fold bp in Hb. destruct Hb as [<-|Hb].
        + now left.
        + right. replace (bp + A + rem) with (bp + S) in Hb by (unfold rem; lia).
          apply in_in_remove.
          * apply free_addrs_bounds in Hb; [|now apply Forall_good_okb]. lia.
          * apply FL3. unfold L. rewrite free_addrs_app. apply in_or_app.
            right. cbn [free_addrs app]. fold bp. right. exact Hb. }
    apply wp_bind. eapply wp_mono.
    { pose proof (coalesce_spec s6 (upre ++ [(A, true)]) rem post _ WF6) as H.
      rewrite J2 in H. fold lo in H. rewrite total_app in H. cbn [total] in H.
      replace (lo + 32 + (total upre + (A + 0))) with (bp + A) in H
        by (unfold bp; lia).
      exact H. }
    cbv beta. intros r s7 (SC7 & H7).
    apply wp_ret. split; [eapply same_ctl_trans; eauto|].
    unfold coalesced, coalesced_list in H7.
    rewrite prev_free_snoc, (next_free_hd_alloc _ NF4) in H7.
    destruct H7 as (_ & WF7 & FR7).
    rewrite <- app_assoc in WF7, FR7. cbn [app] in WF7, FR7.
    split; [split; [exact WF7|]|].
    + rewrite naf_app, !naf_cons, NF1, NF2, NF3, NF4. reflexivity.
    + intros a Pa. destruct (OUT a Pa) as (O1 & O2 & O3).
      assert (Pa' : pay true (lo + 16)
                (prologue :: upre ++ (A, true) :: (rem, false) :: post) a).
      { unfold L in Pa.
        change (prologue :: upre ++ (S, false) :: post)
          with ((prologue :: upre) ++ (S, false) :: post) in Pa.
        change (prologue :: upre ++ (A, true) :: (rem, false) :: post)
          with ((prologue :: upre) ++ (A, true) :: (rem, false) :: post).
        apply pay_app in Pa. apply pay_app. destruct Pa as [Pa|Pa]; [now left|].
        right. cbn [pay] in Pa |- *. destruct Pa as [[Pa _]|Pa]; [discriminate|].
        right. right.
        rewrite total_prologue in Pa |- *.
        now replace (lo + 16 + (16 + total upre) + A + rem)
          with (lo + 16 + (16 + total upre) + S) by (unfold rem; lia). }
      rewrite (FR7 a Pa').
      rewrite (link_change_pay _ _ _ _ _ a LC6); auto.
      * apply FR5; [lia|exact O2|]. intros b Hb _. now apply O3.
      * apply okb_all. destruct TG5 as (T & _). exact T.
      * lia.
Qed.

(** * Specifications of the search and of [mm_malloc] *)

Lemma free_addrs_split bs : forall bp b,
  In b (free_addrs bp bs) ->
  exists l1 S l2, bs = l1 ++ (S, false) :: l2 /\ b = bp + total l1.
Proof.
  induction bs as [|[sz a] r IH]; intros bp b H; cbn [free_addrs] in H.
  - destruct H.
  - apply in_app_or in H as [H|H].
    + destruct a; [destruct H|]. destruct H as [<-|[]].
      exists [], sz, r. split; [reflexivity|]. cbn [total]. lia.
    + apply IH in H as (l1 & S & l2 & -> & ->).
      exists ((sz, a) :: l1), S, l2. split; [reflexivity|]. cbn [total]. lia.
Qed.

Lemma dll_hd m lo : forall l prev,
  dll m lo prev l -> load m (cell lo prev) = hd 0 l.
Proof. intros [|b r] prev D; cbn [dll hd] in *; tauto. Qed.

Lemma find_fit_loop_spec s ubs asize : forall l prev fuel,
  arena s -> tags s ubs ->
  dll (mem s) (mem_heap s) prev l ->
  (forall b, In b l -> In b (free_addrs (mem_heap s + 32) ubs)) ->
  (length l <= fuel)%nat ->
  wp (find_fit_loop fuel asize (hd 0 l))
     (fun r s' => s' = s /\ (r = NULL \/ fit_at s ubs asize r)) s.
Proof.
  induction l as [|b r IH]; intros prev fuel AR TG D IN LEN.
  - cbn [hd]. destruct fuel; cbn [find_fit_loop]; 
      (replace (0 =? NULL) with true by reflexivity); apply wp_ret; auto.
  - cbn [hd]. cbn [dll] in D. destruct D as (D1 & D0 & D2 & D3).
    destruct fuel as [|k]; [cbn [length] in LEN; lia|].
    cbn [find_fit_loop].
    destruct (Z.eqb_spec b NULL) as [E|_]; [unfold NULL in E; contradiction|].
    pose proof (IN b (or_introl eq_refl)) as Hb.
    destruct (free_addrs_split _ _ _ Hb) as (upre & S & post & EU & Eb).
    pose proof AR as [A1 A2 A3 A4 A5].
    pose proof TG as TG'. rewrite EU in TG'.
    destruct (tags_cur _ _ _ _ _ TG' A1) as (C1 & C2 & C3 & C4 & N1 & N2 & Ebrk).
    rewrite <- Eb in C1, C2, Ebrk.
    norm_ptr.
    apply wp_bind, wp_GET_SIZE; [unfold valid; lia|].
    rewrite C1, size_bits_tag by auto.
    destruct (Z.leb_spec asize S) as [Hfit|Hno].
    + apply wp_ret. split; [reflexivity|]. right.
      exists upre, S, post. auto.
    + apply wp_bind, wp_GET_PTR; [unfold valid; lia|].
      rewrite <- (cell_node (mem_heap s) b D0).
      rewrite (dll_hd _ _ _ _ D3).
      apply (IH b k); auto.
      * intros b' Hb'. apply IN. now right.
      * cbn [length] in LEN. lia.
Qed.

Lemma find_fit_spec s ubs fl fuel asize :
  wf s ubs fl -> (length fl <= fuel)%nat ->
  wp (find_fit fuel asize)
     (fun r s' => s' = s /\ (r = NULL \/ fit_at s ubs asize r)) s.
Proof.
  intros (AR & TG & (FL1 & FL2 & FL3)) LEN.
  pose proof AR as [A1 A2 A3 A4 A5].
  destruct TG as (T1 & T2 & T3 & T4).
  pose proof (total_nonneg _ (Forall_good_okb _ T1)).
  unfold find_fit.
  apply wp_bind, wp_LL_START. rewrite A3. norm_ptr.
  replace (mem_heap s + 16 - 16) with (mem_heap s) by lia.
  apply wp_bind, wp_GET_PTR; [unfold valid; lia|].
  change (mem_heap s) with (cell (mem_heap s) 0) at 1.
  rewrite (dll_hd _ _ _ _ FL1).
  apply (find_fit_loop_spec s ubs asize fl 0 fuel); auto.
  - exact (conj T1 (conj T2 (conj T3 T4))).
  - intros b. apply FL3.
Qed.

Lemma adjusted_size_spec size :
  0 < size <= 2 ^ 64 - 32 ->
  adjusted_size size mod 16 = 0 /\ 32 <= adjusted_size size /\
  size + 16 <= adjusted_size size < size + 32.
Proof.
  intros H. unfold adjusted_size, DSIZE, OVERHEAD.
  destruct (Z.leb_spec size 16) as [Hs|Hs].
  - repeat split; try reflexivity; lia.
  - rewrite (wrap_small (size + 16)) by lia.
    rewrite (wrap_small (size + 16 + (16 - 1))) by lia.
    pose proof (Z.div_mod (size + 16 + (16 - 1)) 16 ltac:(lia)) as D.
    pose proof (Z.mod_pos_bound (size + 16 + (16 - 1)) 16 ltac:(lia)) as B.
    rewrite wrap_small by lia.
    repeat split; try lia.
    rewrite Z.mul_comm. apply Z.mod_mul. lia.
Qed.

Lemma pay_layout k bs : forall bp x,
  pay k bp bs x ->
  exists p sz, In (p, sz, k) (layout bp bs) /\ p <= x < p + sz - 16.
Proof.
  induction bs as [|[sz a] r IH]; intros bp x H; cbn [pay layout] in *.
  - destruct H.
  - destruct H as [[-> H]|H].
    + exists bp, sz. split; [now left|exact H].
    + apply IH in H as (p & sz' & H1 & H2). exists p, sz'. split; [now right|exact H2].
Qed.

Lemma layout_addr_unique (l1 : list block) S0 a0 (l2 : list block) bp p sz a :
  Forall okb (l1 ++ (S0, a0) :: l2) ->
  In (p, sz, a) (layout bp (l1 ++ (S0, a0) :: l2)) ->
  p = bp + total l1 -> sz = S0 /\ a = a0.
Proof.
  intros F H E. apply Forall_app in F as [F1 F2].
  pose proof F2 as F2'. apply Forall_cons_iff in F2' as [(O1 & _) F3].
  cbn [fst] in O1.
  rewrite layout_app in H. apply in_app_or in H as [H|H].
  - pose proof H as H'. apply layout_bounds in H; auto.
    apply layout_split in H' as (x & y & -> & _).
    apply Forall_app in F1 as [_ F1]. apply Forall_cons_iff in F1 as [(Q & _) _].
    cbn [fst] in Q. lia.
  - cbn [layout] in H. destruct H as [H|H].
    + injection H as _ <- <-. auto.
    + apply layout_bounds in H; auto. lia.
Qed.

Lemma alloc_kept_trans lo a b c :
  alloc_kept lo a b -> alloc_kept lo b c -> alloc_kept lo a c.
Proof. unfold alloc_kept. auto. Qed.

(** Replacing a run of blocks by another of the same length keeps the
    allocated blocks outside the run. *)
Lemma layout_replace bp (l1 F F' l2 : list block) p sz :
  total F' = total F ->
  In (p, sz, true) (layout bp (l1 ++ F ++ l2)) ->
  (In (p, sz, true) (layout (bp + total l1) F) ->
   In (p, sz, true) (layout (bp + total l1) F')) ->
  In (p, sz, true) (layout bp (l1 ++ F' ++ l2)).
Proof.
  intros T H HF. rewrite !layout_app in H |- *.
  apply in_app_or in H as [H|H]; apply in_or_app; [now left|right].
  apply in_app_or in H as [H|H]; apply in_or_app; [left; auto|right].
  now rewrite T.
Qed.

Lemma alloc_kept_coalesced lo (upre : list block) s0 (post : list block) :
  let '(u', s', p') := coalesced upre s0 post in
  alloc_kept lo (upre ++ (s0, false) :: post) (u' ++ (s', false) :: p').
Proof.
  unfold coalesced, prev_free, next_free.
  destruct (last_split upre) as (pre0 & E0 & Efree).
  destruct (last upre prologue) as [ps pa] eqn:EL. cbn [snd] in Efree.
  assert (K : forall (l1 F F' l2 : list block),
            total F' = total F ->
            Forall (fun b => snd b = false) F ->
            alloc_kept lo (l1 ++ F ++ l2) (l1 ++ F' ++ l2)).
  { intros l1 F F' l2 T FF p sz H.
    apply (layout_replace _ l1 F F' l2); auto.
    intros HF. exfalso. apply layout_split in HF as (x & y & -> & _).
    apply Forall_app in FF as [_ FF]. apply Forall_cons_iff in FF as [FF _].
    discriminate. }
  destruct pa.
  - destruct post as [|[ns []] post']; try (intros p sz H; exact H).
    cbn [tl]. apply (K upre [(s0, false); (ns, false)] [(s0 + ns, false)] post').
    + cbn [total]. lia.
    + repeat constructor.
  - destruct (Efree eq_refl) as (_ & Eup).
    set (u := removelast upre) in *. rewrite Eup.
    destruct post as [|[ns []] post']; cbn [tl]; rewrite <- app_assoc.
    + apply (K u [(ps, false); (s0, false)] [(ps + s0, false)] []).
      * cbn [total]. lia.
      * repeat constructor.
    + apply (K u [(ps, false); (s0, false)] [(ps + s0, false)] ((ns, true) :: post')).
      * cbn [total]. lia.
      * repeat constructor.
    + apply (K u [(ps, false); (s0, false); (ns, false)] [(ps + s0 + ns, false)] post').
      * cbn [total]. lia.
      * repeat constructor.
Qed.

Lemma placed_facts lo (upre : list block) S (post : list block) A :
  A <= S ->
  alloc_kept lo (upre ++ (S, false) :: post) (placed upre S post A) /\
  exists szr, In (lo + 32 + total upre, szr, true)
                 (layout (lo + 32) (placed upre S post A)) /\ A <= szr.
Proof.
  intros HA. unfold placed. destruct (S - A <? 32); split.
  - intros p sz H.
    apply (layout_replace _ upre [(S, false)] [(S, true)] post); auto.
    cbn [layout]. intros [E|[]]. discriminate.
  - exists S. split; [|lia]. rewrite layout_app. apply in_or_app. right.
    now left.
  - intros p sz H.
    apply (layout_replace _ upre [(S, false)] [(A, true); (S - A, false)] post);
      auto.
    + cbn [total]. lia.
    + cbn [layout]. intros [E|[]]. discriminate.
  - exists A. split; [|lia]. rewrite layout_app. apply in_or_app. right.
    now left.
Qed.

Lemma max_spec x y : max x y = Z.max x y.
Proof. unfold max. destruct (Z.ltb_spec y x); lia. Qed.

Lemma pay_kept lo ubs ubs' a :
  alloc_kept lo ubs ubs' ->
  pay true (lo + 16) (prologue :: ubs) a ->
  pay true (lo + 16) (prologue :: ubs') a.
Proof.
  intros K P. unfold prologue in *. cbn [pay] in P |- *.
  destruct P as [[_ P]|P]; [lia|]. right.
  replace (lo + 16 + 16) with (lo + 32) in * by lia.
  apply pay_layout in P as (p & sz & H1 & H2).
  apply (layout_pay _ _ p sz); auto.
Qed.

Lemma mm_malloc_spec s ubs fl fuel size :
  heap_ok s ubs fl -> 0 < size <= 2 ^ 64 - 32 -> (length fl <= fuel)%nat ->
  wp (mm_malloc fuel size)
    (fun r s' =>
       (r = NULL /\ s' = s) \/
       (r <> NULL /\ exists ubs' fl', malloc_ok s ubs size r s' ubs' fl')) s.
Proof.
  intros HOK Hsize LEN.
  pose proof HOK as (WF & NAF).
  pose proof WF as (AR & TG & _).
  pose proof AR as [A1 A2 A3 A4 A5].
  pose proof TG as (TG1 & TG2 & _).
  pose proof (Forall_good_okb _ TG1) as FO.
  pose proof (total_nonneg _ FO) as TN.
  destruct (adjusted_size_spec size Hsize) as (S16 & S32 & SLO & SHI).
  set (lo := mem_heap s) in *.
  unfold mm_malloc.
  destruct (Z.leb_spec size 0) as [|_]; [lia|].
  set (A := adjusted_size size) in *.
  apply wp_bind. eapply wp_mono; [apply (find_fit_spec s ubs fl fuel A WF LEN)|].
  cbv beta. intros r s0 (-> & Hr).
  destruct Hr as [->|(upre & S & post & EU & Er & HS)].
  - (* no fit: grow the heap *)
    replace (negb (NULL =? NULL)) with false by reflexivity.
    rewrite max_spec. unfold CHUNKSIZE, WSIZE.
    replace (Z.shiftl 1 12) with 4096 by reflexivity.
    set (E := Z.max A 4096).
    assert (E16 : E mod 16 = 0).
    { unfold E. destruct (Z.max_spec A 4096) as [[_ ->]|[_ ->]]; auto. }
    pose proof (Z.div_mod E 16 ltac:(lia)) as DE. rewrite E16 in DE.
    assert (EW : E / 8 = 2 * (E / 16)).
    { rewrite DE at 1. replace (16 * (E / 16) + 0) with ((2 * (E / 16)) * 8) by lia.
      apply Z.div_mul. lia. }
    assert (EB : even_bytes (E / 8) = E).
    { unfold even_bytes. rewrite EW.
      replace (2 * (E / 16)) with (0 + (E / 16) * 2) by lia.
      rewrite Z.mod_add by lia. cbn [Z.modulo Z.eqb]. 
      change (0 mod 2 =? 1) with false. cbv iota. lia. }
    assert (EL : 4096 <= E < 2 ^ 64) by (unfold E; lia).
    apply wp_bind. eapply wp_mono.
    { apply (extend_heap_spec s ubs fl (E / 8) HOK); lia. }
    cbv beta. rewrite EB. intros r s1 H1.
    destruct (Z.leb_spec (mem_brk s + E) (mem_max_addr s)) as [Hfit|Hfit].
    2:{ destruct H1 as [-> ->]. 
        replace (NULL =? NULL) with true by reflexivity.
        apply wp_ret. left. auto. }
    destruct H1 as ((G1 & G2 & G3 & G4) & H1).
    pose proof (alloc_kept_coalesced lo ubs E []) as AK.
    assert (FRESH : let '(u', _, _) := coalesced ubs E [] in
              forall sz, ~ In (lo + 32 + total u', sz, true) (layout (lo + 32) ubs)).
    { unfold coalesced, prev_free. cbn [next_free].
      destruct (last_split ubs) as (pre0 & E0 & Efree).
      destruct (last ubs prologue) as [ps pa] eqn:EL'. cbn [snd] in Efree.
      destruct pa.
      - intros sz H. pose proof H as H'. apply layout_bounds in H; auto.
        apply layout_split in H' as (x & y & Ex & _). rewrite Ex in FO.
        apply Forall_app in FO as [_ FO].
        apply Forall_cons_iff in FO as [(Q & _) _]. cbn [fst] in Q. lia.
      - destruct (Efree eq_refl) as (_ & Eup).
        set (u := removelast ubs) in *. intros sz H.
        rewrite Eup in H, FO.
        apply (layout_addr_unique u ps false [] (lo + 32)) in H; auto.
        destruct H. discriminate. }
    assert (SZ : let '(_, s', p') := coalesced ubs E [] in E <= s' /\ p' = []).
    { unfold coalesced, prev_free. cbn [next_free].
      destruct (last_split ubs) as (pre0 & E0 & Efree).
      destruct (last ubs prologue) as [ps pa] eqn:EL'. cbn [snd] in Efree.
      destruct pa; [split; [lia|reflexivity]|].
      destruct (Efree eq_refl) as (_ & Eup). rewrite Eup in TG1.
      apply Forall_app in TG1 as [_ T]. apply Forall_cons_iff in T as [[T _] _].
      cbn [fst] in T. split; [lia|reflexivity]. }
    destruct (coalesced ubs E []) as [[upre' sz'] post'].
    destruct SZ as [SZ ->].
    destruct H1 as (-> & HOK1 & FR1).
    pose proof HOK1 as ((_ & (TG1' & _) & _) & _).
    pose proof (total_nonneg _ (Forall_good_okb _ TG1')) as TN'.
    rewrite total_app in TN'. cbn [total] in TN'.
    apply Forall_app in TG1' as [TGu _].
    pose proof (total_nonneg _ (Forall_good_okb _ TGu)) as TNu.
    destruct (Z.eqb_spec (mem_heap s + 32 + total upre') NULL) as [E0|_];
      [unfold NULL in E0; fold lo in E0; lia|].
    apply wp_bind. eapply wp_mono.
    { pose proof (place_spec s1 upre' sz' [] _ A HOK1 ltac:(lia) S16) as H.
      rewrite G2 in H. exact H. }
    cbv beta. intros _ s2 (SC2 & HOK2 & FR2).
    apply wp_ret. right. split; [fold lo; unfold NULL; lia|].
    destruct (placed_facts lo upre' sz' [] A ltac:(lia)) as [AK2 (szr & Hin & Hsz)].
    assert (AK01 : alloc_kept lo ubs (upre' ++ [(sz', false)])).
    { intros p sz H. apply AK. rewrite layout_app. apply in_or_app. now left. }
    assert (AK02 : alloc_kept lo ubs (placed upre' sz' [] A)).
    { eapply alloc_kept_trans; [exact AK01|exact AK2]. }
    assert (HOK2' : exists fl2, heap_ok s2 (placed upre' sz' [] A) fl2).
    { unfold placed. destruct (sz' - A <? 32); eexists; exact HOK2. }
    destruct HOK2' as (fl2 & HOK2').
    destruct SC2 as (K1 & K2 & K3 & K4).
    exists (placed upre' sz' [] A), fl2.
    split; [|split; [|split; [|split; [|split; [|split; [|split]]]]]].
    + exact HOK2'.
    + congruence.
    + congruence.
    + congruence.
    + rewrite K3, G3. lia.
    + fold lo. exact AK02.
    + fold lo. intros a Pa. fold lo in FR2. rewrite FR2.
      * now apply FR1.
      * eapply pay_kept; [exact AK01|exact Pa].
    + fold lo. exists szr. split; [exact Hin|]. split; [lia|]. exact FRESH.
  - (* a fit *)
    assert (Hr : r <> 0).
    { subst ubs. rewrite total_app in TN.
      apply Forall_app in FO as [FO1 _]. pose proof (total_nonneg _ FO1).
      fold lo in Er. lia. }
    destruct (Z.eqb_spec r NULL) as [E0|_]; [unfold NULL in E0; lia|].
    cbn [negb]. subst ubs.
    assert (HS' : 32 <= A <= S) by lia.
    apply wp_bind. eapply wp_mono.
    { pose proof (place_spec s upre S post fl A HOK HS' S16) as H.
      rewrite <- Er in H. exact H. }
    cbv beta. intros _ s2 (SC2 & HOK2 & FR2).
    apply wp_ret. right. split; [exact Hr|].
    destruct (placed_facts lo upre S post A HS) as [AK2 (szr & Hin & Hsz)].
    fold lo in Er. rewrite <- Er in Hin.
    assert (HOK2' : exists fl2, heap_ok s2 (placed upre S post A) fl2).
    { unfold placed. destruct (S - A <? 32); eexists; exact HOK2. }
    destruct HOK2' as (fl2 & HOK2').
    destruct SC2 as (K1 & K2 & K3 & K4).
    exists (placed upre S post A), fl2.
    split; [|split; [|split; [|split; [|split; [|split; [|split]]]]]].
    + exact HOK2'.
    + congruence.
    + congruence.
    + congruence.
    + lia.
    + exact AK2.
    + exact FR2.
    + fold lo. exists szr. split; [exact Hin|]. split; [lia|].
      intros sz H.
      apply (layout_addr_unique upre S false post (lo + 32)) in H; auto.
      destruct H. discriminate.
Qed.

(** * [mm_realloc] *)

Lemma wp_GET_BYTE p Q s :
  mem_heap s <= p < mem_brk s -> Q (byte_at (mem s) p) s ->
  wp (GET_BYTE p) Q s.
Proof.
  intros V H. unfold wp, GET_BYTE, in_arena.
  destruct (Z.leb_spec (mem_heap s) p); [|lia].
  destruct (Z.leb_spec (p + 1) (mem_brk s)); [|lia]. exact H.
Qed.

Lemma wp_PUT_BYTE p b Q s :
  mem_heap s <= p < mem_brk s -> Q tt (set_mem s (upd (mem s) p b)) ->
  wp (PUT_BYTE p b) Q s.
Proof.
  intros V H. unfold wp, PUT_BYTE, in_arena.
  destruct (Z.leb_spec (mem_heap s) p); [|lia].
  destruct (Z.leb_spec (p + 1) (mem_brk s)); [|lia]. exact H.
Qed.

Lemma copy_loop_spec ptr old_ptr : forall n i s,
  0 <= i -> 0 <= mem_heap s -> mem_brk s < 2 ^ 64 ->
  mem_heap s <= old_ptr -> old_ptr + i + Z.of_nat n <= mem_brk s ->
  mem_heap s <= ptr -> ptr + i + Z.of_nat n <= mem_brk s ->
  (ptr + i + Z.of_nat n <= old_ptr \/ old_ptr + i + Z.of_nat n <= ptr) ->
  wp (copy_loop n i ptr old_ptr)
     (fun _ s' =>
        same_ctl s s' /\
        forall a, mem s' a =
                  if (ptr + i <=? a) && (a <? ptr + i + Z.of_nat n)
                  then byte_at (mem s) (old_ptr + (a - ptr))
                  else mem s a) s.
Proof.
  induction n as [|n IH]; intros i s Hi Hlo Hbrk O1 O2 P1 P2 DJ.
  - cbn [copy_loop]. apply wp_ret. split; [apply same_ctl_refl|].
    intros a. destruct (Z.leb_spec (ptr + i) a); 
      destruct (Z.ltb_spec a (ptr + i + Z.of_nat 0)); cbn [andb]; try reflexivity.
    lia.
  - rewrite Nat2Z.inj_succ in *. cbn [copy_loop]. unfold PADD.
    rewrite !wrap_small by lia.
    apply wp_bind, wp_GET_BYTE; [lia|].
    apply wp_bind, wp_PUT_BYTE; [lia|].
    set (s1 := set_mem s (upd (mem s) (ptr + i) (byte_at (mem s) (old_ptr + i)))).
    eapply wp_mono.
    { apply (IH (i + 1) s1); cbn [mem_heap mem_brk s1 set_mem]; lia. }
    cbv beta. intros _ s' (SC & H). split.
    { eapply same_ctl_trans; [apply same_ctl_set_mem|exact SC]. }
    intros a. rewrite H. cbn [mem s1 set_mem].
    destruct (Z.leb_spec (ptr + (i + 1)) a);
      destruct (Z.ltb_spec a (ptr + (i + 1) + Z.of_nat n));
      destruct (Z.leb_spec (ptr + i) a);
      destruct (Z.ltb_spec a (ptr + i + Z.succ (Z.of_nat n)));
      cbn [andb]; try lia.
    + unfold byte_at, upd.
      destruct (Z.eqb_spec (old_ptr + (a - ptr)) (ptr + i)); [lia|reflexivity].
    + unfold upd. destruct (Z.eqb_spec a (ptr + i)); [lia|reflexivity].
    + unfold upd. destruct (Z.eqb_spec a (ptr + i)); [|lia].
      subst a.
      replace (old_ptr + (ptr + i - ptr)) with (old_ptr + i) by lia. reflexivity.
    + unfold upd. destruct (Z.eqb_spec a (ptr + i)); [lia|reflexivity].
Qed.

(** A change confined to allocated payload bytes preserves the invariant. *)
Lemma heap_ok_frame s s' ubs fl :
  heap_ok s ubs fl -> same_ctl s s' ->
  (forall a, ~ pay true (mem_heap s + 16) (prologue :: ubs) a ->
             mem s' a = mem s a) ->
  heap_ok s' ubs fl.
Proof.
  intros ((AR & TG & (FL1 & FL2 & FL3)) & NAF) SC FR.
  pose proof (same_ctl_arena _ _ AR SC) as AR'.
  pose proof AR as [A1 A2 A3 A4 A5].
  destruct SC as (C1 & C2 & C3 & C4).
  destruct TG as (T1 & T2 & T3 & T4).
  pose proof (okb_all _ T1) as FO.
  pose proof (total_nonneg _ FO) as TN. rewrite total_prologue in TN.
  split; [|exact NAF]. split; [exact AR'|]. split; [|split; [|split]].
  - unfold tags. rewrite C2, C3. split; [exact T1|]. split; [exact T2|]. split.
    + apply (blocks_frame (mem s)); auto.
    + rewrite <- T4. apply load_ext. intros x Hx. apply FR.
      intros P. apply pay_bounds in P; auto. rewrite total_prologue in P. lia.
  - rewrite C2. apply (dll_frame (mem s)); auto.
    + intros x Hx. unfold cell in Hx. cbn [Z.eqb] in Hx. apply FR.
      intros P. apply pay_bounds in P; auto. lia.
    + intros b x Hb Hx. apply FR. intros P.
      apply FL3 in Hb. rewrite <- free_addrs_prologue in Hb.
      exact (pay_true_not_link _ _ _ _ FO Hb P Hx).
  - exact FL2.
  - rewrite C2. exact FL3.
Qed.

Lemma coalesced_covers (upre : list block) sz (post : list block) :
  Forall good (upre ++ (sz, false) :: post) ->
  let '(u', s', p') := coalesced upre sz post in
  total u' <= total upre /\ total upre + sz <= total u' + s'.
Proof.
  intros G. unfold coalesced, prev_free, next_free.
  destruct (last_split upre) as (pre0 & E0 & Efree).
  destruct (last upre prologue) as [ps pa] eqn:EL. cbn [snd] in Efree.
  apply Forall_app in G as [G1 G2]. apply Forall_cons_iff in G2 as [_ G3].
  assert (NS : forall ns a (l : list block), post = (ns, a) :: l -> 0 <= ns).
  { intros ns a l ->. apply Forall_cons_iff in G3 as [[H _] _].
    cbn [fst] in H. lia. }
  destruct pa.
  - destruct post as [|[ns []] post']; try lia.
    pose proof (NS ns false post' eq_refl). lia.
  - destruct (Efree eq_refl) as (_ & Eup).
    assert (T : total upre = total (removelast upre) + ps).
    { rewrite Eup at 1. rewrite total_app. cbn [total]. lia. }
    rewrite Eup in G1. apply Forall_app in G1 as [_ G1].
    apply Forall_cons_iff in G1 as [[H _] _]. cbn [fst] in H.
    destruct post as [|[ns []] post']; try lia.
    pose proof (NS ns false post' eq_refl). lia.
Qed.

Lemma mm_realloc_spec s ubs fl fuel p szp size :
  heap_ok s ubs fl ->
  In (p, szp, true) (layout (mem_heap s + 32) ubs) ->
  0 < size <= 2 ^ 64 - 32 -> (length fl <= fuel)%nat ->
  exists r s1,
    mm_malloc fuel size s = Ok r s1 /\
    (r <> NULL ->
     exists s2 s3,
       copy_loop (Z.to_nat (Z.min szp size)) 0 r p s1 = Ok tt s2 /\
       (forall a, mem s2 a = copied (mem s1) r p (Z.min szp size) a) /\
       mm_free p s2 = Ok tt s3 /\
       mm_realloc fuel p size s = Ok r s3 /\
       realloc_post s s1 s3 p szp size r).
Proof.
  intros HOK Hp Hsize LEN.
  pose proof HOK as ((AR & TG & _) & _).
  pose proof AR as [A1 A2 A3 A4 A5].
  pose proof TG as (TG1 & TG2 & _).
  pose proof (Forall_good_okb _ TG1) as FO.
  set (lo := mem_heap s) in *.
  destruct (wp_run _ _ _ (mm_malloc_spec s ubs fl fuel size HOK Hsize LEN))
    as (r & s1 & Hm & Hpost).
  exists r, s1. split; [exact Hm|]. intros Hr.
  destruct Hpost as [[E _]|(_ & ubs1 & fl1 & MO)]; [contradiction|].
  destruct MO as (HOK1 & K1 & K2 & K4 & K3 & AK & FR1 & szr & Hin & Hszr & FRESH).
  fold lo in AK, FR1, Hin, FRESH.
  pose proof HOK1 as ((AR1 & TG' & _) & _).
  pose proof AR1 as [B1 B2 B3 B4 B5].
  pose proof TG' as (TG1' & TG2' & _). rewrite K2 in TG2'. fold lo in TG2'.
  pose proof (Forall_good_okb _ TG1') as FO1.
  pose proof (AK p szp Hp) as Hp1.
  assert (Nrp : r <> p).
  { intros ->. exact (FRESH szp Hp). }
  pose proof (layout_bounds _ _ _ _ _ FO1 Hp1) as Bp.
  pose proof (layout_bounds _ _ _ _ _ FO1 Hin) as Br.
  pose proof (layout_disjoint _ _ _ _ _ _ _ _ FO1 Hp1 Hin) as DJ.
  destruct (layout_split _ _ _ _ _ Hp1) as (upre1 & post1 & EU & Ep).
  assert (Gp : 32 <= szp /\ szp mod 16 = 0).
  { rewrite EU in TG1'. apply Forall_app in TG1' as [_ T].
    apply Forall_cons_iff in T as [T _]. exact T. }
  set (cnt := Z.min szp size) in *.
  assert (Hcnt : 0 <= cnt <= szp /\ cnt <= size) by (unfold cnt; lia).
  (* the copy *)
  destruct (wp_run _ _ _
    (copy_loop_spec r p (Z.to_nat cnt) 0 s1 ltac:(lia) ltac:(lia) ltac:(lia)
       ltac:(lia) ltac:(lia) ltac:(lia) ltac:(lia) ltac:(lia)))
    as ([] & s2 & Hc & SC2 & Hcopy).
  rewrite Z2Nat.id in Hcopy by lia.
  assert (Hcopy' : forall a, mem s2 a = copied (mem s1) r p cnt a).
  { intros a. rewrite Hcopy. unfold copied.
    replace (r + 0) with r by lia. reflexivity. }
  pose proof SC2 as (L1 & L2 & L3 & L4).
  assert (HOK2 : heap_ok s2 ubs1 fl1).
  { apply (heap_ok_frame s1); auto. rewrite K2. fold lo.
    intros a NP. rewrite Hcopy'. unfold copied.
    destruct (Z.leb_spec r a); destruct (Z.ltb_spec a (r + cnt)); cbn [andb];
      try reflexivity.
    exfalso. apply NP. unfold prologue. cbn [pay]. right.
    replace (lo + 16 + 16) with (lo + 32) by lia.
    apply (layout_pay _ _ r szr); auto. lia. }
  (* freeing the old block *)
  rewrite EU in HOK2.
  destruct (wp_run _ _ _ (mm_free_spec s2 upre1 szp post1 fl1 HOK2))
    as ([] & s3 & Hf & SC3 & Hfree).
  rewrite L2, K2 in Hf, Hfree. fold lo in Hf, Hfree. rewrite <- Ep in Hf, Hfree.
  exists s2, s3. split; [exact Hc|]. split; [exact Hcopy'|].
  split; [exact Hf|]. split.
  { unfold mm_realloc.
    destruct (Z.eqb_spec p NULL) as [E|_]; [unfold NULL in E; lia|].
    destruct (Z.eqb_spec size 0) as [E|_]; [lia|].
    assert (Hg : GET_SIZE (HDRP p) s = Ok szp s).
    { rewrite EU in TG'.
      pose proof HOK as ((_ & TGs & _) & _).
      destruct (layout_split _ _ _ _ _ Hp) as (upre0 & post0 & EU0 & Ep0).
      rewrite EU0 in TGs.
      destruct (tags_cur _ _ _ _ _ TGs A1) as (C1 & _ & _ & C4 & N1 & N2 & Eb).
      fold lo in C1, Eb. rewrite <- Ep0 in C1, Eb.
      unfold GET_SIZE, GET, bind, HDRP, PSUB, WSIZE.
      rewrite wrap_small by lia. rewrite in_arena_valid by (unfold valid; fold lo; lia).
      unfold ret. rewrite C1, size_bits_tag by auto. reflexivity. }
    unfold bind at 1. rewrite Hg.
    unfold bind at 1. rewrite Hm.
    replace (if size <=? szp then size else szp) with cnt
      by (unfold cnt; destruct (Z.leb_spec size szp); lia).
    unfold bind at 1. rewrite Hc.
    unfold bind at 1. rewrite Hf. reflexivity. }
  (* what the final state looks like *)
  pose proof (alloc_kept_coalesced lo upre1 szp post1) as AKc.
  assert (G1f : Forall good (upre1 ++ (szp, false) :: post1)).
  { rewrite EU in TG1'. apply Forall_app in TG1' as [T1 T2].
    apply Forall_cons_iff in T2 as [T2 T3]. apply Forall_app. split; auto. }
  pose proof (coalesced_covers upre1 szp post1 G1f) as CV.
  destruct (coalesced upre1 szp post1) as [[u' s'] p'].
  destruct Hfree as (HOK3 & FR3).
  destruct CV as [CV1 CV2].
  assert (Hinf : In (r, szr, true) (layout (lo + 32) (upre1 ++ (szp, false) :: post1))).
  { rewrite EU in Hin.
    apply (layout_replace _ upre1 [(szp, true)] [(szp, false)] post1); auto.
    cbn [layout]. intros [E|[]]. injection E as E _. lia. }
  assert (PAYr : forall a, r <= a < r + szr - 16 ->
            pay true (lo + 16) (prologue :: upre1 ++ (szp, false) :: post1) a).
  { intros a Ha. unfold prologue. cbn [pay]. right.
    replace (lo + 16 + 16) with (lo + 32) by lia.
    apply (layout_pay _ _ r szr); auto. }
  pose proof HOK3 as ((_ & (TG3 & _) & _) & _).
  pose proof (Forall_good_okb _ TG3) as FO3.
  exists (u' ++ (s', false) :: p'). eexists. exists szr.
  split; [exact HOK3|]. split; [apply AKc; exact Hinf|].
  split; [exact Hszr|]. split; [exact Nrp|]. split; [|split; [|split; [|split]]].
  - intros sz H. pose proof H as H'.
    apply (layout_addr_unique u' s' false p' (lo + 32)) in H'; auto.
    + destruct H'. discriminate.
    + assert (Hq : In (lo + 32 + total u', s', false)
                     (layout (lo + 32) (u' ++ (s', false) :: p'))).
      { rewrite layout_app. apply in_or_app. right. now left. }
      destruct (layout_disjoint _ _ _ _ _ _ _ _ FO3 H Hq) as [E|[E|E]]; auto.
      * apply layout_split in H as (x & y & Ex & _). rewrite Ex in FO3.
        apply Forall_app in FO3 as [_ FO3].
        apply Forall_cons_iff in FO3 as [(Q & _) _]. cbn [fst] in Q. lia.
      * lia.
  - exists (lo + 32 + total u'), s'. split; [|lia].
    rewrite layout_app. apply in_or_app. right. now left.
  - intros i Hi. unfold byte_at at 1. rewrite FR3 by (apply PAYr; lia).
    rewrite Hcopy'. unfold copied.
    destruct (Z.leb_spec r (r + i)); [|lia].
    destruct (Z.ltb_spec (r + i) (r + cnt)); [|lia]. cbn [andb].
    replace (p + (r + i - r)) with (p + i) by lia.
    unfold byte_at. apply Z.mod_mod. lia.
  - intros i Hi. unfold byte_at at 1. rewrite FR3 by (apply PAYr; lia).
    rewrite Hcopy'. unfold copied.
    destruct (Z.leb_spec r (r + i)); [|lia].
    destruct (Z.ltb_spec (r + i) (r + cnt)); [|lia]. cbn [andb].
    replace (p + (r + i - r)) with (p + i) by lia.
    unfold byte_at. rewrite Z.mod_mod by lia. f_equal.
    apply FR1. unfold prologue. cbn [pay]. right.
    replace (lo + 16 + 16) with (lo + 32) by lia.
    apply (layout_pay _ _ p szp); auto. lia.
  - intros a Ha. rewrite FR3 by (apply PAYr; lia).
    rewrite Hcopy'. unfold copied.
    destruct (Z.leb_spec r a); destruct (Z.ltb_spec a (r + cnt)); cbn [andb];
      try reflexivity. lia.
Qed.

(** * The heap walk, the list walk and the checker *)

Lemma print_heap_loop_spec s : forall (bs : list block) bp fuel,
  blocks (mem s) bp bs -> Forall okb bs ->
  mem_heap s + 16 <= bp -> bp + total bs = mem_brk s ->
  load (mem s) (mem_brk s - 8) = 1 -> mem_brk s < 2 ^ 63 -> 0 < mem_heap s ->
  (length bs <= fuel)%nat ->
  wp (print_heap_loop fuel bp)
     (fun r s' => s' = s /\ r = map line_of (layout bp bs)) s.
Proof.
  induction bs as [|[sz a] r IH]; intros bp fuel B F Hlo Hbrk He Hmax Hpos L.
  - cbn [total] in Hbrk.
    assert (E : print_heap_loop fuel bp =
                (sz <- GET_SIZE (HDRP bp) ;;
                 if 0 <? sz then
                   match fuel with
                   | O => fun _ => OutOfFuel
                   | S k => r <- print_block bp ;; nb <- NEXT_BLKP bp ;;
                            rest <- print_heap_loop k nb ;; ret (r :: rest)
                   end
                 else print_block bp ;;; ret []))
      by (destruct fuel; reflexivity).
    rewrite E. norm_ptr.
    assert (Eb : bp - 8 = mem_brk s - 8) by lia.
    apply wp_bind, wp_GET_SIZE; [unfold valid; lia|].
    rewrite Eb, He. change (size_bits 1) with 0. cbn [Z.ltb Z.compare].
    apply wp_bind. unfold print_block. norm_ptr.
    apply wp_bind, wp_GET_SIZE; [unfold valid; lia|].
    apply wp_bind, wp_GET_ALLOC; [unfold valid; lia|].
    apply wp_bind. unfold FTRP. norm_ptr.
    apply wp_bind, wp_GET_SIZE; [unfold valid; lia|].
    rewrite Eb, He. change (size_bits 1) with 0.
    apply wp_ret. norm_ptr.
    apply wp_bind, wp_GET_SIZE; [unfold valid; lia|].
    apply wp_bind, wp_GET_ALLOC; [unfold valid; lia|].
    apply wp_ret, wp_ret. cbn [layout map]. auto.
  - apply Forall_cons_iff in F as [(O1 & O2 & O3) F]. cbn [fst snd] in *.
    cbn [blocks] in B. destruct B as (B1 & B2 & B3).
    pose proof (total_nonneg _ F) as Ht. cbn [total] in Hbrk.
    destruct fuel as [|k]; [cbn [length] in L; lia|].
    cbn [print_heap_loop]. norm_ptr.
    apply wp_bind, wp_GET_SIZE; [unfold valid; lia|].
    rewrite B1, size_bits_tag by exact O2.
    destruct (Z.ltb_spec 0 sz) as [_|Hn]; [|lia].
    apply wp_bind. unfold print_block. norm_ptr.
    apply wp_bind, wp_GET_SIZE; [unfold valid; lia|].
    rewrite B1, size_bits_tag by exact O2.
    apply wp_bind, wp_GET_ALLOC; [unfold valid; lia|].
    rewrite B1, alloc_bit_tag by exact O2.
    apply wp_bind. unfold FTRP. norm_ptr.
    apply wp_bind, wp_GET_SIZE; [unfold valid; lia|].
    rewrite B1, size_bits_tag by exact O2.
    apply wp_ret. norm_ptr.
    replace (bp + (sz - 16)) with (bp + sz - 16) by lia.
    apply wp_bind, wp_GET_SIZE; [unfold valid; lia|].
    rewrite B2, size_bits_tag by exact O2.
    apply wp_bind, wp_GET_ALLOC; [unfold valid; lia|].
    rewrite B2, alloc_bit_tag by exact O2.
    apply wp_ret.
    apply wp_bind. unfold NEXT_BLKP. norm_ptr.
    apply wp_bind, wp_GET_SIZE; [unfold valid; lia|].
    rewrite B1, size_bits_tag by exact O2.
    apply wp_ret. norm_ptr. apply wp_bind.
    eapply wp_mono.
    + apply (IH (bp + sz) k); auto; try lia. cbn [length] in L. lia.
    + intros w s' [-> ->]. apply wp_ret. cbn [layout map line_of]. auto.
Qed.

Lemma print_heap_spec s ubs fl fuel :
  wf s ubs fl -> (length ubs < fuel)%nat ->
  print_heap fuel s =
  Ok (map line_of (layout (mem_heap s + 16) (prologue :: ubs))) s.
Proof.
  intros (AR & (T1 & T2 & T3 & T4) & _) L.
  pose proof AR as [A1 A2 A3 A4 A5].
  pose proof (total_nonneg _ (Forall_good_okb _ T1)) as Ht.
  unfold print_heap. rewrite A3.
  pose proof (print_heap_loop_spec s (prologue :: ubs) (mem_heap s + 16) fuel)
    as P.
  destruct (wp_run _ _ _ (P T3 (okb_all _ T1) ltac:(lia)
              ltac:(rewrite total_prologue; lia) T4 ltac:(lia) A1
              ltac:(cbn [length]; lia))) as (w & s' & E & -> & ->).
  exact E.
Qed.

Lemma free_list_loop_spec s lo : forall l prev fuel,
  dll (mem s) lo prev l ->
  Forall (fun b => mem_heap s <= b /\ b + 16 <= mem_brk s) l ->
  mem_brk s < 2 ^ 63 -> 0 < mem_heap s ->
  (length l <= fuel)%nat ->
  wp (free_list_loop fuel (hd 0 l)) (fun r s' => s' = s /\ r = l) s.
Proof.
  induction l as [|b r IH]; intros prev fuel D F Hmax Hpos L.
  - cbn [hd]. destruct fuel; cbn [free_list_loop];
      (replace (0 =? NULL) with true by reflexivity); apply wp_ret; auto.
  - cbn [hd]. cbn [dll] in D. destruct D as (D1 & D0 & D2 & D3).
    apply Forall_cons_iff in F as [[F1 F2] F].
    destruct fuel as [|k]; [cbn [length] in L; lia|].
    cbn [free_list_loop].
    destruct (Z.eqb_spec b NULL) as [E|_]; [unfold NULL in E; contradiction|].
    norm_ptr.
    apply wp_bind, wp_GET_PTR; [unfold valid; lia|].
    rewrite <- (cell_node lo b D0), (dll_hd _ _ _ _ D3).
    apply wp_bind. eapply wp_mono.
    + apply (IH b k); auto. cbn [length] in L. lia.
    + intros w s' [-> ->]. apply wp_ret. auto.
Qed.

Lemma free_list_spec s ubs fl fuel :
  wf s ubs fl -> (length fl <= fuel)%nat -> free_list fuel s = Ok fl s.
Proof.
  intros (AR & (T1 & T2 & T3 & T4) & (FL1 & FL2 & FL3)) L.
  pose proof AR as [A1 A2 A3 A4 A5].
  pose proof (total_nonneg _ (Forall_good_okb _ T1)) as Ht.
  assert (W : wp (free_list fuel) (fun r s' => s' = s /\ r = fl) s).
  { unfold free_list. apply wp_bind, wp_LL_START. rewrite A3. norm_ptr.
    replace (mem_heap s + 16 - 16) with (mem_heap s) by lia.
    apply wp_bind, wp_GET_PTR; [unfold valid; lia|].
    change (mem_heap s) with (cell (mem_heap s) 0) at 1.
    rewrite (dll_hd _ _ _ _ FL1).
    apply (free_list_loop_spec s (mem_heap s) fl 0 fuel); auto; try lia.
    apply Forall_forall. intros b Hb. apply FL3 in Hb.
    pose proof (free_addrs_bounds _ _ _ (Forall_good_okb _ T1) Hb). lia. }
  destruct (wp_run _ _ _ W) as (w & s' & E & -> & ->). exact E.
Qed.

Lemma check_heap_loop_spec s : forall (bs : list block) bp fuel,
  blocks (mem s) bp bs -> Forall okb bs ->
  mem_heap s + 8 <= bp -> bp + total bs = mem_brk s -> bp mod 16 = 0 ->
  load (mem s) (mem_brk s - 8) = 1 -> mem_brk s < 2 ^ 63 -> 0 < mem_heap s ->
  (length bs <= fuel)%nat ->
  wp (check_heap_loop fuel bp) (fun r s' => s' = s /\ r = true) s.
Proof.
  induction bs as [|[sz a] r IH];
    intros bp fuel B F Hlo Hbrk Hal He Hmax Hpos L.
  - cbn [total] in Hbrk.
    assert (E : check_heap_loop fuel bp =
                (sz <- GET_SIZE (HDRP bp) ;;
                 if 0 <? sz then
                   match fuel with
                   | O => fun _ => OutOfFuel
                   | S k => ok <- check_block bp ;;
                            if negb ok then ret false
                            else nb <- NEXT_BLKP bp ;; check_heap_loop k nb
                   end
                 else
                   a <- GET_ALLOC (HDRP bp) ;;
                   if negb (sz =? 0) || (a =? 0) then ret false else ret true))
      by (destruct fuel; reflexivity).
    rewrite E. norm_ptr.
    apply wp_bind, wp_GET_SIZE; [unfold valid; lia|].
    replace (bp - 8) with (mem_brk s - 8) by lia. rewrite He.
    change (size_bits 1) with 0. cbn [Z.ltb Z.compare].
    apply wp_bind, wp_GET_ALLOC; [unfold valid; lia|].
    rewrite He. change (alloc_bit 1) with 1.
    apply wp_ret. auto.
  - apply Forall_cons_iff in F as [(O1 & O2 & O3) F]. cbn [fst snd] in *.
    cbn [blocks] in B. destruct B as (B1 & B2 & B3).
    pose proof (total_nonneg _ F) as Ht. cbn [total] in Hbrk.
    destruct fuel as [|k]; [cbn [length] in L; lia|].
    cbn [check_heap_loop]. norm_ptr.
    apply wp_bind, wp_GET_SIZE; [unfold valid; lia|].
    rewrite B1, size_bits_tag by exact O2.
    destruct (Z.ltb_spec 0 sz) as [_|Hn]; [|lia].
    apply wp_bind. unfold check_block. norm_ptr. rewrite Hal.
    cbn [Z.eqb negb].
    apply wp_bind, wp_GET; [unfold valid; lia|].
    apply wp_bind. unfold FTRP. norm_ptr.
    apply wp_bind, wp_GET_SIZE; [unfold valid; lia|].
    rewrite B1, size_bits_tag by exact O2.
    apply wp_ret. norm_ptr.
    replace (bp + (sz - 16)) with (bp + sz - 16) by lia.
    apply wp_bind, wp_GET; [unfold valid; lia|].
    rewrite B2, Z.eqb_refl. cbn [negb].
    apply wp_ret. cbn [negb].
    apply wp_bind. unfold NEXT_BLKP. norm_ptr.
    apply wp_bind, wp_GET_SIZE; [unfold valid; lia|].
    rewrite B1, size_bits_tag by exact O2.
    apply wp_ret. norm_ptr.
    apply (IH (bp + sz) k); auto; try lia.
    + rewrite Z.add_mod, Hal, O2 by lia. reflexivity.
    + cbn [length] in L. lia.
Qed.

Lemma check_heap_spec s ubs fl fuel :
  wf s ubs fl -> (length ubs < fuel)%nat -> check_heap fuel s = Ok true s.
Proof.
  intros (AR & (T1 & T2 & T3 & T4) & _) L.
  pose proof AR as [A1 A2 A3 A4 A5].
  pose proof (total_nonneg _ (Forall_good_okb _ T1)) as Ht.
  assert (W : wp (check_heap fuel) (fun r s' => s' = s /\ r = true) s).
  { unfold wp, check_heap. fold (wp (A := bool)). rewrite A3.
    pose proof T3 as T3'. unfold prologue in T3'. cbn [blocks] in T3'.
    destruct T3' as (P1 & P2 & _).
    replace (mem_heap s + 16 - 8) with (mem_heap s + 8) in P1 by lia.
    change (match ?c s with Ok a s' => ?Q a s' | _ => False end)
      with (wp c Q s).
    norm_ptr.
    replace (mem_heap s + 16 - 8) with (mem_heap s + 8) by lia.
    apply wp_bind, wp_GET_SIZE; [unfold valid; lia|].
    rewrite P1, size_bits_tag by reflexivity.
    apply wp_bind, wp_GET_ALLOC; [unfold valid; lia|].
    rewrite P1, alloc_bit_tag by reflexivity.
    cbn [Z.eqb Pos.eqb negb orb Z.b2z].
    apply (check_heap_loop_spec s (prologue :: ubs)); auto; try lia.
    all: try exact (okb_all _ T1).
    all: try (rewrite total_prologue; lia).
    rewrite Z.add_mod, A2 by lia. reflexivity. }
  destruct (wp_run _ _ _ W) as (w & s' & E & -> & ->). exact E.
Qed.

Lemma b2z_eqb_0 a : (Z.b2z a =? 0) = negb a.
Proof. now destruct a. Qed.

Lemma walk_free_layout (bs : list block) : forall bp,
  walk_free (map line_of (layout bp bs)) = free_addrs bp bs.
Proof.
  unfold walk_free.
  induction bs as [|[sz a] r IH]; intros bp; [reflexivity|].
  cbn [layout map line_of filter fst snd free_addrs].
  rewrite b2z_eqb_0. destruct a; cbn [negb map app fst]; now rewrite IH.
Qed.

Lemma adjacent_free_layout (bs : list block) : forall bp,
  adjacent_free (map line_of (layout bp bs)) = negb (no_adj_free bs).
Proof.
  induction bs as [|[sz a] r IH]; intros bp; [reflexivity|].
  destruct r as [|[sz' a'] r']; [reflexivity|].
  specialize (IH (bp + sz)).
  cbn [layout map line_of] in IH |- *.
  cbn [adjacent_free no_adj_free fst snd] in IH |- *.
  rewrite IH, !b2z_eqb_0, negb_andb, negb_orb. reflexivity.
Qed.

Lemma tags_agree_layout (bs : list block) : forall bp,
  tags_agree (map line_of (layout bp bs)) = true.
Proof.
  unfold tags_agree.
  induction bs as [|[sz a] r IH]; intros bp; [reflexivity|].
  cbn [layout map line_of forallb fst snd].
  now rewrite !Z.eqb_refl, IH.
Qed.

(** * The properties of the allocator *)

(** ** Adjusted size *)

(** C3, as stated, fails for the largest requests: the 64-bit arithmetic of
    the rounding wraps around, and the request of [2^64 - 16] bytes gets the
    adjusted size 0, below both the request plus overhead and the minimum
    block size. *)
Lemma adjusted_size_wraps :
  0 < 2 ^ 64 - 16 < 2 ^ 64 /\
  adjusted_size (2 ^ 64 - 16) = 0 /\
  ~ (2 ^ 64 - 16 + 16 <= adjusted_size (2 ^ 64 - 16)) /\
  ~ (32 <= adjusted_size (2 ^ 64 - 16)).
Proof.
  assert (E : adjusted_size (2 ^ 64 - 16) = 0) by (vm_compute; reflexivity).
  rewrite E. lia.
Qed.

(** C3, amended: for every requested size with [0 < size <= 2^64 - 32] the
    adjusted block size is the least multiple of 16 that is at least
    [size + 16] and at least 32; in particular it is at least
    [size + 16]. *)
Theorem adjusted_size_least size :
  0 < size <= 2 ^ 64 - 32 ->
  adjusted_size size mod 16 = 0 /\
  size + 16 <= adjusted_size size /\
  32 <= adjusted_size size /\
  forall m, m mod 16 = 0 -> size + 16 <= m -> 32 <= m ->
            adjusted_size size <= m.
Proof.
  intros H. destruct (adjusted_size_spec size H) as (A1 & A2 & A3 & A4).
  repeat split; try assumption.
  intros m M1 M2 M3.
  pose proof (Z.div_mod m 16 ltac:(lia)) as Dm.
  pose proof (Z.div_mod (adjusted_size size) 16 ltac:(lia)) as Da.
  rewrite M1 in Dm. rewrite A1 in Da. lia.
Qed.

Lemma adjusted_size_least_witness :
  0 < 100 <= 2 ^ 64 - 32 /\
  adjusted_size 100 = 128 /\
  (adjusted_size 100 mod 16 = 0 /\
   100 + 16 <= adjusted_size 100 /\
   32 <= adjusted_size 100 /\
   forall m, m mod 16 = 0 -> 100 + 16 <= m -> 32 <= m ->
             adjusted_size 100 <= m).
Proof.
  split; [lia|]. split; [reflexivity|].
  apply (adjusted_size_least 100). lia.
Defined.

(** ** Freeing the null pointer *)

(** C9: [mm_free] has no guard for the null pointer.  Its first step reads
    the header word in front of its argument, which for [NULL] is the word at
    [2^64 - 8]; no heap reaches that address, so the call faults instead of
    returning. *)
Theorem mm_free_null_unguarded s :
  mem_brk s < 2 ^ 64 ->
  HDRP NULL = 2 ^ 64 - 8 /\ mm_free NULL s = Fault.
Proof.
  intros H. split; [reflexivity|].
  unfold mm_free, FTRP, GET_SIZE, GET, bind.
  change (HDRP NULL) with (2 ^ 64 - 8).
  assert (E : in_arena s (2 ^ 64 - 8) 8 = false).
  { unfold in_arena. apply andb_false_iff. right. apply Z.leb_gt. lia. }
  now rewrite E.
Qed.

Lemma mm_free_null_unguarded_witness :
  mem_brk (after mm_init (fresh 65536)) < 2 ^ 64 /\
  HDRP NULL = 2 ^ 64 - 8 /\
  mm_free NULL (after mm_init (fresh 65536)) = Fault.
Proof.
  assert (H : mem_brk (after mm_init (fresh 65536)) < 2 ^ 64)
    by (vm_compute; reflexivity).
  exact (conj H (mm_free_null_unguarded _ H)).
Defined.

(** ** Requests whose adjusted size wraps around *)

(** C4: after [mm_init], two allocations of 16 bytes and the release of the
    first, the free blocks of the walk and the free list agree; after the
    further request of [2^64 - 16] bytes the walk still shows the blocks at
    4128 and 4192 as free, while the free list holds 4192 alone. *)
Theorem free_list_loses_block :
  forget (observe (run_before (fresh 65536))
            (fun _ => x <- survey 8 ;;
                      ret (walk_free (fst (fst x)), snd (fst x)))) =
  Some ([4128; 4192], [4128; 4192]) /\
  forget (observe (run_overflow (fresh 65536))
            (fun _ => x <- survey 8 ;;
                      ret (walk_free (fst (fst x)), snd (fst x)))) =
  Some ([4128; 4192], [4192]).
Proof. split; vm_compute; reflexivity. Qed.

(** C7: after the same run the prologue has the header (16, 1) and the
    footer (0, 1), the block at 4128 has the header (64, 0) and the footer
    (32, 1), and [check_heap] answers false; before the last request all
    tags agree and [check_heap] answers true. *)
Theorem tags_disagree_after_overflow :
  forget (observe (run_before (fresh 65536))
            (fun _ => x <- survey 8 ;;
                      ret (tags_agree (fst (fst x)), snd x))) =
  Some (true, true) /\
  forget (observe (run_overflow (fresh 65536))
            (fun _ => x <- survey 8 ;;
                      ret (fst (fst x), tags_agree (fst (fst x)), snd x))) =
  Some ([(4112, (16, 1), (0, 1)); (4128, (64, 0), (32, 1));
         (4192, (4032, 0), (4032, 0))], false, false).
Proof. split; vm_compute; reflexivity. Qed.

(** C10: in the same run the second allocation returns 4160 and is never
    released; the request of [2^64 - 16] bytes then returns 4128, the
    header in front of 4128 gives that block 64 bytes, and the header of the
    live block at 4160 (size 32, allocated) lies inside it. *)
Theorem overflow_request_overlaps_live_block :
  forget (observe (run_overflow (fresh 65536))
            (fun '(a, b, c) =>
               hb <- GET (HDRP b) ;;
               hc <- GET (HDRP c) ;;
               ret (b, c, (size_bits hb, alloc_bit hb), size_bits hc))) =
  Some (4160, 4128, (32, 1), 64).
Proof. vm_compute. reflexivity. Qed.

(** ** Resizing *)

(** C1: in an arena of 4128 bytes, after [mm_init] and one allocation of
    16 bytes at 4128, a request of 8192 bytes cannot be served and
    [mm_malloc] returns [NULL]; [mm_realloc] for the same size does not
    return: it copies through the null pointer and faults. *)
Theorem realloc_failure_faults :
  forget ((mm_init ;;; mm_malloc 8 16) (fresh 4128)) = Some 4128 /\
  forget ((mm_init ;;; mm_malloc 8 16 ;;; mm_malloc 8 8192) (fresh 4128)) =
  Some NULL /\
  (mm_init ;;; a <- mm_malloc 8 16 ;; mm_realloc 8 a 8192) (fresh 4128) =
  Fault.
Proof. repeat split; vm_compute; reflexivity. Qed.

(** C2, as stated, fails: the block at 4128 has 16 bytes of payload and is
    resized to 32 bytes.  Both versions return 4160; copying
    [min (16, 32)] bytes leaves the payload byte 16 of the new block at 0,
    while [mm_realloc] has copied the first byte of the old footer, 33,
    into it. *)
Lemma realloc_copies_past_payload :
  forget ((mm_init ;;; mm_malloc 8 16) (fresh 65536)) = Some 4128 /\
  forget (observe ((mm_init ;;; mm_malloc 8 16 ;;;
                    resize_as_specified 8 4128 32) (fresh 65536))
            (fun r => b <- GET_BYTE (PADD r 16) ;; ret (r, b))) =
  Some (4160, 0) /\
  forget (observe ((mm_init ;;; mm_malloc 8 16 ;;; mm_realloc 8 4128 32)
                     (fresh 65536))
            (fun r => b <- GET_BYTE (PADD r 16) ;; ret (r, b))) =
  Some (4160, 33).
Proof. repeat split; vm_compute; reflexivity. Qed.

(** ** Placement *)

Lemma survey_spec s ubs fl fuel :
  wf s ubs fl -> (length ubs < fuel)%nat -> (length fl <= fuel)%nat ->
  survey fuel s = Ok (walk_of (mem_heap s) ubs, fl, true) s.
Proof.
  intros W L1 L2. unfold survey, bind.
  rewrite (print_heap_spec s ubs fl fuel W L1).
  rewrite (free_list_spec s ubs fl fuel W L2).
  rewrite (check_heap_spec s ubs fl fuel W L1). reflexivity.
Qed.

(** Settles a well-formedness statement about a concrete state by
    evaluation. *)
Ltac eval_heap_ok :=
  unfold heap_ok, wf, tags, flist;
  split; [split; [|split]|];
  [ constructor; vm_compute; congruence
  | split; [|split; [|split]];
    [ repeat constructor; vm_compute; congruence
    | vm_compute; reflexivity
    | vm_compute; tauto
    | vm_compute; reflexivity ]
  | split; [|split];
    [ vm_compute; intuition congruence
    | repeat constructor; simpl; intuition congruence
    | intros ?; vm_compute; tauto ]
  | reflexivity ].

(** C8: placing a request of adjusted size [A] in a free block of size
    [S >= A] succeeds.  When [S - A < 32] the whole block of size [S] is
    marked allocated and leaves the free list; otherwise the block is split
    into an allocated block of size [A] and a free block of size [S - A],
    which enters the free list, and the two sizes add up to [S].  All other
    blocks stay as they are. *)
Theorem place_split_or_whole s (upre : list block) S (post : list block) fl A :
  heap_ok s (upre ++ (S, false) :: post) fl ->
  32 <= A <= S -> A mod 16 = 0 ->
  exists s',
    place (mem_heap s + 32 + total upre) A s = Ok tt s' /\
    (S - A < 32 ->
     heap_ok s' (upre ++ (S, true) :: post)
       (remove Z.eq_dec (mem_heap s + 32 + total upre) fl) /\
     ~ In (mem_heap s + 32 + total upre)
          (remove Z.eq_dec (mem_heap s + 32 + total upre) fl)) /\
    (32 <= S - A ->
     heap_ok s' (upre ++ (A, true) :: (S - A, false) :: post)
       ((mem_heap s + 32 + total upre + A) ::
        remove Z.eq_dec (mem_heap s + 32 + total upre) fl) /\
     total [(A, true); (S - A, false)] = S).
Proof.
  intros H HA A16.
  destruct (wp_run _ _ _ (place_spec s upre S post fl A H HA A16))
    as ([] & s' & E & _ & R & _).
  exists s'. split; [exact E|].
  destruct (Z.ltb_spec (S - A) 32) as [Hlt|Hge]; split; intros Hc;
    try lia.
  - split; [exact R|]. apply remove_In.
  - split; [exact R|]. cbn [total]. lia.
Qed.

Lemma place_split_or_whole_witness :
  heap_ok (after mm_init (fresh 65536)) ([] ++ (4096, false) :: []) [4128] /\
  exists s',
    place 4128 48 (after mm_init (fresh 65536)) = Ok tt s' /\
    heap_ok s' [(48, true); (4048, false)] [4176].
Proof.
  assert (H : heap_ok (after mm_init (fresh 65536))
                ([] ++ (4096, false) :: []) [4128]) by eval_heap_ok.
  split; [exact H|].
  destruct (place_split_or_whole _ [] 4096 [] [4128] 48 H
              ltac:(lia) eq_refl) as (s' & E & _ & R).
  exists s'. split; [exact E|]. apply R. lia.
Defined.

(** ** Coalescing between two free neighbours *)

Lemma coalesced_both (upre : list block) ps sz ns (post : list block) :
  coalesced (upre ++ [(ps, false)]) sz ((ns, false) :: post) =
  (upre, ps + sz + ns, post).
Proof.
  unfold coalesced, prev_free, next_free.
  rewrite last_last, removelast_last. reflexivity.
Qed.

Lemma coalesced_list_both bp (upre : list block) ps sz ns
  (post : list block) fl :
  coalesced_list bp (upre ++ [(ps, false)]) sz ((ns, false) :: post) fl =
  remove Z.eq_dec bp (remove Z.eq_dec (bp + sz) fl).
Proof.
  unfold coalesced_list, prev_free, next_free.
  rewrite last_last. reflexivity.
Qed.

Lemma NoDup_count_one (l : list Z) x :
  NoDup l -> In x l -> count_occ Z.eq_dec l x = 1%nat.
Proof.
  intros ND H. apply (proj1 (NoDup_count_occ Z.eq_dec l)) with (x := x) in ND.
  apply (count_occ_In Z.eq_dec) in H. lia.
Qed.

(** C6: the block at [bp] is free and in the free list, and so are the
    block before it, at [P], and the block after it, at [N].  Then
    [coalesce bp] returns [P]; the header of [P] and the footer position of
    [N] hold the sum of the three sizes with the free flag; the heap is
    well formed with the three blocks replaced by one; [bp] and [N] have
    left the free list, which is otherwise as before; and the merged block
    [P] is in the free list exactly once. *)
Theorem coalesce_both_free s (upre : list block) ps sz ns
  (post : list block) fl P bp N :
  wf s (upre ++ (ps, false) :: (sz, false) :: (ns, false) :: post) fl ->
  P = mem_heap s + 32 + total upre -> bp = P + ps -> N = bp + sz ->
  exists s',
    coalesce bp s = Ok P s' /\
    load (mem s') (P - 8) = PACK (ps + sz + ns) 0 /\
    load (mem s') (N + ns - 16) = PACK (ps + sz + ns) 0 /\
    wf s' (upre ++ (ps + sz + ns, false) :: post)
       (remove Z.eq_dec bp (remove Z.eq_dec N fl)) /\
    free_list (length fl) s' =
      Ok (remove Z.eq_dec bp (remove Z.eq_dec N fl)) s' /\
    ~ In bp (remove Z.eq_dec bp (remove Z.eq_dec N fl)) /\
    ~ In N (remove Z.eq_dec bp (remove Z.eq_dec N fl)) /\
    count_occ Z.eq_dec (remove Z.eq_dec bp (remove Z.eq_dec N fl)) P = 1%nat.
Proof.
  intros WF EP Ebp EN.
  assert (WF0 : wf s ((upre ++ [(ps, false)]) ++ (sz, false) ::
                        (ns, false) :: post) fl).
  { rewrite <- app_assoc. exact WF. }
  pose proof (coalesce_spec s _ sz _ fl WF0) as C.
  rewrite coalesced_both, coalesced_list_both in C.
  rewrite total_app in C. cbn [total] in C. rewrite Z.add_0_r in C.
  replace (mem_heap s + 32 + (total upre + ps)) with bp in C by lia.
  rewrite <- EN in C.
  destruct (wp_run _ _ _ C) as (r & s' & E & SC & -> & WF' & _).
  rewrite <- EP in E.
  exists s'. split; [exact E|].
  pose proof WF' as (AR' & TG' & (FL1 & FL2 & FL3)).
  destruct SC as (_ & SC2 & _).
  destruct (tags_cur _ _ _ _ _ TG' (ar_pos _ AR'))
    as (C1 & C2 & _ & _ & _ & _ & _).
  rewrite SC2, <- EP, tag_free in C1, C2.
  rewrite PACK_free.
  split; [exact C1|].
  split; [rewrite <- C2; f_equal; lia|].
  split; [exact WF'|].
  split.
  { apply (free_list_spec s' _ _ _ WF').
    etransitivity; apply remove_length_le. }
  split; [apply remove_In|].
  split.
  - intros Hin. apply in_remove in Hin as [Hin _].
    now apply remove_In in Hin.
  - apply NoDup_count_one; [exact FL2|].
    apply FL3. rewrite SC2, free_addrs_app. apply in_or_app. right.
    cbn [free_addrs app]. left. lia.
Qed.

Ltac eval_wf :=
  unfold wf, tags, flist;
  split; [|split];
  [ constructor; vm_compute; congruence
  | split; [|split; [|split]];
    [ repeat constructor; vm_compute; congruence
    | vm_compute; reflexivity
    | vm_compute; tauto
    | vm_compute; reflexivity ]
  | split; [|split];
    [ vm_compute; intuition congruence
    | repeat constructor; simpl; intuition congruence
    | intros ?; vm_compute; tauto ] ].

Lemma coalesce_both_free_witness :
  wf three_free
     ([] ++ (32, false) :: (32, false) :: (32, false) ::
            [(32, true); (3968, false)])
     [4160; 4192; 4128; 4256] /\
  exists s',
    coalesce 4160 three_free = Ok 4128 s' /\
    load (mem s') (4128 - 8) = 96 /\
    load (mem s') (4192 + 32 - 16) = 96 /\
    wf s' [(96, false); (32, true); (3968, false)] [4128; 4256].
Proof.
  assert (H : wf three_free
                ([] ++ (32, false) :: (32, false) :: (32, false) ::
                       [(32, true); (3968, false)])
                [4160; 4192; 4128; 4256]) by eval_wf.
  split; [exact H|].
  destruct (coalesce_both_free three_free [] 32 32 32
              [(32, true); (3968, false)] [4160; 4192; 4128; 4256]
              4128 4160 4192 H eq_refl eq_refl eq_refl)
    as (s' & E & L1 & L2 & W & _).
  exists s'. exact (conj E (conj L1 (conj L2 W))).
Defined.

(** ** No two adjacent free blocks *)

Lemma coalesced_length (upre : list block) sz (post : list block) :
  (length (fst (fst (coalesced upre sz post))) <= length upre)%nat /\
  (length (snd (coalesced upre sz post)) <= length post)%nat.
Proof.
  unfold coalesced.
  assert (L1 : (length (removelast upre) <= length upre)%nat).
  { destruct upre as [|b l]; [cbn; lia|].
    rewrite (app_removelast_last b (l := b :: l)) at 2 by discriminate.
    rewrite length_app. lia. }
  assert (L2 : (length (tl post) <= length post)%nat)
    by (destruct post; cbn; lia).
  destruct (prev_free upre), (next_free post); cbn [fst snd]; lia.
Qed.

Lemma walk_no_adjacent s ubs fl fuel :
  heap_ok s ubs fl -> (length ubs < fuel)%nat ->
  print_heap fuel s = Ok (walk_of (mem_heap s) ubs) s /\
  adjacent_free (walk_of (mem_heap s) ubs) = false.
Proof.
  intros [WF NAF] L. split; [now apply (print_heap_spec s ubs fl)|].
  unfold walk_of. rewrite adjacent_free_layout.
  unfold prologue. destruct ubs as [|[sz a] r]; [reflexivity|].
  change (no_adj_free ((16, true) :: (sz, a) :: r))
    with ((true || a) && no_adj_free ((sz, a) :: r)).
  now rewrite NAF.
Qed.

(** C5: in a well-formed heap without adjacent free blocks, [mm_free] of a
    live block returns, and so does [extend_heap]; in the state either of
    them returns in, the heap is again well formed and the walk of
    [print_heap] shows no two consecutive blocks that are both free. *)
Theorem no_adjacent_free_after_free_or_grow s ubs fl fuel :
  heap_ok s ubs fl -> (length ubs + 1 < fuel)%nat ->
  (forall p sz, In (p, sz, true) (layout (mem_heap s + 32) ubs) ->
     exists s' ubs' fl',
       mm_free p s = Ok tt s' /\ heap_ok s' ubs' fl' /\
       print_heap fuel s' = Ok (walk_of (mem_heap s') ubs') s' /\
       adjacent_free (walk_of (mem_heap s') ubs') = false) /\
  (forall words, 3 <= words -> words * 8 + 8 < 2 ^ 64 ->
     exists r s' ubs' fl',
       extend_heap words s = Ok r s' /\ heap_ok s' ubs' fl' /\
       print_heap fuel s' = Ok (walk_of (mem_heap s') ubs') s' /\
       adjacent_free (walk_of (mem_heap s') ubs') = false).
Proof.
  intros H L. split.
  - intros p sz Hin.
    apply layout_split in Hin as (upre & post & -> & ->).
    destruct (wp_run _ _ _ (mm_free_spec s upre sz post fl H))
      as ([] & s' & E & _ & R).
    pose proof (coalesced_length upre sz post) as [L1 L2].
    destruct (coalesced upre sz post) as [[upre' sz'] post'].
    cbn [fst snd] in L1, L2. destruct R as [R _].
    exists s', (upre' ++ (sz', false) :: post'). eexists.
    split; [exact E|]. split; [exact R|].
    apply (walk_no_adjacent _ _ _ _ R).
    rewrite length_app in L |- *. cbn [length] in L |- *. lia.
  - intros words W1 W2.
    destruct (wp_run _ _ _ (extend_heap_spec s ubs fl words H W1 W2))
      as (r & s' & E & R).
    destruct (mem_brk s + even_bytes words <=? mem_max_addr s).
    + destruct R as [_ R].
      pose proof (coalesced_length ubs (even_bytes words) []) as [L1 L2].
      destruct (coalesced ubs (even_bytes words) [])
        as [[upre' sz'] post'].
      cbn [fst snd length] in L1, L2. destruct R as (_ & R & _).
      exists r, s', (upre' ++ (sz', false) :: post'). eexists.
      split; [exact E|]. split; [exact R|].
      apply (walk_no_adjacent _ _ _ _ R).
      rewrite length_app. cbn [length]. lia.
    + destruct R as [-> ->].
      exists NULL, s, ubs, fl.
      split; [exact E|]. split; [exact H|].
      apply (walk_no_adjacent _ _ _ _ H). lia.
Qed.

Lemma no_adjacent_free_after_free_or_grow_witness :
  heap_ok one_released
    [(32, false); (32, true); (32, true); (4000, false)] [4128; 4224] /\
  (exists s' w,
     mm_free 4160 one_released = Ok tt s' /\
     print_heap 8 s' = Ok w s' /\ adjacent_free w = false) /\
  (exists r s' w,
     extend_heap 512 one_released = Ok r s' /\
     print_heap 8 s' = Ok w s' /\ adjacent_free w = false).
Proof.
  assert (H : heap_ok one_released
                [(32, false); (32, true); (32, true); (4000, false)]
                [4128; 4224]) by eval_heap_ok.
  split; [exact H|].
  destruct (no_adjacent_free_after_free_or_grow one_released _ _ 8 H
              ltac:(cbn [length]; lia)) as [F G].
  split.
  - destruct (F 4160 32) as (s' & ubs' & fl' & E & _ & W & A).
    + vm_compute. tauto.
    + exists s'. eexists. exact (conj E (conj W A)).
  - destruct (G 512 ltac:(lia) ltac:(lia))
      as (r & s' & ubs' & fl' & E & _ & W & A).
    exists r, s'. eexists. exact (conj E (conj W A)).
Defined.

(** ** Resizing a live block *)

(** C2, amended: [p] is a live block of size [szp] (header and footer
    included) and [0 < size <= 2^64 - 32].  The allocation inside
    [mm_realloc] returns; when it returns a block [r], [mm_realloc] returns
    [r] as well, [r] is a live block with room for [size] bytes and differs
    from [p], the block at [p] is free, and exactly the first
    [min (szp, size)] bytes at [r] have been overwritten with the bytes
    found at [p]: the rest of the payload of [r] is as the allocation left
    it.  The first [min (szp - 16, size)] of these bytes are the payload
    bytes the old block had before the call. *)
Theorem realloc_copies_block_size s ubs fl fuel p szp size :
  heap_ok s ubs fl ->
  In (p, szp, true) (layout (mem_heap s + 32) ubs) ->
  0 < size <= 2 ^ 64 - 32 -> (length fl <= fuel)%nat ->
  exists r s1,
    mm_malloc fuel size s = Ok r s1 /\
    (r <> NULL ->
     exists s3 ubs3 fl3 szr,
       mm_realloc fuel p size s = Ok r s3 /\
       heap_ok s3 ubs3 fl3 /\
       In (r, szr, true) (layout (mem_heap s + 32) ubs3) /\
       size + 16 <= szr /\ r <> p /\
       (forall sz, ~ In (p, sz, true) (layout (mem_heap s + 32) ubs3)) /\
       (forall i, 0 <= i < Z.min szp size ->
                  byte_at (mem s3) (r + i) = byte_at (mem s1) (p + i)) /\
       (forall a, r + Z.min szp size <= a < r + szr - 16 ->
                  mem s3 a = mem s1 a) /\
       (forall i, 0 <= i < Z.min (szp - 16) size ->
                  byte_at (mem s3) (r + i) = byte_at (mem s) (p + i))).
Proof.
  intros H Hp Hs L.
  destruct (mm_realloc_spec s ubs fl fuel p szp size H Hp Hs L)
    as (r & s1 & E & R).
  exists r, s1. split; [exact E|]. intros Hr.
  destruct (R Hr) as (s2 & s3 & _ & _ & _ & E3 & P).
  destruct P as (ubs3 & fl3 & szr & P1 & P2 & P3 & P4 & P5 & _ & P7 & P8 & P9).
  exists s3, ubs3, fl3, szr. tauto.
Qed.

Lemma realloc_copies_block_size_witness :
  heap_ok one_live [(32, true); (4064, false)] [4160] /\
  In (4128, 32, true) (layout (mem_heap one_live + 32)
                         [(32, true); (4064, false)]) /\
  exists s1 s3,
    mm_malloc 8 32 one_live = Ok 4160 s1 /\
    mm_realloc 8 4128 32 one_live = Ok 4160 s3 /\
    (forall i, 0 <= i < 32 ->
               byte_at (mem s3) (4160 + i) = byte_at (mem s1) (4128 + i)).
Proof.
  assert (H : heap_ok one_live [(32, true); (4064, false)] [4160])
    by eval_heap_ok.
  assert (Hp : In (4128, 32, true) (layout (mem_heap one_live + 32)
                                      [(32, true); (4064, false)]))
    by (vm_compute; tauto).
  split; [exact H|]. split; [exact Hp|].
  destruct (realloc_copies_block_size one_live _ _ 8 4128 32 32 H Hp
              ltac:(lia) ltac:(cbn [length]; lia)) as (r & s1 & E & R).
  assert (Er : forget (mm_malloc 8 32 one_live) = Some 4160)
    by (vm_compute; reflexivity).
  rewrite E in Er. cbn [forget] in Er. injection Er as ->.
  destruct (R ltac:(discriminate))
    as (s3 & ubs3 & fl3 & szr & E3 & _ & _ & _ & _ & _ & C & _).
  exists s1, s3. exact (conj E (conj E3 C)).
Defined.

(** * Sessions *)

(** ** Initialisation *)

Lemma wp_modify (f : state -> state) (Q : unit -> state -> Prop) s :
  Q tt (f s) -> wp (fun s0 => Ok tt (f s0)) Q s.
Proof. intros H. exact H. Qed.

Lemma mm_init_spec s :
  0 < mem_heap s -> mem_heap s mod 16 = 0 -> mem_brk s = mem_heap s ->
  mem_heap s + 4128 <= mem_max_addr s -> mem_max_addr s < 2 ^ 63 ->
  wp mm_init
     (fun r s' =>
        r = 0 /\ heap_ok s' [(4096, false)] [mem_heap s + 32] /\
        mem_heap s' = mem_heap s /\ mem_max_addr s' = mem_max_addr s) s.
Proof.
  intros Hpos Hal Hbrk Hroom Hmax.
  set (lo := mem_heap s) in *.
  unfold mm_init.
  apply wp_bind. unfold wp at 1, mem_sbrk. rewrite Hbrk.
  change (4 * WSIZE) with 32.
  destruct (Z.leb_spec (lo + 32) (mem_max_addr s)) as [_|Hno]; [|lia].
  apply wp_bind, (wp_modify (fun s0 => set_heap_start s0 lo)).
  destruct (Z.eqb_spec lo NULL) as [E|_]; [unfold NULL in E; lia|].
  set (s1 := set_heap_start (set_brk s (lo + 32)) lo).
  assert (V1 : forall p, lo <= p -> p + 8 <= lo + 32 -> valid s1 p).
  { intros p H1 H2. unfold valid.
    cbn [mem_heap mem_brk s1 set_brk set_heap_start]. fold lo. lia. }
  norm_ptr.
  apply wp_bind, wp_PUT_PTR; [apply V1; lia|].
  apply wp_bind, wp_PUT; [apply V1; lia|].
  apply wp_bind, wp_PUT; [apply V1; lia|].
  apply wp_bind, wp_PUT; [apply V1; lia|].
  apply wp_bind,
    (wp_modify (fun s0 => set_heap_start s0 (PADD (heap_start s0) DSIZE))).
  cbn [mem heap_start set_mem s1 set_brk set_heap_start].
  norm_ptr.
  change (PACK 16 1) with 17. change (PACK 0 1) with 1.
  set (m4 := store (store (store (store (mem s) lo 0) (lo + 8) 17)
                      (lo + 16) 17) (lo + 24) 1).
  match goal with |- wp _ _ ?st => set (s5 := st) end.
  assert (H5 : heap_ok s5 [] []).
  { split; [split; [|split]|reflexivity].
    - constructor;
        cbn [mem_heap heap_start mem_brk mem_max_addr s5 s1
             set_mem set_brk set_heap_start]; fold lo; lia.
    - unfold tags.
      cbn [mem_heap heap_start mem_brk mem_max_addr mem s5 s1
           set_mem set_brk set_heap_start]. fold lo m4.
      split; [constructor|]. split; [cbn [total]; lia|].
      unfold prologue. cbn [blocks]. change (tag 16 true) with 17.
      unfold m4. repeat split.
      + replace (lo + 16 - 8) with (lo + 8) by lia.
        rewrite !load_store_other by lia. apply load_store_same. lia.
      + replace (lo + 16 + 16 - 16) with (lo + 16) by lia.
        rewrite !load_store_other by lia. apply load_store_same. lia.
      + replace (lo + 32 - 8) with (lo + 24) by lia.
        apply load_store_same. lia.
    - unfold flist.
      cbn [mem_heap heap_start mem_brk mem_max_addr mem s5 s1
           set_mem set_brk set_heap_start]. fold lo m4.
      split; [|split; [constructor|intros b; cbn; tauto]].
      cbn [dll]. unfold cell. cbn [Z.eqb]. unfold m4.
      rewrite !load_store_other by lia. apply load_store_same. lia. }
  change (CHUNKSIZE / WSIZE) with 512.
  apply wp_bind. eapply wp_mono.
  - apply (extend_heap_spec s5 [] [] 512 H5); lia.
  - cbv beta. intros r s' R.
    change (even_bytes 512) with 4096 in R.
    replace (mem_brk s5) with (lo + 32) in R by reflexivity.
    replace (mem_max_addr s5) with (mem_max_addr s) in R by reflexivity.
    replace (mem_heap s5) with lo in R by reflexivity.
    destruct (Z.leb_spec (lo + 32 + 4096) (mem_max_addr s)) as [_|Hno];
      [|lia].
    change (coalesced [] 4096 []) with (@nil block, 4096, @nil block) in R.
    cbn [app total] in R.
    change (coalesced_list (lo + 32) [] 4096 [] [lo + 32]) with [lo + 32] in R.
    destruct R as ((G1 & G2 & G3 & G4) & -> & HOK & _).
    destruct (Z.eqb_spec (lo + 32 + 0) 0) as [E|_]; [lia|].
    apply wp_ret. split; [reflexivity|]. split; [exact HOK|].
    split; [exact G2|exact G4].
Qed.

(** ** Sequences of operations *)

Lemma free_addrs_length (bs : list block) : forall bp,
  (length (free_addrs bp bs) <= length bs)%nat.
Proof.
  induction bs as [|[sz a] r IH]; intros bp; cbn [free_addrs length];
    [lia|].
  rewrite length_app. specialize (IH (bp + sz)). destruct a; cbn [length]; lia.
Qed.

Lemma good_length (bs : list block) :
  Forall good bs -> 32 * Z.of_nat (length bs) <= total bs.
Proof.
  induction 1 as [|[sz a] r [G _] F IH]; cbn [length total fst] in *; lia.
Qed.

Lemma fuel_of_enough s ubs fl :
  wf s ubs fl ->
  (length fl <= fuel_of s)%nat /\ (length ubs < fuel_of s)%nat.
Proof.
  intros (AR & (T1 & T2 & _) & (_ & FL2 & FL3)).
  pose proof (good_length _ T1) as G.
  assert (L : (length fl <= length ubs)%nat).
  { etransitivity; [|apply (free_addrs_length ubs (mem_heap s + 32))].
    apply NoDup_incl_length; [exact FL2|]. intros b. apply FL3. }
  unfold fuel_of. lia.
Qed.

Lemma live_ok_kept lo ubs ubs' L :
  live_ok lo ubs L -> alloc_kept lo ubs ubs' -> live_ok lo ubs' L.
Proof.
  intros [ND H] K. split; [exact ND|].
  intros p n Hin. destruct (H p n Hin) as (sz & H1 & H2).
  exists sz. split; [apply K, H1|exact H2].
Qed.

Lemma inv_malloc s L n :
  inv s L -> 0 < n <= 2 ^ 64 - 32 ->
  exists r s', mm_malloc (fuel_of s) n s = Ok r s' /\
    ((r = NULL /\ s' = s) \/ (r <> NULL /\ inv s' ((r, n) :: L))).
Proof.
  intros (ubs & fl & H & ND & LV) Hn.
  destruct (fuel_of_enough s ubs fl (proj1 H)) as [F1 _].
  destruct (wp_run _ _ _ (mm_malloc_spec s ubs fl _ n H Hn F1))
    as (r & s' & E & R).
  exists r, s'. split; [exact E|].
  destruct R as [R|(Hr & ubs' & fl' & MO)]; [now left|right].
  split; [exact Hr|].
  destruct MO as (H' & _ & K2 & _ & _ & AK & _ & szr & Hin & Hsz & FRESH).
  exists ubs', fl'. split; [exact H'|]. rewrite K2. split.
  - cbn [map fst]. constructor; [|exact ND].
    intros Hr'. apply in_map_iff in Hr' as ([p m] & <- & Hpm).
    destruct (LV _ _ Hpm) as (sz & H1 & _). exact (FRESH sz H1).
  - intros p m [Hpm|Hpm].
    + injection Hpm as <- <-. exists szr. auto.
    + destruct (LV _ _ Hpm) as (sz & H1 & H2). exists sz. split; auto.
Qed.

Lemma drop_nth_split {A} (l : list A) k a :
  nth_error l k = Some a ->
  exists l1 l2, l = l1 ++ a :: l2 /\ drop_nth k l = l1 ++ l2.
Proof.
  intros H. apply nth_error_split in H as (l1 & l2 & -> & <-).
  exists l1, l2. split; [reflexivity|]. unfold drop_nth.
  rewrite firstn_app, Nat.sub_diag, firstn_all, firstn_O, app_nil_r.
  rewrite skipn_app, skipn_all2 by lia.
  replace (S (length l1) - length l1)%nat with 1%nat by lia. reflexivity.
Qed.

Lemma live_ok_drop lo (l1 l2 : list (Z * Z)) p n
  (upre : list block) sz (post : list block) :
  live_ok lo (upre ++ (sz, true) :: post) (l1 ++ (p, n) :: l2) ->
  p = lo + 32 + total upre ->
  live_ok lo (upre ++ (sz, false) :: post) (l1 ++ l2).
Proof.
  intros [ND LV] Ep. rewrite map_app in ND. cbn [map fst] in ND.
  pose proof (NoDup_remove_2 _ _ _ ND) as Np.
  apply NoDup_remove_1 in ND. rewrite <- map_app in ND, Np.
  split; [exact ND|].
  intros q m Hq.
  assert (Hq' : In (q, m) (l1 ++ (p, n) :: l2)).
  { apply in_app_or in Hq. apply in_or_app. cbn [In]. tauto. }
  destruct (LV _ _ Hq') as (szq & H1 & H2).
  exists szq. split; [|exact H2].
  apply (layout_replace _ upre [(sz, true)] [(sz, false)] post); auto.
  cbn [layout]. intros [E|[]]. injection E as E _.
  exfalso. apply Np. apply in_map_iff. exists (q, m). split; [|exact Hq].
  cbn [fst]. lia.
Qed.

Lemma inv_free s L k p n :
  inv s L -> nth_error L k = Some (p, n) ->
  exists s', mm_free p s = Ok tt s' /\ inv s' (drop_nth k L).
Proof.
  intros (ubs & fl & H & LO) Hk.
  destruct (drop_nth_split _ _ _ Hk) as (l1 & l2 & EL & ->).
  rewrite EL in LO.
  destruct (proj2 LO p n ltac:(apply in_or_app; right; now left))
    as (sz & Hin & _).
  apply layout_split in Hin as (upre & post & -> & Ep).
  destruct (wp_run _ _ _ (mm_free_spec s upre sz post fl H))
    as ([] & s' & E & (_ & SC & _) & R).
  rewrite <- Ep in E. exists s'. split; [exact E|].
  pose proof (alloc_kept_coalesced (mem_heap s) upre sz post) as AK.
  destruct (coalesced upre sz post) as [[u' z'] p'].
  destruct R as [R _].
  exists (u' ++ (z', false) :: p'). eexists. split; [exact R|].
  rewrite SC. eapply live_ok_kept; [|exact AK].
  eapply live_ok_drop; eauto.
Qed.

Lemma GET_SIZE_block s ubs fl p sz a :
  wf s ubs fl -> In (p, sz, a) (layout (mem_heap s + 32) ubs) ->
  GET_SIZE (HDRP p) s = Ok sz s /\
  mem_heap s + 32 <= p /\ p + sz <= mem_brk s /\ 32 <= sz.
Proof.
  intros (AR & TG & _) Hin.
  pose proof AR as [A1 A2 A3 A4 A5].
  apply layout_split in Hin as (upre & post & -> & ->).
  destruct (tags_cur _ _ _ _ _ TG A1) as (C1 & _ & C3 & C4 & N1 & N2 & Eb).
  split; [|lia].
  unfold GET_SIZE, GET, bind, HDRP, PSUB, WSIZE.
  rewrite wrap_small by lia.
  rewrite in_arena_valid by (unfold valid; lia).
  unfold ret. rewrite C1, size_bits_tag by auto. reflexivity.
Qed.

Lemma copy_loop_ctl ptr old_ptr : forall n i s s',
  copy_loop n i ptr old_ptr s = Ok tt s' -> same_ctl s s'.
Proof.
  induction n as [|n IH]; intros i s s' H; cbn [copy_loop] in H.
  - injection H as <-. apply same_ctl_refl.
  - unfold bind, GET_BYTE, PUT_BYTE in H.
    destruct (in_arena s (PADD old_ptr i) 1); [|discriminate].
    destruct (in_arena s (PADD ptr i) 1); [|discriminate].
    apply IH in H. eapply same_ctl_trans; [|exact H].
    apply same_ctl_set_mem.
Qed.

(** When the allocation inside [mm_realloc] returns [NULL], the copy loop
    writes through the null pointer. *)
Lemma mm_realloc_null_faults s ubs fl fuel p szp size :
  heap_ok s ubs fl ->
  In (p, szp, true) (layout (mem_heap s + 32) ubs) ->
  0 < size ->
  mm_malloc fuel size s = Ok NULL s ->
  mm_realloc fuel p size s = Fault.
Proof.
  intros [WF _] Hp Hs Hm.
  destruct (GET_SIZE_block s ubs fl p szp true WF Hp) as (Hg & B1 & B2 & B3).
  pose proof WF as (AR & _). pose proof AR as [A1 A2 A3 A4 A5].
  unfold mm_realloc.
  destruct (Z.eqb_spec p NULL) as [E|_]; [unfold NULL in E; lia|].
  destruct (Z.eqb_spec size 0) as [E|_]; [lia|].
  unfold bind at 1. rewrite Hg.
  unfold bind at 1. rewrite Hm.
  set (cnt := if size <=? szp then size else szp).
  assert (Hc : 0 < cnt) by (unfold cnt; destruct (size <=? szp); lia).
  destruct (Z.to_nat cnt) as [|k] eqn:Ek; [lia|].
  unfold bind at 1. cbn [copy_loop].
  unfold bind at 1, GET_BYTE, PADD.
  rewrite (wrap_small (p + 0)) by lia.
  assert (I1 : in_arena s (p + 0) 1 = true).
  { unfold in_arena. apply andb_true_intro. split; apply Z.leb_le; lia. }
  rewrite I1. unfold bind at 1, PUT_BYTE.
  assert (I2 : in_arena s (wrap (NULL + 0)) 1 = false).
  { unfold in_arena. change (wrap (NULL + 0)) with 0.
    apply andb_false_iff. left. apply Z.leb_gt. lia. }
  now rewrite I2.
Qed.

Lemma inv_frame s s' L r n :
  inv s L -> same_ctl s s' -> In (r, n) L ->
  (forall a, ~ (r <= a < r + n) -> mem s' a = mem s a) ->
  inv s' L.
Proof.
  intros (ubs & fl & H & LO) SC Hin FR.
  exists ubs, fl. split.
  - apply (heap_ok_frame s); auto.
    intros a NP. apply FR. intros Ha. apply NP.
    destruct (proj2 LO r n Hin) as (sz & H1 & H2).
    unfold prologue. cbn [pay]. right.
    replace (mem_heap s + 16 + 16) with (mem_heap s + 32) by lia.
    apply (layout_pay _ _ r sz); auto. lia.
  - destruct SC as (_ & -> & _). exact LO.
Qed.

Lemma inv_realloc s L k p m n :
  inv s L -> nth_error L k = Some (p, m) -> 0 <= n <= 2 ^ 64 - 32 ->
  match mm_realloc (fuel_of s) p n s with
  | Ok r s' =>
      if n =? 0 then r = NULL /\ inv s' (drop_nth k L)
      else r <> NULL /\ inv s' ((r, n) :: drop_nth k L)
  | Fault => 0 < n /\ mm_malloc (fuel_of s) n s = Ok NULL s
  | OutOfFuel => False
  end.
Proof.
  intros I Hk Hn.
  pose proof I as (ubs & fl & H & LO).
  destruct (proj2 LO p m (nth_error_In _ _ Hk)) as (szp & Hp & _).
  destruct (GET_SIZE_block s ubs fl p szp true (proj1 H) Hp)
    as (_ & B1 & _).
  pose proof (ar_pos _ (proj1 (proj1 H))) as Hpos.
  destruct (Z.eqb_spec n 0) as [->|Hn0].
  - destruct (inv_free s L k p m I Hk) as (s' & E & I').
    unfold mm_realloc.
    destruct (Z.eqb_spec p NULL) as [E0|_]; [unfold NULL in E0; lia|].
    cbn [Z.eqb]. unfold bind. rewrite E. cbn [ret Z.eqb]. auto.
  - destruct (inv_malloc s L n I ltac:(lia)) as (r & s1 & E & R).
    destruct R as [[-> ->]|[Hr I1]].
    + rewrite (mm_realloc_null_faults s ubs fl _ p szp n H Hp ltac:(lia) E).
      split; [lia|exact E].
    + destruct (fuel_of_enough s ubs fl (proj1 H)) as [F1 _].
      destruct (mm_realloc_spec s ubs fl _ p szp n H Hp ltac:(lia) F1)
        as (r' & s1' & E' & R).
      rewrite E in E'. injection E' as <- <-.
      destruct (R Hr) as (s2 & s3 & Hc & Hcopy & Hf & Hre & _).
      rewrite Hre.
      destruct (Z.eqb_spec n 0) as [|_]; [contradiction|].
      split; [exact Hr|].
      assert (I2 : inv s2 ((r, n) :: L)).
      { apply (inv_frame s1 s2 _ r n); auto.
        - eapply copy_loop_ctl; eauto.
        - now left.
        - intros a Ha. rewrite Hcopy. unfold copied.
          destruct (Z.leb_spec r a); destruct (Z.ltb_spec a (r + Z.min szp n));
            cbn [andb]; try reflexivity. lia. }
      destruct (inv_free s2 ((r, n) :: L) (S k) p m I2 Hk) as (s3' & Hf' & I3).
      rewrite Hf in Hf'. injection Hf' as <-.
      exact I3.
Qed.

Lemma step_inv s L o :
  inv s L -> op_ok o ->
  match step o L s with
  | Ok L' s' => inv s' L'
  | Fault => is_realloc o = true
  | OutOfFuel => False
  end.
Proof.
  intros I Hok. destruct o as [n|k|k n]; cbn [step op_ok is_realloc] in *.
  - destruct (Z.eqb_spec n 0) as [->|Hn].
    + unfold mm_malloc, bind. cbn. exact I.
    + destruct (inv_malloc s L n I ltac:(lia)) as (r & s' & E & R).
      unfold bind. rewrite E. cbn [ret].
      destruct R as [[-> ->]|[Hr I']]; [exact I|].
      destruct (Z.eqb_spec r NULL); [contradiction|exact I'].
  - destruct (nth_error L k) as [[p m]|] eqn:Hk; [|exact I].
    destruct (inv_free s L k p m I Hk) as (s' & E & I').
    unfold bind. rewrite E. exact I'.
  - destruct (nth_error L k) as [[p m]|] eqn:Hk; [|exact I].
    pose proof (inv_realloc s L k p m n I Hk Hok) as R.
    unfold bind.
    destruct (mm_realloc (fuel_of s) p n s) as [r s'| |];
      [|reflexivity|contradiction].
    cbn [ret]. destruct (n =? 0); tauto.
Qed.

Lemma run_inv os : forall s L,
  inv s L -> Forall op_ok os ->
  match run os L s with
  | Ok L' s' => inv s' L'
  | Fault => existsb is_realloc os = true
  | OutOfFuel => False
  end.
Proof.
  induction os as [|o r IH]; intros s L I F; cbn [run existsb].
  - exact I.
  - apply Forall_cons_iff in F as [Ho F].
    pose proof (step_inv s L o I Ho) as S1. unfold bind.
    destruct (step o L s) as [L1 s1| |]; [| |contradiction].
    + specialize (IH s1 L1 S1 F).
      destruct (run r L1 s1); auto. rewrite IH. apply orb_true_r.
    + now rewrite S1.
Qed.

Lemma inv_consistent s L : inv s L -> consistent s L.
Proof.
  intros (ubs & fl & H & ND & LV).
  pose proof H as [WF NAF].
  pose proof WF as (AR & (T1 & T2 & _) & (_ & FL2 & FL3)).
  pose proof (Forall_good_okb _ T1) as FO.
  destruct (fuel_of_enough s ubs fl WF) as [F1 F2].
  split; [|split].
  - exists (walk_of (mem_heap s) ubs), fl.
    split; [now apply survey_spec|].
    split; [apply tags_agree_layout|].
    split; [apply (walk_no_adjacent s ubs fl _ H F2)|].
    split; [exact FL2|]. split.
    + intros b. unfold walk_of. rewrite walk_free_layout.
      rewrite free_addrs_prologue. apply FL3.
    + intros p n Hin. destruct (LV p n Hin) as (sz & H1 & H2).
      exists sz. split; [|exact H2].
      unfold walk_of, prologue. cbn [layout map]. right.
      replace (mem_heap s + 16 + 16) with (mem_heap s + 32) by lia.
      apply (in_map line_of) in H1. exact H1.
  - intros i j p n q m Hi Hj Hij.
    assert (Npq : p <> q).
    { intros ->. apply Hij.
      apply (proj1 (NoDup_nth_error (map fst L)) ND).
      - rewrite length_map. apply nth_error_Some. congruence.
      - rewrite !nth_error_map, Hi, Hj. reflexivity. }
    destruct (LV p n (nth_error_In _ _ Hi)) as (sp & P1 & P2).
    destruct (LV q m (nth_error_In _ _ Hj)) as (sq & Q1 & Q2).
    destruct (layout_disjoint _ _ _ _ _ _ _ _ FO P1 Q1) as [E|[E|E]];
      [contradiction|lia|lia].
  - intros p n Hin. destruct (LV p n Hin) as (sz & H1 & H2).
    pose proof (layout_bounds _ _ _ _ _ FO H1). lia.
Qed.

Lemma mm_init_inv s0 :
  start_ok s0 ->
  exists s, mm_init s0 = Ok 0 s /\
            heap_ok s [(4096, false)] [mem_heap s0 + 32] /\ inv s [].
Proof.
  intros (S1 & S2 & S3 & S4 & S5).
  destruct (wp_run _ _ _ (mm_init_spec s0 S1 S2 S3 S4 S5))
    as (r & s & E & -> & H & _).
  exists s. split; [exact E|]. split; [exact H|].
  exists [(4096, false)], [mem_heap s0 + 32]. split; [exact H|].
  split; [constructor|]. intros p n [].
Qed.

(** X1: [mm_init] on an untouched arena with room for 4128 bytes returns 0
    and leaves a consistent heap: one free block of 4096 bytes, on the free
    list. *)
Theorem mm_init_consistent s0 :
  start_ok s0 ->
  exists s, mm_init s0 = Ok 0 s /\
            heap_ok s [(4096, false)] [mem_heap s0 + 32] /\
            consistent s [].
Proof.
  intros S. destruct (mm_init_inv s0 S) as (s & E & H & I).
  exists s. split; [exact E|]. split; [exact H|]. now apply inv_consistent.
Qed.

Lemma start_ok_fresh : start_ok (fresh 65536).
Proof. unfold start_ok. repeat split; vm_compute; congruence. Qed.

Lemma mm_init_consistent_witness :
  start_ok (fresh 65536) /\
  exists s, mm_init (fresh 65536) = Ok 0 s /\
            heap_ok s [(4096, false)] [4128] /\ consistent s [].
Proof.
  split; [exact start_ok_fresh|].
  exact (mm_init_consistent (fresh 65536) start_ok_fresh).
Defined.

(** X2: a session is [mm_init] followed by any sequence of requests with
    sizes up to [2^64 - 32], releases and resizes of blocks the client
    holds.  It never loops; it can only fault when it contains a resize
    (whose inner allocation failed); and when it returns, the heap is
    consistent: tags agree, no two neighbouring blocks are free, the free
    list is exactly the set of free blocks, and the blocks the client holds
    are disjoint. *)
Theorem session_consistent s0 os :
  start_ok s0 -> Forall op_ok os ->
  match session os s0 with
  | Ok L s => consistent s L
  | Fault => existsb is_realloc os = true
  | OutOfFuel => False
  end.
Proof.
  intros S F. destruct (mm_init_inv s0 S) as (s & E & _ & I).
  unfold session, bind. rewrite E.
  pose proof (run_inv os s [] I F) as R.
  destruct (run os [] s); auto. now apply inv_consistent.
Qed.

Lemma session_consistent_witness :
  start_ok (fresh 65536) /\ Forall op_ok sample_session /\
  exists s, session sample_session (fresh 65536) =
            Ok [(4528, 5000); (4304, 200)] s /\
            consistent s [(4528, 5000); (4304, 200)].
Proof.
  assert (F : Forall op_ok sample_session)
    by (repeat constructor; cbn [op_ok]; lia).
  split; [exact start_ok_fresh|]. split; [exact F|].
  pose proof (session_consistent (fresh 65536) sample_session
                start_ok_fresh F) as T.
  assert (E : forget (session sample_session (fresh 65536)) =
              Some [(4528, 5000); (4304, 200)])
    by (vm_compute; reflexivity).
  destruct (session sample_session (fresh 65536)) as [L s| |];
    try discriminate.
  injection E as ->. exists s. split; [reflexivity|exact T].
Defined.

(** X3: in a consistent heap, whenever the allocation inside [mm_realloc]
    of a live block returns [NULL], [mm_realloc] does not return: the copy
    loop writes through the null pointer. *)
Theorem realloc_faults_when_allocation_fails s ubs fl fuel p szp size :
  heap_ok s ubs fl ->
  In (p, szp, true) (layout (mem_heap s + 32) ubs) ->
  0 < size ->
  mm_malloc fuel size s = Ok NULL s ->
  mm_realloc fuel p size s = Fault.
Proof. apply mm_realloc_null_faults. Qed.

Lemma realloc_faults_when_allocation_fails_witness :
  heap_ok full_arena [(32, true); (4064, false)] [4160] /\
  mm_malloc 8 8192 full_arena = Ok NULL full_arena /\
  mm_realloc 8 4128 8192 full_arena = Fault.
Proof.
  assert (H : heap_ok full_arena [(32, true); (4064, false)] [4160])
    by eval_heap_ok.
  assert (E : mm_malloc 8 8192 full_arena = Ok NULL full_arena).
  { destruct (wp_run _ _ _
      (mm_malloc_spec full_arena _ _ 8 8192 H ltac:(lia)
         ltac:(cbn [length]; lia))) as (r & s' & E & R).
    assert (Er : forget (mm_malloc 8 8192 full_arena) = Some NULL)
      by (vm_compute; reflexivity).
    rewrite E in Er. cbn [forget] in Er. injection Er as ->.
    destruct R as [[_ ->]|[Hr _]]; [exact E|contradiction]. }
  split; [exact H|]. split; [exact E|].
  apply (realloc_faults_when_allocation_fails full_arena _ _ 8 4128 32 8192 H);
    [vm_compute; tauto|lia|exact E].
Defined.

(** X4: in a consistent heap a request of [0 < size <= 2^64 - 32] bytes
    returns.  It returns [NULL] and leaves the state as it was, or it
    returns a block that was not allocated before, is allocated now and has
    room for [size] bytes; the heap is consistent again, every block that
    was allocated still is, and no payload byte of those has changed. *)
Theorem mm_malloc_fresh_block s ubs fl fuel size :
  heap_ok s ubs fl -> 0 < size <= 2 ^ 64 - 32 -> (length fl <= fuel)%nat ->
  exists r s',
    mm_malloc fuel size s = Ok r s' /\
    ((r = NULL /\ s' = s) \/
     (r <> NULL /\
      exists ubs' fl' szr,
        heap_ok s' ubs' fl' /\
        In (r, szr, true) (layout (mem_heap s + 32) ubs') /\
        size + 16 <= szr /\
        (forall sz, ~ In (r, sz, true) (layout (mem_heap s + 32) ubs)) /\
        (forall p sz, In (p, sz, true) (layout (mem_heap s + 32) ubs) ->
                      In (p, sz, true) (layout (mem_heap s + 32) ubs')) /\
        (forall a, pay true (mem_heap s + 16) (prologue :: ubs) a ->
                   mem s' a = mem s a))).
Proof.
  intros H Hs L.
  destruct (wp_run _ _ _ (mm_malloc_spec s ubs fl fuel size H Hs L))
    as (r & s' & E & R).
  exists r, s'. split; [exact E|].
  destruct R as [R|(Hr & ubs' & fl' & MO)]; [now left|right].
  split; [exact Hr|].
  destruct MO as (H' & _ & _ & _ & _ & AK & FR & szr & Hin & Hsz & FRESH).
  exists ubs', fl', szr.
  exact (conj H' (conj Hin (conj Hsz (conj FRESH (conj AK FR))))).
Qed.

Lemma mm_malloc_fresh_block_witness :
  heap_ok one_live [(32, true); (4064, false)] [4160] /\
  exists s' ubs' fl',
    mm_malloc 8 100 one_live = Ok 4160 s' /\
    heap_ok s' ubs' fl' /\
    In (4128, 32, true) (layout (mem_heap one_live + 32) ubs').
Proof.
  assert (H : heap_ok one_live [(32, true); (4064, false)] [4160])
    by eval_heap_ok.
  split; [exact H|].
  destruct (mm_malloc_fresh_block one_live _ _ 8 100 H ltac:(lia)
              ltac:(cbn [length]; lia)) as (r & s' & E & R).
  assert (Er : forget (mm_malloc 8 100 one_live) = Some 4160)
    by (vm_compute; reflexivity).
  rewrite E in Er. cbn [forget] in Er. injection Er as ->.
  destruct R as [[Hr _]|[_ (ubs' & fl' & szr & H' & _ & _ & _ & K & _)]];
    [discriminate Hr|].
  exists s', ubs', fl'. split; [exact E|]. split; [exact H'|].
  apply K. vm_compute. tauto.
Defined.

(** * Further properties of the code *)

(** ** The free list on its own *)

Lemma list_ok_walk s fl fuel :
  list_ok s fl -> (length fl <= fuel)%nat -> free_list fuel s = Ok fl s.
Proof.
  intros (L1 & L2 & L3 & L4 & D & ND & AP & FB) LEN.
  assert (W : wp (free_list fuel) (fun r s' => s' = s /\ r = fl) s).
  { unfold free_list. apply wp_bind, wp_LL_START. rewrite L2. norm_ptr.
    replace (mem_heap s + 16 - 16) with (mem_heap s) by lia.
    apply wp_bind, wp_GET_PTR; [unfold valid; lia|].
    change (mem_heap s) with (cell (mem_heap s) 0) at 1.
    rewrite (dll_hd _ _ _ _ D).
    apply (free_list_loop_spec s (mem_heap s) fl 0 fuel); auto.
    eapply Forall_impl; [|exact FB]. cbv beta. intros b Hb. lia. }
  destruct (wp_run _ _ _ W) as (w & s' & E & -> & ->). exact E.
Qed.

Lemma list_ok_of_wf s ubs fl : wf s ubs fl -> list_ok s fl.
Proof.
  intros (AR & (T1 & T2 & _) & (D & ND & IN)).
  destruct AR as [A1 A2 A3 A4 A5].
  pose proof (Forall_good_okb _ T1) as FO.
  pose proof (total_nonneg _ FO) as TN.
  destruct (incl_free_geometry (mem_heap s) (mem_brk s) ubs fl FO T2)
    as [AP FB]; [intros b; apply IN|].
  unfold list_ok. split; [exact A1|]. split; [exact A3|].
  split; [lia|]. split; [lia|]. auto.
Qed.

Lemma insert_node_list s fl x :
  list_ok s fl -> mem_heap s + 8 <= x -> x + 16 <= mem_brk s ->
  (forall b, In b fl -> b + 16 <= x \/ x + 16 <= b) ->
  exists s',
    insert_node x s = Ok tt s' /\ list_ok s' (x :: fl) /\
    (forall a, ~ (mem_heap s <= a < mem_heap s + 8) ->
               ~ (x <= a < x + 16) ->
               (forall b, In b fl -> ~ (b <= a < b + 8)) ->
               mem s' a = mem s a).
Proof.
  intros (L1 & L2 & L3 & L4 & D & ND & AP & FB) X1 X2 XA.
  destruct (wp_run _ _ _
    (insert_node_spec s (mem_heap s) fl x eq_refl L2 L1 L4 D ND AP FB X1 X2 XA))
    as ([] & s' & E & (C1 & C2 & C3 & C4) & D' & FR).
  exists s'. split; [exact E|]. split; [|exact FR].
  unfold list_ok. rewrite C1, C2, C3.
  do 4 (split; [assumption|]). split; [exact D'|]. split; [|split].
  - constructor; [|exact ND]. intros Hin. specialize (XA x Hin). lia.
  - intros b b' [Eb|Hb] [Eb'|Hb']; subst; auto.
    specialize (XA b' Hb'). lia.
  - constructor; [lia|exact FB].
Qed.

Lemma remove_node_list s fl x :
  list_ok s fl -> In x fl ->
  exists s',
    remove_node x s = Ok tt s' /\ list_ok s' (remove Z.eq_dec x fl) /\
    (forall a, ~ (mem_heap s <= a < mem_heap s + 8) ->
               (forall b, In b fl -> b <> x -> ~ (b <= a < b + 16)) ->
               mem s' a = mem s a).
Proof.
  intros (L1 & L2 & L3 & L4 & D & ND & AP & FB) Hx.
  destruct (wp_run _ _ _
    (remove_node_spec s (mem_heap s) fl x eq_refl L2 L1 L4 D ND AP FB Hx))
    as ([] & s' & E & (C1 & C2 & C3 & C4) & D' & FR).
  exists s'. split; [exact E|]. split; [|exact FR].
  unfold list_ok. rewrite C1, C2, C3.
  do 4 (split; [assumption|]). split; [exact D'|]. split; [|split].
  - now apply NoDup_remove_list.
  - intros b b' Hb Hb'. apply in_remove in Hb as [Hb _].
    apply in_remove in Hb' as [Hb' _]. now apply AP.
  - apply Forall_forall. intros b Hb. apply in_remove in Hb as [Hb _].
    exact (proj1 (Forall_forall _ _) FB b Hb).
Qed.

(** X5: [insert_node] puts a node in front of the free list.  For a list
    laid out in the arena and a node [x] of 16 bytes inside the arena that
    overlaps no node of the list, the call returns, the walk of the list
    then visits [x] first and the old nodes after it in their old order,
    and memory changes only in the head cell, in the two link cells of [x]
    and in the back link of the old first node. *)
Theorem insert_node_front s fl x fuel :
  list_ok s fl -> mem_heap s + 8 <= x -> x + 16 <= mem_brk s ->
  (forall b, In b fl -> b + 16 <= x \/ x + 16 <= b) ->
  (length fl < fuel)%nat ->
  exists s',
    insert_node x s = Ok tt s' /\
    free_list fuel s' = Ok (x :: fl) s' /\
    (forall a, ~ (mem_heap s <= a < mem_heap s + 8) ->
               ~ (x <= a < x + 16) ->
               (forall b, In b fl -> ~ (b <= a < b + 8)) ->
               mem s' a = mem s a).
Proof.
  intros L X1 X2 XA LEN.
  destruct (insert_node_list s fl x L X1 X2 XA) as (s' & E & L' & FR).
  exists s'. split; [exact E|]. split; [|exact FR].
  apply list_ok_walk; [exact L'|]. cbn [length]. lia.
Qed.

Lemma list_ok_after_init : list_ok (after mm_init (fresh 65536)) [4128].
Proof.
  apply (list_ok_of_wf _ [(4096, false)]). eval_wf.
Qed.

Lemma insert_node_front_witness :
  list_ok (after mm_init (fresh 65536)) [4128] /\
  exists s',
    insert_node 4200 (after mm_init (fresh 65536)) = Ok tt s' /\
    free_list 4 s' = Ok [4200; 4128] s'.
Proof.
  split; [exact list_ok_after_init|].
  destruct (insert_node_front (after mm_init (fresh 65536)) [4128] 4200 4
              list_ok_after_init)
    as (s' & E & W & _).
  - vm_compute. congruence.
  - vm_compute. congruence.
  - intros b [<-|[]]. lia.
  - cbn [length]. lia.
  - exists s'. exact (conj E W).
Defined.

(** X6: [remove_node] unlinks a node of the free list.  For a list laid
    out in the arena and a node [x] of it, the call returns, the walk of
    the list then visits the other nodes in their old order, and memory
    changes only in the head cell and in link cells of the other nodes. *)
Theorem remove_node_unlinks s fl x fuel :
  list_ok s fl -> In x fl -> (length fl <= fuel)%nat ->
  exists s',
    remove_node x s = Ok tt s' /\
    free_list fuel s' = Ok (remove Z.eq_dec x fl) s' /\
    ~ In x (remove Z.eq_dec x fl) /\
    (forall a, ~ (mem_heap s <= a < mem_heap s + 8) ->
               (forall b, In b fl -> b <> x -> ~ (b <= a < b + 16)) ->
               mem s' a = mem s a).
Proof.
  intros L Hx LEN.
  destruct (remove_node_list s fl x L Hx) as (s' & E & L' & FR).
  exists s'. split; [exact E|]. split; [|split; [apply remove_In|exact FR]].
  apply list_ok_walk; [exact L'|].
  etransitivity; [apply remove_length_le|exact LEN].
Qed.

Lemma list_ok_two_free : list_ok two_free [4192; 4128; 4288].
Proof.
  apply (list_ok_of_wf _ [(32, false); (32, true); (64, false); (32, true);
                           (3936, false)]).
  eval_wf.
Qed.

Lemma remove_node_unlinks_witness :
  list_ok two_free [4192; 4128; 4288] /\
  exists s',
    remove_node 4128 two_free = Ok tt s' /\
    free_list 3 s' = Ok [4192; 4288] s'.
Proof.
  split; [exact list_ok_two_free|].
  destruct (remove_node_unlinks two_free [4192; 4128; 4288] 4128 3
              list_ok_two_free)
    as (s' & E & W & _).
  - cbn [In]. tauto.
  - cbn [length]. lia.
  - exists s'. exact (conj E W).
Defined.

(** X7: inserting a node and removing it again gives the old list back:
    after [insert_node x] and [remove_node x] the walk of the free list
    returns the nodes it returned before, in the same order. *)
Theorem insert_then_remove_restores_list s fl x fuel :
  list_ok s fl -> mem_heap s + 8 <= x -> x + 16 <= mem_brk s ->
  (forall b, In b fl -> b + 16 <= x \/ x + 16 <= b) ->
  (length fl <= fuel)%nat ->
  free_list fuel s = Ok fl s /\
  exists s',
    (insert_node x ;;; remove_node x) s = Ok tt s' /\
    free_list fuel s' = Ok fl s'.
Proof.
  intros L X1 X2 XA LEN.
  split; [now apply list_ok_walk|].
  destruct (insert_node_list s fl x L X1 X2 XA) as (s1 & E1 & L1 & _).
  destruct (remove_node_list s1 (x :: fl) x L1 (or_introl eq_refl))
    as (s2 & E2 & L2 & _).
  assert (R : remove Z.eq_dec x (x :: fl) = fl).
  { cbn [remove]. destruct (Z.eq_dec x x) as [_|N]; [|congruence].
    apply notin_remove. intros Hin. specialize (XA x Hin). lia. }
  rewrite R in L2.
  exists s2. split.
  - unfold bind. rewrite E1. exact E2.
  - now apply list_ok_walk.
Qed.

Lemma insert_then_remove_restores_list_witness :
  list_ok two_free [4192; 4128; 4288] /\
  free_list 3 two_free = Ok [4192; 4128; 4288] two_free /\
  exists s',
    (insert_node 4400 ;;; remove_node 4400) two_free = Ok tt s' /\
    free_list 3 s' = Ok [4192; 4128; 4288] s'.
Proof.
  split; [exact list_ok_two_free|].
  apply (insert_then_remove_restores_list two_free [4192; 4128; 4288] 4400 3
           list_ok_two_free).
  - vm_compute. congruence.
  - vm_compute. congruence.
  - intros b [<-|[<-|[<-|[]]]]; lia.
  - cbn [length]. lia.
Defined.

(** X8: the two guards of [remove_node]: on an empty free list, and for
    the null pointer, the call returns without changing anything. *)
Theorem remove_node_guards s fl x :
  list_ok s fl -> fl = [] \/ x = NULL ->
  remove_node x s = Ok tt s.
Proof.
  intros (L1 & L2 & L3 & L4 & D & _) H.
  assert (W : wp (remove_node x) (fun _ s' => s' = s) s).
  { unfold remove_node. apply wp_bind, wp_LL_START. rewrite L2. norm_ptr.
    replace (mem_heap s + 16 - 16) with (mem_heap s) by lia.
    apply wp_bind, wp_GET_PTR; [unfold valid; lia|].
    change (mem_heap s) with (cell (mem_heap s) 0) at 1.
    rewrite (dll_hd _ _ _ _ D).
    destruct (Z.eqb_spec (hd 0 fl) 0) as [_|Hh]; [now apply wp_ret|].
    destruct H as [-> | ->]; [cbn [hd] in Hh; congruence|].
    now apply wp_ret. }
  destruct (wp_run _ _ _ W) as ([] & s' & E & Es). now rewrite Es in E.
Qed.

Lemma remove_node_guards_witness :
  list_ok two_free [4192; 4128; 4288] /\
  remove_node NULL two_free = Ok tt two_free.
Proof.
  split; [exact list_ok_two_free|].
  apply (remove_node_guards two_free [4192; 4128; 4288] NULL
           list_ok_two_free).
  now right.
Defined.

(** ** The search *)

Lemma find_fit_loop_first s lo asize : forall l prev fuel,
  dll (mem s) lo prev l ->
  Forall (fun b => mem_heap s + 8 <= b /\ b + 16 <= mem_brk s) l ->
  mem_brk s < 2 ^ 63 -> 0 < mem_heap s ->
  (length l <= fuel)%nat ->
  wp (find_fit_loop fuel asize (hd 0 l))
     (fun r s' => s' = s /\ r = first_fit s asize l) s.
Proof.
  induction l as [|b r IH]; intros prev fuel D F Hmax Hpos L.
  - cbn [hd]. destruct fuel; cbn [find_fit_loop];
      (replace (0 =? NULL) with true by reflexivity); apply wp_ret; auto.
  - cbn [hd]. cbn [dll] in D. destruct D as (D1 & D0 & D2 & D3).
    apply Forall_cons_iff in F as [[F1 F2] F].
    destruct fuel as [|k]; [cbn [length] in L; lia|].
    cbn [find_fit_loop].
    destruct (Z.eqb_spec b NULL) as [E|_]; [unfold NULL in E; contradiction|].
    unfold first_fit. cbn [find]. unfold fits at 1.
    norm_ptr.
    apply wp_bind, wp_GET_SIZE; [unfold valid; lia|].
    destruct (asize <=? size_bits (load (mem s) (b - 8))).
    + apply wp_ret. auto.
    + apply wp_bind, wp_GET_PTR; [unfold valid; lia|].
      rewrite <- (cell_node lo b D0), (dll_hd _ _ _ _ D3).
      apply (IH b k); auto. cbn [length] in L. lia.
Qed.

Lemma find_fit_first s fl fuel asize :
  list_ok s fl -> (length fl <= fuel)%nat ->
  find_fit fuel asize s = Ok (first_fit s asize fl) s.
Proof.
  intros (L1 & L2 & L3 & L4 & D & ND & AP & FB) LEN.
  assert (W : wp (find_fit fuel asize)
                 (fun r s' => s' = s /\ r = first_fit s asize fl) s).
  { unfold find_fit. apply wp_bind, wp_LL_START. rewrite L2. norm_ptr.
    replace (mem_heap s + 16 - 16) with (mem_heap s) by lia.
    apply wp_bind, wp_GET_PTR; [unfold valid; lia|].
    change (mem_heap s) with (cell (mem_heap s) 0) at 1.
    rewrite (dll_hd _ _ _ _ D).
    apply (find_fit_loop_first s (mem_heap s) asize fl 0 fuel); auto. }
  destruct (wp_run _ _ _ W) as (r & s' & E & -> & ->). exact E.
Qed.

Lemma first_fit_null s asize fl :
  ~ In 0 fl ->
  (first_fit s asize fl = NULL <-> forall b, In b fl -> fits s asize b = false).
Proof.
  intros N0. unfold first_fit.
  destruct (find (fits s asize) fl) as [b|] eqn:E.
  - apply find_some in E as [Hin Hf]. split.
    + intros ->. contradiction.
    + intros H. rewrite (H b Hin) in Hf. discriminate.
  - split; [|reflexivity]. intros _ b Hin.
    apply (find_none _ _ E b Hin).
Qed.

(** X9: [find_fit] is a first-fit search in list order.  For a free list
    laid out in the arena it returns, without changing the state, the
    first node of the list whose header holds a size of at least [asize];
    it returns [NULL] exactly when no node of the list is large enough. *)
Theorem find_fit_first_fit s fl fuel asize :
  list_ok s fl -> (length fl <= fuel)%nat ->
  find_fit fuel asize s = Ok (first_fit s asize fl) s /\
  (first_fit s asize fl = NULL <->
   forall b, In b fl -> fits s asize b = false) /\
  (forall l1 b l2, fl = l1 ++ b :: l2 -> first_fit s asize fl = b ->
                   fits s asize b = true /\
                   forall b', In b' l1 -> fits s asize b' = false).
Proof.
  intros L LEN. split; [now apply find_fit_first|].
  pose proof L as (_ & _ & _ & _ & D & ND & _).
  pose proof (dll_nonzero _ _ _ _ D) as N0.
  split; [now apply first_fit_null|].
  intros l1 b l2 -> Hb. unfold first_fit in Hb.
  destruct (find (fits s asize) (l1 ++ b :: l2)) as [c|] eqn:E.
  - subst c. pose proof (find_some _ _ E) as [_ Hf]. split; [exact Hf|].
    clear N0 D L LEN.
    induction l1 as [|a l1 IH]; intros b' Hin; [destruct Hin|].
    cbn [app find] in E.
    destruct (fits s asize a) eqn:Ea.
    + injection E as ->. apply NoDup_cons_iff in ND as [N _].
      exfalso. apply N, in_or_app. right. now left.
    + destruct Hin as [<-|Hin]; [exact Ea|].
      apply NoDup_cons_iff in ND as [_ ND]. now apply IH.
  - exfalso. apply N0. unfold NULL in Hb. rewrite Hb.
    apply in_or_app. right. now left.
Qed.

Lemma find_fit_first_fit_witness :
  list_ok two_free [4192; 4128; 4288] /\
  find_fit 3 100 two_free = Ok 4288 two_free /\
  fits two_free 100 4192 = false /\ fits two_free 100 4128 = false.
Proof.
  split; [exact list_ok_two_free|].
  destruct (find_fit_first_fit two_free [4192; 4128; 4288] 3 100
              list_ok_two_free ltac:(cbn [length]; lia)) as (E & _ & F).
  assert (R : first_fit two_free 100 [4192; 4128; 4288] = 4288)
    by (vm_compute; reflexivity).
  rewrite R in E. split; [exact E|].
  destruct (F [4192; 4128] 4288 [] eq_refl R) as [_ G].
  split; apply G; cbn [In]; tauto.
Defined.

(** ** Boundary tags *)

(** X10: a boundary tag survives the round trip through memory.  A size
    that is a multiple of 16 and an allocated bit, packed by [PACK] and
    written by [PUT], are read back by [GET_SIZE] and [GET_ALLOC]; the
    write touches no byte outside the eight of the word. *)
Theorem tag_round_trip s p size a :
  valid s p -> 0 <= size < 2 ^ 64 -> size mod 16 = 0 -> a = 0 \/ a = 1 ->
  exists s',
    PUT p (PACK size a) s = Ok tt s' /\
    GET_SIZE p s' = Ok size s' /\
    GET_ALLOC p s' = Ok a s' /\
    (forall x, ~ (p <= x < p + 8) -> mem s' x = mem s x).
Proof.
  intros V Hs H16 Ha.
  assert (Eb : exists b, a = Z.b2z b).
  { destruct Ha as [-> | ->]; [now exists false|now exists true]. }
  destruct Eb as [b ->].
  rewrite PACK_tag by exact H16.
  assert (R : 0 <= tag size b < 2 ^ 64).
  { pose proof (Z.div_mod size 16 ltac:(lia)) as D. rewrite H16 in D.
    unfold tag. destruct b; cbn [Z.b2z]; lia. }
  exists (set_mem s (store (mem s) p (tag size b))).
  assert (V' : valid (set_mem s (store (mem s) p (tag size b))) p) by exact V.
  unfold PUT, GET_SIZE, GET_ALLOC, GET, bind, ret.
  rewrite (in_arena_valid _ _ V), (in_arena_valid _ _ V').
  cbn [mem set_mem]. rewrite load_store_same by exact R.
  rewrite size_bits_tag, alloc_bit_tag by exact H16.
  repeat split. intros x Hx. apply store_other. lia.
Qed.

Lemma tag_round_trip_witness :
  valid (after mm_init (fresh 65536)) 4200 /\
  exists s',
    PUT 4200 (PACK 4096 1) (after mm_init (fresh 65536)) = Ok tt s' /\
    GET_SIZE 4200 s' = Ok 4096 s' /\ GET_ALLOC 4200 s' = Ok 1 s'.
Proof.
  assert (V : valid (after mm_init (fresh 65536)) 4200)
    by (split; vm_compute; congruence).
  split; [exact V|].
  destruct (tag_round_trip (after mm_init (fresh 65536)) 4200 4096 1 V
              ltac:(lia) eq_refl ltac:(now right)) as (s' & E & G1 & G2 & _).
  exists s'. exact (conj E (conj G1 G2)).
Defined.

(** ** The other cases of [coalesce] *)

(** X11: [coalesce] with a free predecessor only.  The block at [bp] is
    free and on the free list, the block before it, at [P], is free, and
    the block after it is allocated or the epilogue.  Then [coalesce bp]
    returns [P]; the header of [P] and the footer of the block at [bp]
    hold the sum of the two sizes with the free flag; [bp] has left the
    free list, which is otherwise as before; and no payload byte of an
    allocated block has changed. *)
Theorem coalesce_prev_free s (upre : list block) ps sz (post : list block)
  fl P bp :
  wf s (upre ++ (ps, false) :: (sz, false) :: post) fl ->
  next_free post = None ->
  P = mem_heap s + 32 + total upre -> bp = P + ps ->
  exists s',
    coalesce bp s = Ok P s' /\
    load (mem s') (P - 8) = PACK (ps + sz) 0 /\
    load (mem s') (bp + sz - 16) = PACK (ps + sz) 0 /\
    wf s' (upre ++ (ps + sz, false) :: post) (remove Z.eq_dec bp fl) /\
    free_list (length fl) s' = Ok (remove Z.eq_dec bp fl) s' /\
    (forall a, pay true (mem_heap s + 16)
                   (prologue :: upre ++ (ps, false) :: (sz, false) :: post) a ->
               mem s' a = mem s a).
Proof.
  intros WF NF EP Ebp.
  assert (WF0 : wf s ((upre ++ [(ps, false)]) ++ (sz, false) :: post) fl).
  { rewrite <- app_assoc. exact WF. }
  pose proof (coalesce_spec s _ sz _ fl WF0) as C.
  unfold coalesced, coalesced_list, prev_free in C.
  rewrite last_last, removelast_last, NF in C.
  rewrite total_app in C. cbn [total] in C. rewrite Z.add_0_r in C.
  replace (mem_heap s + 32 + (total upre + ps)) with bp in C by lia.
  destruct (wp_run _ _ _ C) as (r & s' & E & SC & -> & WF' & FR).
  rewrite <- EP in E.
  exists s'. split; [exact E|].
  pose proof WF' as (AR' & TG' & _).
  destruct SC as (_ & SC2 & _).
  destruct (tags_cur _ _ _ _ _ TG' (ar_pos _ AR'))
    as (C1 & C2 & _ & _ & _ & _ & _).
  rewrite SC2, <- EP, tag_free in C1, C2.
  rewrite PACK_free.
  split; [exact C1|].
  split; [rewrite <- C2; f_equal; lia|].
  split; [exact WF'|].
  split.
  { apply (free_list_spec s' _ _ _ WF'). apply remove_length_le. }
  intros a Ha. apply FR. rewrite <- app_assoc. exact Ha.
Qed.

(** X12: [coalesce] with a free successor only.  The block at [bp] is
    free and on the free list, the block after it, at [N], is free, and
    the block before it is allocated or the prologue.  Then [coalesce bp]
    returns [bp]; the header of [bp] and the footer of the block at [N]
    hold the sum of the two sizes with the free flag; [N] has left the
    free list, which is otherwise as before; and no payload byte of an
    allocated block has changed. *)
Theorem coalesce_next_free s (upre : list block) sz ns (post : list block)
  fl bp N :
  wf s (upre ++ (sz, false) :: (ns, false) :: post) fl ->
  prev_free upre = None ->
  bp = mem_heap s + 32 + total upre -> N = bp + sz ->
  exists s',
    coalesce bp s = Ok bp s' /\
    load (mem s') (bp - 8) = PACK (sz + ns) 0 /\
    load (mem s') (N + ns - 16) = PACK (sz + ns) 0 /\
    wf s' (upre ++ (sz + ns, false) :: post) (remove Z.eq_dec N fl) /\
    free_list (length fl) s' = Ok (remove Z.eq_dec N fl) s' /\
    (forall a, pay true (mem_heap s + 16)
                   (prologue :: upre ++ (sz, false) :: (ns, false) :: post) a ->
               mem s' a = mem s a).
Proof.
  intros WF PF Ebp EN.
  pose proof (coalesce_spec s upre sz ((ns, false) :: post) fl WF) as C.
  unfold coalesced, coalesced_list in C. rewrite PF in C.
  cbn [next_free tl] in C. rewrite <- Ebp, <- EN in C.
  destruct (wp_run _ _ _ C) as (r & s' & E & SC & -> & WF' & FR).
  exists s'. split; [exact E|].
  pose proof WF' as (AR' & TG' & _).
  destruct SC as (_ & SC2 & _).
  destruct (tags_cur _ _ _ _ _ TG' (ar_pos _ AR'))
    as (C1 & C2 & _ & _ & _ & _ & _).
  rewrite SC2, <- Ebp, tag_free in C1, C2.
  rewrite PACK_free.
  split; [exact C1|].
  split; [rewrite <- C2; f_equal; lia|].
  split; [exact WF'|].
  split.
  { apply (free_list_spec s' _ _ _ WF'). apply remove_length_le. }
  exact FR.
Qed.

Lemma coalesce_prev_free_witness :
  wf free_before
     ([] ++ (32, false) :: (32, false) :: [(32, true); (4000, false)])
     [4160; 4128; 4224] /\
  exists s',
    coalesce 4160 free_before = Ok 4128 s' /\
    wf s' [(64, false); (32, true); (4000, false)] [4128; 4224].
Proof.
  assert (H : wf free_before
                ([] ++ (32, false) :: (32, false) ::
                       [(32, true); (4000, false)])
                [4160; 4128; 4224]) by eval_wf.
  split; [exact H|].
  destruct (coalesce_prev_free free_before [] 32 32
              [(32, true); (4000, false)] [4160; 4128; 4224] 4128 4160
              H eq_refl eq_refl eq_refl) as (s' & E & _ & _ & W & _).
  exists s'. exact (conj E W).
Defined.

Lemma coalesce_next_free_witness :
  wf free_behind
     ([(32, true)] ++ (32, false) :: (32, false) ::
                      [(32, true); (3968, false)])
     [4160; 4192; 4256] /\
  exists s',
    coalesce 4160 free_behind = Ok 4160 s' /\
    wf s' [(32, true); (64, false); (32, true); (3968, false)] [4160; 4256].
Proof.
  assert (H : wf free_behind
                ([(32, true)] ++ (32, false) :: (32, false) ::
                                 [(32, true); (3968, false)])
                [4160; 4192; 4256]) by eval_wf.
  split; [exact H|].
  destruct (coalesce_next_free free_behind [(32, true)] 32 32
              [(32, true); (3968, false)] [4160; 4192; 4256] 4160 4192
              H eq_refl eq_refl eq_refl) as (s' & E & _ & _ & W & _).
  exists s'. exact (conj E W).
Defined.

Lemma coalesce_reads_only s (upre : list block) sz (post : list block) fl :
  wf s (upre ++ (sz, false) :: post) fl ->
  prev_free upre = None -> next_free post = None ->
  wp (coalesce (mem_heap s + 32 + total upre))
     (fun r s' => r = mem_heap s + 32 + total upre /\ s' = s) s.
Proof.
  intros (AR & TG & _) PF NF.
  pose proof AR as [A1 A2 A3 A4 A5].
  pose proof TG as (TG1 & _).
  destruct (tags_cur _ _ _ _ _ TG A1) as (C1 & C2 & C3 & C4 & N1 & N2 & Eb).
  destruct (tags_prev _ _ _ _ _ TG A1)
    as (ps & pa & EL & P2 & P1 & Op1 & Op2 & Op4 & Pf).
  destruct (tags_next _ _ _ _ _ TG A1)
    as (ns & na & NX1 & NX2 & NX3 & NX4 & NXf & NXa).
  assert (Epa : pa = true).
  { unfold prev_free in PF. rewrite EL in PF. destruct pa; congruence. }
  assert (Ena : na = true).
  { destruct na; [reflexivity|].
    destruct (NXf eq_refl) as (_ & post' & -> & _). discriminate. }
  subst pa na.
  set (lo := mem_heap s) in *. set (bp := lo + 32 + total upre) in *.
  unfold coalesce.
  destruct (Z.eqb_spec bp NULL) as [E|_]; [unfold NULL in E; lia|].
  assert (Hhdr : forall z, 8 <= z < 2 ^ 64 -> HDRP z = z - 8).
  { intros z Hz. unfold HDRP, PSUB, WSIZE. apply wrap_small. lia. }
  unfold FTRP, NEXT_BLKP, PREV_BLKP.
  apply wp_bind, wp_bind.
  rewrite !Hhdr by lia.
  apply wp_GET_SIZE; [unfold valid; fold lo; lia|].
  rewrite C1, size_bits_tag by auto.
  apply wp_ret.
  apply wp_bind, wp_bind. norm_ptr.
  apply wp_GET_SIZE; [unfold valid; fold lo; lia|].
  rewrite P2, size_bits_tag by auto.
  apply wp_ret.
  apply wp_bind, wp_bind. norm_ptr.
  apply wp_GET_SIZE; [unfold valid; fold lo; lia|].
  rewrite C1, size_bits_tag by auto.
  apply wp_ret.
  apply wp_bind, wp_bind. norm_ptr.
  apply wp_GET_SIZE; [unfold valid; fold lo; lia|].
  rewrite NX1, size_bits_tag by auto.
  apply wp_ret. norm_ptr.
  apply wp_bind, wp_GET_ALLOC; [unfold valid; fold lo; lia|].
  rewrite P1, alloc_bit_tag by auto.
  apply wp_bind, wp_bind.
  apply wp_GET_SIZE; [unfold valid; fold lo; lia|].
  rewrite C1, size_bits_tag by auto.
  apply wp_ret. norm_ptr.
  apply wp_bind, wp_GET_ALLOC; [unfold valid; fold lo; lia|].
  rewrite NX1, alloc_bit_tag by auto.
  cbn [Z.b2z Z.eqb andb].
  apply wp_ret. auto.
Qed.

(** X13: [coalesce] between allocated neighbours does nothing.  When the
    block before the free block at [bp] is allocated or the prologue and
    the block after it is allocated or the epilogue, [coalesce bp] returns
    [bp] and leaves the state exactly as it was. *)
Theorem coalesce_nothing_to_merge s (upre : list block) sz
  (post : list block) fl bp :
  wf s (upre ++ (sz, false) :: post) fl ->
  prev_free upre = None -> next_free post = None ->
  bp = mem_heap s + 32 + total upre ->
  coalesce bp s = Ok bp s.
Proof.
  intros WF PF NF ->.
  destruct (wp_run _ _ _ (coalesce_reads_only s upre sz post fl WF PF NF))
    as (r & s' & E & -> & ->).
  exact E.
Qed.

Lemma coalesce_nothing_to_merge_witness :
  wf two_free
     ([] ++ (32, false) :: [(32, true); (64, false); (32, true);
                            (3936, false)])
     [4192; 4128; 4288] /\
  coalesce 4128 two_free = Ok 4128 two_free.
Proof.
  assert (H : wf two_free
                ([] ++ (32, false) :: [(32, true); (64, false); (32, true);
                                       (3936, false)])
                [4192; 4128; 4288]) by eval_wf.
  split; [exact H|].
  exact (coalesce_nothing_to_merge two_free [] 32 _ _ 4128 H
           eq_refl eq_refl eq_refl).
Defined.

(** ** Releasing a block *)

Lemma mm_free_others s ubs fl p szp :
  heap_ok s ubs fl ->
  In (p, szp, true) (layout (mem_heap s + 32) ubs) ->
  exists s' ubs' fl',
    mm_free p s = Ok tt s' /\ heap_ok s' ubs' fl' /\
    mem_heap s' = mem_heap s /\ mem_brk s' = mem_brk s /\
    (forall sz, ~ In (p, sz, true) (layout (mem_heap s + 32) ubs')) /\
    (exists q szq, In (q, szq, false) (layout (mem_heap s + 32) ubs') /\
                   q <= p /\ p + szp <= q + szq) /\
    (forall q sz, In (q, sz, true) (layout (mem_heap s + 32) ubs) ->
                  q <> p ->
                  In (q, sz, true) (layout (mem_heap s + 32) ubs') /\
                  forall a, q <= a < q + sz - 16 -> mem s' a = mem s a).
Proof.
  intros H Hp.
  pose proof H as ((AR & (TG1 & _) & _) & _).
  set (lo := mem_heap s) in *.
  apply layout_split in Hp as (upre & post & EU & Ep). subst ubs.
  destruct (wp_run _ _ _ (mm_free_spec s upre szp post fl H))
    as ([] & s' & E & (_ & SC2 & SC3 & _) & R).
  fold lo in E, R. rewrite <- Ep in E, R.
  pose proof (alloc_kept_coalesced lo upre szp post) as AK.
  assert (G1f : Forall good (upre ++ (szp, false) :: post)).
  { apply Forall_app in TG1 as [T1 T2].
    apply Forall_cons_iff in T2 as [T2 T3]. apply Forall_app. split; auto. }
  pose proof (coalesced_covers upre szp post G1f) as CV.
  assert (Gp : 32 <= szp).
  { apply Forall_app in G1f as [_ T]. apply Forall_cons_iff in T as [[T _] _].
    exact T. }
  destruct (coalesced upre szp post) as [[u' z'] p'].
  destruct R as [R FR]. destruct CV as [CV1 CV2].
  pose proof R as ((_ & (TG3 & _) & _) & _).
  pose proof (Forall_good_okb _ TG3) as FO3.
  assert (Hq : In (lo + 32 + total u', z', false)
                  (layout (lo + 32) (u' ++ (z', false) :: p'))).
  { rewrite layout_app. apply in_or_app. right. now left. }
  exists s', (u' ++ (z', false) :: p'). eexists.
  split; [exact E|]. split; [exact R|].
  split; [exact SC2|]. split; [exact SC3|]. split; [|split].
  - intros sz Hin. pose proof Hin as Hin'.
    apply (layout_addr_unique u' z' false p' (lo + 32)) in Hin'; auto.
    + destruct Hin'. discriminate.
    + destruct (layout_disjoint _ _ _ _ _ _ _ _ FO3 Hin Hq) as [Ed|[Ed|Ed]];
        auto; [|lia].
      apply layout_split in Hin as (x & y & Ex & _). rewrite Ex in FO3.
      apply Forall_app in FO3 as [_ FO3].
      apply Forall_cons_iff in FO3 as [(Q & _) _]. cbn [fst] in Q. lia.
  - exists (lo + 32 + total u'), z'. split; [exact Hq|lia].
  - intros q sz Hin Nq.
    assert (Hin1 : In (q, sz, true)
                      (layout (lo + 32) (upre ++ (szp, false) :: post))).
    { apply (layout_replace _ upre [(szp, true)] [(szp, false)] post); auto.
      cbn [layout]. intros [Ed|[]]. injection Ed as Ed _. lia. }
    split; [apply AK; exact Hin1|].
    intros a Ha. apply FR. unfold prologue. cbn [pay]. right.
    replace (lo + 16 + 16) with (lo + 32) by lia.
    apply (layout_pay _ _ q sz); auto.
Qed.

(** X14: [mm_free] of a live block disturbs no other block.  The call
    returns in a consistent heap of the same extent; the released bytes lie
    in a free block; every other allocated block is still allocated with
    its size; and no payload byte of those blocks has changed. *)
Theorem mm_free_keeps_other_blocks s ubs fl p szp :
  heap_ok s ubs fl ->
  In (p, szp, true) (layout (mem_heap s + 32) ubs) ->
  exists s' ubs' fl',
    mm_free p s = Ok tt s' /\ heap_ok s' ubs' fl' /\
    mem_heap s' = mem_heap s /\ mem_brk s' = mem_brk s /\
    (forall sz, ~ In (p, sz, true) (layout (mem_heap s + 32) ubs')) /\
    (exists q szq, In (q, szq, false) (layout (mem_heap s + 32) ubs') /\
                   q <= p /\ p + szp <= q + szq) /\
    (forall q sz, In (q, sz, true) (layout (mem_heap s + 32) ubs) ->
                  q <> p ->
                  In (q, sz, true) (layout (mem_heap s + 32) ubs') /\
                  forall a, q <= a < q + sz - 16 -> mem s' a = mem s a).
Proof. apply mm_free_others. Qed.

Lemma mm_free_keeps_other_blocks_witness :
  heap_ok one_released
    [(32, false); (32, true); (32, true); (4000, false)] [4128; 4224] /\
  exists s' ubs' fl',
    mm_free 4160 one_released = Ok tt s' /\ heap_ok s' ubs' fl' /\
    In (4192, 32, true) (layout (mem_heap one_released + 32) ubs') /\
    (forall a, 4192 <= a < 4192 + 32 - 16 ->
               mem s' a = mem one_released a).
Proof.
  assert (H : heap_ok one_released
                [(32, false); (32, true); (32, true); (4000, false)]
                [4128; 4224]) by eval_heap_ok.
  split; [exact H|].
  destruct (mm_free_keeps_other_blocks one_released _ _ 4160 32 H)
    as (s' & ubs' & fl' & E & H' & _ & _ & _ & _ & K).
  - vm_compute. tauto.
  - destruct (K 4192 32) as [K1 K2].
    + vm_compute. tauto.
    + lia.
    + exists s', ubs', fl'. exact (conj E (conj H' (conj K1 K2))).
Defined.

(** ** When an allocation fails *)

Lemma free_block_fits s ubs fl asize :
  wf s ubs fl ->
  (forall b, In b fl ->
     exists sz, In (b, sz, false) (layout (mem_heap s + 32) ubs) /\
                fits s asize b = (asize <=? sz)) /\
  (forall p sz, In (p, sz, false) (layout (mem_heap s + 32) ubs) ->
     In p fl /\ fits s asize p = (asize <=? sz)).
Proof.
  intros (AR & TG & (_ & _ & FL3)).
  pose proof (ar_pos _ AR) as A1.
  assert (K : forall (l1 : list block) sz (l2 : list block),
            ubs = l1 ++ (sz, false) :: l2 ->
            In (mem_heap s + 32 + total l1, sz, false)
               (layout (mem_heap s + 32) ubs) /\
            In (mem_heap s + 32 + total l1) fl /\
            fits s asize (mem_heap s + 32 + total l1) = (asize <=? sz)).
  { intros l1 sz l2 ->.
    destruct (tags_cur _ _ _ _ _ TG A1) as (C1 & _ & _ & C4 & _).
    split; [rewrite layout_app; apply in_or_app; right; now left|].
    split.
    - apply FL3. rewrite free_addrs_app. apply in_or_app. right.
      cbn [free_addrs app]. now left.
    - unfold fits. rewrite C1, size_bits_tag by exact C4. reflexivity. }
  split.
  - intros b Hb. apply FL3 in Hb.
    apply free_addrs_split in Hb as (l1 & sz & l2 & EU & ->).
    destruct (K l1 sz l2 EU) as (K1 & _ & K3). eauto.
  - intros p sz Hin. apply layout_split in Hin as (l1 & l2 & EU & ->).
    destruct (K l1 sz l2 EU) as (_ & K2 & K3). auto.
Qed.

(** X15: [mm_malloc] fails only when it must.  In a consistent heap a
    request of [0 < size <= 2^64 - 32] bytes returns [NULL] exactly when
    no free block has the adjusted size and the arena cannot grow by the
    larger of the adjusted size and 4096 bytes; and then the state is
    unchanged. *)
Theorem mm_malloc_null_iff_exhausted s ubs fl fuel size :
  heap_ok s ubs fl -> 0 < size <= 2 ^ 64 - 32 -> (length fl <= fuel)%nat ->
  exists r s',
    mm_malloc fuel size s = Ok r s' /\
    (r = NULL <->
     (forall p sz, In (p, sz, false) (layout (mem_heap s + 32) ubs) ->
                   sz < adjusted_size size) /\
     mem_max_addr s < mem_brk s + Z.max (adjusted_size size) 4096) /\
    (r = NULL -> s' = s).
Proof.
  intros H Hs LEN.
  destruct (wp_run _ _ _ (mm_malloc_spec s ubs fl fuel size H Hs LEN))
    as (r & s' & E & R).
  exists r, s'. split; [exact E|]. split.
  2:{ intros ->. destruct R as [[_ R]|[R _]]; [exact R|contradiction]. }
  pose proof H as (WF & _).
  pose proof (list_ok_of_wf _ _ _ WF) as LO.
  destruct (free_block_fits s ubs fl (adjusted_size size) WF) as [FB1 FB2].
  destruct (adjusted_size_spec size Hs) as (S16 & S32 & SLO & SHI).
  pose proof LO as (_ & _ & _ & _ & D & _).
  pose proof (dll_nonzero _ _ _ _ D) as N0.
  unfold mm_malloc in E.
  destruct (Z.leb_spec size 0) as [|_]; [lia|].
  set (A := adjusted_size size) in *.
  unfold bind at 1 in E. rewrite (find_fit_first s fl fuel A LO LEN) in E.
  destruct (Z.eqb_spec (first_fit s A fl) NULL) as [EN|NN]; cbn [negb] in E.
  - (* nothing fits *)
    pose proof (proj1 (first_fit_null s A fl N0) EN) as NF.
    assert (NoFit : forall p sz,
              In (p, sz, false) (layout (mem_heap s + 32) ubs) -> sz < A).
    { intros p sz Hin. destruct (FB2 p sz Hin) as [Hfl Hf].
      rewrite (NF p Hfl) in Hf. symmetry in Hf. apply Z.leb_gt in Hf. exact Hf. }
    rewrite max_spec in E. unfold CHUNKSIZE, WSIZE in E.
    replace (Z.shiftl 1 12) with 4096 in E by reflexivity.
    set (X := Z.max A 4096) in *.
    assert (X16 : X mod 16 = 0).
    { unfold X. destruct (Z.max_spec A 4096) as [[_ ->]|[_ ->]]; auto. }
    pose proof (Z.div_mod X 16 ltac:(lia)) as DX. rewrite X16 in DX.
    assert (XW : X / 8 = 2 * (X / 16)).
    { rewrite DX at 1.
      replace (16 * (X / 16) + 0) with ((2 * (X / 16)) * 8) by lia.
      apply Z.div_mul. lia. }
    assert (XB : even_bytes (X / 8) = X).
    { unfold even_bytes. rewrite XW.
      replace (2 * (X / 16)) with (0 + (X / 16) * 2) by lia.
      rewrite Z.mod_add by lia.
      change (0 mod 2 =? 1) with false. cbv iota. lia. }
    assert (XL : 4096 <= X < 2 ^ 64) by (unfold X; lia).
    destruct (wp_run _ _ _
      (extend_heap_spec s ubs fl (X / 8) H ltac:(lia) ltac:(lia)))
      as (rb & sb & Eb & Rb).
    rewrite XB in Rb. unfold bind at 1 in E. rewrite Eb in E.
    destruct (Z.leb_spec (mem_brk s + X) (mem_max_addr s)) as [Hroom|Hroom].
    + destruct Rb as (_ & Rb).
      pose proof WF as (AR & (TG1 & _) & _).
      pose proof (total_nonneg _ (Forall_good_okb _ TG1)) as TN.
      assert (Nrb : rb <> NULL).
      { destruct (coalesced ubs X []) as [[u' z'] p'] eqn:EC.
        destruct Rb as (-> & Rb & _).
        pose proof Rb as ((_ & (TG' & _) & _) & _).
        apply Forall_app in TG' as [TG' _].
        pose proof (total_nonneg _ (Forall_good_okb _ TG')).
        pose proof (ar_pos _ AR). unfold NULL. lia. }
      destruct (Z.eqb_spec rb NULL) as [|_]; [contradiction|].
      unfold bind in E. destruct (place rb A sb); try discriminate.
      injection E as <- <-. split; [contradiction|]. intros [_ K]. lia.
    + destruct Rb as [-> ->].
      replace (NULL =? NULL) with true in E by reflexivity.
      injection E as <- <-. split; [|reflexivity].
      intros _. split; [exact NoFit|lia].
  - (* a block fits *)
    unfold bind in E. destruct (place (first_fit s A fl) A s); try discriminate.
    injection E as <- <-. split; [contradiction|].
    intros [NoFit _]. exfalso.
    unfold first_fit in NN.
    destruct (find (fits s A) fl) as [b|] eqn:EF; [|now apply NN].
    apply find_some in EF as [Hin Hf].
    destruct (FB1 b Hin) as (sz & Hl & Hfit).
    rewrite Hf in Hfit. symmetry in Hfit. apply Z.leb_le in Hfit.
    specialize (NoFit b sz Hl). lia.
Qed.

Lemma mm_malloc_null_iff_exhausted_witness :
  heap_ok full_arena [(32, true); (4064, false)] [4160] /\
  mm_malloc 8 8192 full_arena = Ok NULL full_arena /\
  (forall p sz, In (p, sz, false)
                   (layout (mem_heap full_arena + 32)
                      [(32, true); (4064, false)]) ->
                sz < adjusted_size 8192) /\
  mem_max_addr full_arena <
  mem_brk full_arena + Z.max (adjusted_size 8192) 4096.
Proof.
  assert (H : heap_ok full_arena [(32, true); (4064, false)] [4160])
    by eval_heap_ok.
  split; [exact H|].
  destruct (mm_malloc_null_iff_exhausted full_arena _ _ 8 8192 H
              ltac:(lia) ltac:(cbn [length]; lia))
    as (r & s' & E & I & U).
  assert (Er : forget (mm_malloc 8 8192 full_arena) = Some NULL)
    by (vm_compute; reflexivity).
  rewrite E in Er. cbn [forget] in Er. injection Er as Er.
  rewrite Er in E, I, U. rewrite (U eq_refl) in E.
  split; [exact E|]. exact (proj1 I eq_refl).
Defined.

(** ** Reuse of a released block *)

(** X16: a released block is the first to be used again.  [p] is a live
    block of size [szp] whose predecessor is allocated (or the prologue).
    After [mm_free p], a request whose adjusted size is at most [szp]
    returns [p] again: the released block is at the head of the free list
    and the search takes the first node that fits. *)
Theorem free_then_malloc_reuses_block s (upre : list block) szp
  (post : list block) fl fuel p n :
  heap_ok s (upre ++ (szp, true) :: post) fl ->
  p = mem_heap s + 32 + total upre ->
  prev_free upre = None ->
  0 < n <= 2 ^ 64 - 32 -> adjusted_size n <= szp ->
  (length fl < fuel)%nat ->
  exists s', (mm_free p ;;; mm_malloc fuel n) s = Ok p s'.
Proof.
  intros H Ep PF Hn HA LEN.
  destruct (wp_run _ _ _ (mm_free_spec s upre szp post fl H))
    as ([] & s1 & E1 & (_ & SC2 & _) & R).
  rewrite <- Ep in E1, R.
  pose proof H as ((AR & (TG1 & _) & _) & _).
  assert (Gp : 32 <= szp).
  { apply Forall_app in TG1 as [_ T].
    apply Forall_cons_iff in T as [[T _] _]. exact T. }
  unfold coalesced, coalesced_list in R. rewrite PF in R.
  set (A := adjusted_size n) in *.
  assert (K : exists ubs1 fl1 z,
            heap_ok s1 ubs1 (p :: fl1) /\
            In (p, z, false) (layout (mem_heap s + 32) ubs1) /\
            szp <= z /\ (length (p :: fl1) <= fuel)%nat).
  { destruct (next_free post) as [ns|] eqn:NF.
    - destruct R as [R _].
      assert (Hns : 0 <= ns).
      { destruct post as [|[ns' []] post']; cbn [next_free] in NF;
          try discriminate.
        injection NF as ->.
        apply Forall_app in TG1 as [_ T].
        apply Forall_cons_iff in T as [_ T].
        apply Forall_cons_iff in T as [[T _] _]. cbn [fst] in T. lia. }
      cbn [remove] in R.
      destruct (Z.eq_dec (p + szp) p) as [Eq|_]; [lia|].
      exists (upre ++ (szp + ns, false) :: tl post),
             (remove Z.eq_dec (p + szp) fl), (szp + ns).
      split; [exact R|]. split.
      + rewrite layout_app. apply in_or_app. right. left. now rewrite Ep.
      + split; [lia|]. cbn [length].
        pose proof (remove_length_le Z.eq_dec fl (p + szp)). lia.
    - destruct R as [R _].
      exists (upre ++ (szp, false) :: post), fl, szp.
      split; [exact R|]. split.
      + rewrite layout_app. apply in_or_app. right. left. now rewrite Ep.
      + split; [lia|]. cbn [length]. lia. }
  destruct K as (ubs1 & fl1 & z & H1 & Hin & Hz & LEN1).
  destruct (wp_run _ _ _ (mm_malloc_spec s1 ubs1 _ fuel n H1 Hn LEN1))
    as (r & s' & E & _).
  exists s'. unfold bind at 1. rewrite E1.
  rewrite E. f_equal.
  pose proof (list_ok_of_wf _ _ _ (proj1 H1)) as LO.
  rewrite <- SC2 in Hin.
  destruct (proj2 (free_block_fits s1 ubs1 _ A (proj1 H1)) p z Hin)
    as [_ Hf].
  assert (FF : first_fit s1 A (p :: fl1) = p).
  { unfold first_fit. cbn [find]. rewrite Hf.
    destruct (Z.leb_spec A z) as [_|Hlt]; [reflexivity|lia]. }
  unfold mm_malloc in E.
  destruct (Z.leb_spec n 0) as [|_]; [lia|]. fold A in E.
  unfold bind at 1 in E.
  rewrite (find_fit_first s1 _ fuel A LO LEN1), FF in E.
  assert (Np : p <> NULL).
  { pose proof (ar_pos _ AR). pose proof (total_nonneg _
      (Forall_good_okb _ (proj1 (proj1 (Forall_app _ _ _) TG1)))).
    unfold NULL. lia. }
  destruct (Z.eqb_spec p NULL) as [|_]; [contradiction|]. cbn [negb] in E.
  unfold bind in E. destruct (place p A s1); try discriminate.
  now injection E as <- _.
Qed.

Lemma free_then_malloc_reuses_block_witness :
  heap_ok one_released
    ([(32, false); (32, true)] ++ (32, true) :: [(4000, false)])
    [4128; 4224] /\
  exists s', (mm_free 4192 ;;; mm_malloc 8 10) one_released = Ok 4192 s'.
Proof.
  assert (H : heap_ok one_released
                ([(32, false); (32, true)] ++ (32, true) :: [(4000, false)])
                [4128; 4224]) by eval_heap_ok.
  split; [exact H|].
  apply (free_then_malloc_reuses_block one_released
           [(32, false); (32, true)] 32 [(4000, false)] [4128; 4224] 8
           4192 10 H).
  - vm_compute. reflexivity.
  - reflexivity.
  - lia.
  - vm_compute. congruence.
  - cbn [length]. lia.
Defined.

(** ** The checker and the walk on an arbitrary heap *)

Lemma bind_ok {A B} (c : M A) (f : A -> M B) s r s' :
  bind c f s = Ok r s' ->
  exists a s1, c s = Ok a s1 /\ f a s1 = Ok r s'.
Proof.
  unfold bind. destruct (c s) as [a s1| |]; try discriminate. eauto.
Qed.

Lemma GET_ok p s v s' :
  GET p s = Ok v s' ->
  s' = s /\ v = load (mem s) p /\ in_arena s p 8 = true.
Proof.
  unfold GET. destruct (in_arena s p 8); [|discriminate].
  intros E. injection E as <- <-. auto.
Qed.

Lemma GET_run p s : in_arena s p 8 = true -> GET p s = Ok (load (mem s) p) s.
Proof. intros H. unfold GET. now rewrite H. Qed.

Lemma GET_SIZE_ok p s v s' :
  GET_SIZE p s = Ok v s' ->
  s' = s /\ v = size_bits (load (mem s) p) /\ in_arena s p 8 = true.
Proof.
  intros E. apply bind_ok in E as (w & s1 & E1 & E2).
  apply GET_ok in E1 as (-> & -> & I). injection E2 as <- <-. auto.
Qed.

Lemma GET_SIZE_run p s :
  in_arena s p 8 = true -> GET_SIZE p s = Ok (size_bits (load (mem s) p)) s.
Proof. intros H. unfold GET_SIZE, bind. now rewrite (GET_run _ _ H). Qed.

Lemma GET_ALLOC_ok p s v s' :
  GET_ALLOC p s = Ok v s' ->
  s' = s /\ v = alloc_bit (load (mem s) p) /\ in_arena s p 8 = true.
Proof.
  intros E. apply bind_ok in E as (w & s1 & E1 & E2).
  apply GET_ok in E1 as (-> & -> & I). injection E2 as <- <-. auto.
Qed.

Lemma GET_ALLOC_run p s :
  in_arena s p 8 = true -> GET_ALLOC p s = Ok (alloc_bit (load (mem s) p)) s.
Proof. intros H. unfold GET_ALLOC, bind. now rewrite (GET_run _ _ H). Qed.

Lemma next_footer bp sz :
  PADD (PADD bp sz) (wrap (0 - DSIZE)) = PADD bp (wrap (sz - DSIZE)).
Proof.
  unfold PADD, wrap, DSIZE.
  rewrite Zplus_mod_idemp_l, Zplus_mod_idemp_r, Zplus_mod_idemp_r.
  f_equal. lia.
Qed.

Lemma check_block_ok bp s s' :
  check_block bp s = Ok true s' ->
  s' = s /\ bp mod 16 = 0 /\
  in_arena s (HDRP bp) 8 = true /\ in_arena s (footer_of s bp) 8 = true /\
  load (mem s) (HDRP bp) = load (mem s) (footer_of s bp).
Proof.
  unfold check_block, DSIZE. intros E.
  destruct (Z.eqb_spec (bp mod 16) 0) as [Hal|_]; [|discriminate].
  cbn [negb] in E.
  apply bind_ok in E as (h & s1 & E1 & E).
  apply GET_ok in E1 as (-> & -> & I1).
  apply bind_ok in E as (fp & s1 & E2 & E).
  apply bind_ok in E2 as (sz & s2 & E2 & E3).
  apply GET_SIZE_ok in E2 as (-> & -> & _). injection E3 as <- <-.
  apply bind_ok in E as (f & s1 & E4 & E).
  apply GET_ok in E4 as (-> & -> & I2).
  fold (footer_of s bp) in E, I2.
  destruct (Z.eqb_spec (load (mem s) (HDRP bp))
              (load (mem s) (footer_of s bp))) as [Eq|_];
    cbn [negb] in E; [|discriminate].
  injection E as <-. auto.
Qed.

Lemma print_block_run bp s :
  in_arena s (HDRP bp) 8 = true -> in_arena s (footer_of s bp) 8 = true ->
  print_block bp s =
  Ok (bp,
      (size_bits (load (mem s) (HDRP bp)), alloc_bit (load (mem s) (HDRP bp))),
      (size_bits (load (mem s) (footer_of s bp)),
       alloc_bit (load (mem s) (footer_of s bp)))) s.
Proof.
  intros I1 I2. unfold print_block, FTRP, bind.
  rewrite (GET_SIZE_run _ _ I1). rewrite (GET_ALLOC_run _ _ I1).
  rewrite (GET_SIZE_run _ _ I1). unfold ret.
  fold (footer_of s bp).
  rewrite (GET_SIZE_run _ _ I2). now rewrite (GET_ALLOC_run _ _ I2).
Qed.

Lemma check_tail s bp sz s' :
  bind (GET_ALLOC (HDRP bp))
       (fun a => if negb (sz =? 0) || (a =? 0) then ret false else ret true)
       s = Ok true s' ->
  s' = s /\ sz = 0.
Proof.
  intros E. apply bind_ok in E as (a & s1 & E1 & E).
  apply GET_ALLOC_ok in E1 as (-> & _ & _).
  destruct (Z.eqb_spec sz 0) as [->|_]; cbn [negb orb] in E;
    [|discriminate].
  destruct (a =? 0); [discriminate|]. injection E as <-. auto.
Qed.

Lemma check_loop_sound s : forall fuel bp s',
  check_heap_loop fuel bp s = Ok true s' ->
  ((0 <? size_bits (load (mem s) (HDRP bp))) = true \/
   in_arena s (PADD bp (wrap (0 - DSIZE))) 8 = true) ->
  s' = s /\
  exists w, print_heap_loop fuel bp s = Ok w s /\ tags_agree w = true /\
            Forall (fun l : line => fst (fst l) mod 16 = 0) w.
Proof.
  assert (Epi : forall fuel bp s',
            in_arena s (HDRP bp) 8 = true ->
            (0 <? size_bits (load (mem s) (HDRP bp))) = false ->
            bind (GET_ALLOC (HDRP bp))
                 (fun a =>
                    if negb (size_bits (load (mem s) (HDRP bp)) =? 0)
                       || (a =? 0)
                    then ret false else ret true) s = Ok true s' ->
            in_arena s (PADD bp (wrap (0 - DSIZE))) 8 = true ->
            s' = s /\
            exists w, print_heap_loop fuel bp s = Ok w s /\
                      tags_agree w = true /\
                      Forall (fun l : line => fst (fst l) mod 16 = 0) w).
  { intros fuel bp s' I1 Hz E C.
    apply check_tail in E as [-> Z0]. split; [reflexivity|].
    assert (I2 : in_arena s (footer_of s bp) 8 = true).
    { unfold footer_of. rewrite Z0. exact C. }
    exists []. split; [|split; [reflexivity|constructor]].
    assert (P : print_heap_loop fuel bp s =
                (sz <- GET_SIZE (HDRP bp) ;;
                 if 0 <? sz then
                   match fuel with
                   | O => fun _ => OutOfFuel
                   | S k => r <- print_block bp ;; nb <- NEXT_BLKP bp ;;
                            rest <- print_heap_loop k nb ;; ret (r :: rest)
                   end
                 else print_block bp ;;; ret []) s)
      by (destruct fuel; reflexivity).
    rewrite P. unfold bind at 1. rewrite (GET_SIZE_run _ _ I1), Hz.
    unfold bind. now rewrite (print_block_run _ _ I1 I2). }
  induction fuel as [|k IH]; intros bp s' E C.
  - cbn [check_heap_loop] in E.
    apply bind_ok in E as (sz & s1 & E1 & E).
    apply GET_SIZE_ok in E1 as (-> & -> & I1).
    destruct (0 <? size_bits (load (mem s) (HDRP bp))) eqn:Hz;
      [discriminate|].
    destruct C as [C|C]; [discriminate|].
    exact (Epi 0%nat bp s' I1 Hz E C).
  - cbn [check_heap_loop] in E.
    apply bind_ok in E as (sz & s1 & E1 & E).
    apply GET_SIZE_ok in E1 as (-> & -> & I1).
    destruct (0 <? size_bits (load (mem s) (HDRP bp))) eqn:Hz.
    2:{ destruct C as [C|C]; [discriminate|].
        exact (Epi (S k) bp s' I1 Hz E C). }
    apply bind_ok in E as (ok & s1 & E1 & E).
    destruct ok; cbn [negb] in E; [|discriminate].
    apply check_block_ok in E1 as (-> & Hal & _ & I2 & HF).
    apply bind_ok in E as (nb & s1 & E1 & E).
    apply bind_ok in E1 as (sz & s2 & E1 & E2).
    apply GET_SIZE_ok in E1 as (-> & -> & _). injection E2 as <- <-.
    destruct (IH _ _ E) as (-> & w & Pw & Tw & Aw).
    { right. rewrite next_footer. exact I2. }
    split; [reflexivity|].
    eexists. split; [|split].
    + cbn [print_heap_loop]. unfold bind at 1.
      rewrite (GET_SIZE_run _ _ I1), Hz.
      unfold bind at 1. rewrite (print_block_run _ _ I1 I2).
      unfold bind at 1. unfold NEXT_BLKP at 1. unfold bind at 1.
      rewrite (GET_SIZE_run _ _ I1). unfold ret at 1.
      unfold bind. rewrite Pw. reflexivity.
    + unfold tags_agree in *. cbn [forallb fst snd].
      rewrite <- HF, !Z.eqb_refl, Tw. reflexivity.
    + constructor; [exact Hal|exact Aw].
Qed.

(** X17: what a positive answer of [check_heap] guarantees, on any heap
    whatever.  When [check_heap] returns true it has changed nothing, and
    [print_heap] then returns a walk that starts with the prologue, with
    header and footer both (16, allocated), in which every block pointer is
    16-byte aligned and every block has the same size and flag in its
    header and in its footer. *)
Theorem check_heap_true_means_tags_agree s fuel s' :
  check_heap fuel s = Ok true s' ->
  s' = s /\
  exists w,
    print_heap fuel s = Ok ((heap_start s, (16, 1), (16, 1)) :: w) s /\
    tags_agree ((heap_start s, (16, 1), (16, 1)) :: w) = true /\
    Forall (fun l : line => fst (fst l) mod 16 = 0)
           ((heap_start s, (16, 1), (16, 1)) :: w).
Proof.
  unfold check_heap. intros E.
  set (hs := heap_start s) in *.
  apply bind_ok in E as (sz & s1 & E1 & E).
  apply GET_SIZE_ok in E1 as (-> & -> & I1).
  apply bind_ok in E as (a & s1 & E1 & E).
  apply GET_ALLOC_ok in E1 as (-> & -> & _).
  destruct (Z.eqb_spec (size_bits (load (mem s) (HDRP hs))) DSIZE)
    as [Esz|_]; cbn [negb orb] in E; [|discriminate].
  destruct (Z.eqb_spec (alloc_bit (load (mem s) (HDRP hs))) 0) as [|Ea];
    [discriminate|].
  assert (Ea1 : alloc_bit (load (mem s) (HDRP hs)) = 1).
  { rewrite alloc_bit_spec in Ea |- *.
    pose proof (Z.mod_pos_bound (load (mem s) (HDRP hs)) 2 ltac:(lia)). lia. }
  destruct (check_loop_sound s fuel hs s' E) as (-> & w & Pw & Tw & Aw).
  { left. rewrite Esz. reflexivity. }
  split; [reflexivity|].
  unfold print_heap. fold hs.
  destruct fuel as [|k].
  { cbn [print_heap_loop] in Pw. unfold bind in Pw.
    rewrite (GET_SIZE_run _ _ I1), Esz in Pw. discriminate. }
  pose proof E as E'. cbn [check_heap_loop] in E'.
  apply bind_ok in E' as (sz & s1 & E1 & E').
  apply GET_SIZE_ok in E1 as (-> & -> & _). rewrite Esz in E'.
  change (0 <? DSIZE) with true in E'. cbv iota in E'.
  apply bind_ok in E' as (ok & s1 & E1 & E').
  destruct ok; cbn [negb] in E'; [|discriminate].
  apply check_block_ok in E1 as (-> & _ & _ & I2 & HF).
  pose proof Pw as Pw'. cbn [print_heap_loop] in Pw'.
  unfold bind at 1 in Pw'. rewrite (GET_SIZE_run _ _ I1), Esz in Pw'.
  change (0 <? DSIZE) with true in Pw'. cbv iota in Pw'.
  unfold bind at 1 in Pw'. rewrite (print_block_run _ _ I1 I2) in Pw'.
  rewrite <- HF, Esz, Ea1 in Pw'.
  apply bind_ok in Pw' as (nb & s1 & _ & Pw').
  apply bind_ok in Pw' as (rest & s2 & _ & Pw').
  injection Pw' as <- _.
  exists rest. auto.
Qed.

Lemma check_heap_true_means_tags_agree_witness :
  check_heap 8 two_free = Ok true two_free /\
  exists w,
    print_heap 8 two_free = Ok ((4112, (16, 1), (16, 1)) :: w) two_free /\
    tags_agree ((4112, (16, 1), (16, 1)) :: w) = true.
Proof.
  assert (H : wf two_free
                [(32, false); (32, true); (64, false); (32, true);
                 (3936, false)] [4192; 4128; 4288]) by eval_wf.
  assert (E : check_heap 8 two_free = Ok true two_free).
  { apply (check_heap_spec _ _ _ _ H). cbn [length]. lia. }
  split; [exact E|].
  destruct (check_heap_true_means_tags_agree two_free 8 two_free E)
    as (_ & w & P & T & _).
  exists w. exact (conj P T).
Defined.

Lemma pure_ret {A} (a : A) : pure (ret a).
Proof. intros s r s' E. now injection E as _ <-. Qed.

Lemma pure_bind {A B} (c : M A) (f : A -> M B) :
  pure c -> (forall a, pure (f a)) -> pure (bind c f).
Proof.
  intros Pc Pf s r s' E. apply bind_ok in E as (a & s1 & E1 & E2).
  apply Pc in E1 as ->. now apply Pf in E2.
Qed.

Lemma pure_GET p : pure (GET p).
Proof. intros s r s' E. now apply GET_ok in E as (-> & _). Qed.

Lemma pure_GET_SIZE p : pure (GET_SIZE p).
Proof. intros s r s' E. now apply GET_SIZE_ok in E as (-> & _). Qed.

Lemma pure_GET_ALLOC p : pure (GET_ALLOC p).
Proof. intros s r s' E. now apply GET_ALLOC_ok in E as (-> & _). Qed.

Lemma pure_fail {A} : pure (fun _ : state => @OutOfFuel A).
Proof. intros s r s' E. discriminate. Qed.

Lemma pure_FTRP bp : pure (FTRP bp).
Proof.
  apply pure_bind; [apply pure_GET_SIZE|]. intros a. apply pure_ret.
Qed.

Lemma pure_NEXT_BLKP bp : pure (NEXT_BLKP bp).
Proof.
  apply pure_bind; [apply pure_GET_SIZE|]. intros a. apply pure_ret.
Qed.

Lemma pure_LL_START : pure LL_START.
Proof. intros s r s' E. now injection E as _ <-. Qed.

Lemma pure_check_block bp : pure (check_block bp).
Proof.
  unfold check_block. destruct (negb (bp mod DSIZE =? 0)); [apply pure_ret|].
  apply pure_bind; [apply pure_GET|]. intros h.
  apply pure_bind; [apply pure_FTRP|]. intros fp.
  apply pure_bind; [apply pure_GET|]. intros f.
  destruct (negb (h =? f)); apply pure_ret.
Qed.

Lemma pure_print_block bp : pure (print_block bp).
Proof.
  unfold print_block.
  apply pure_bind; [apply pure_GET_SIZE|]. intros a1.
  apply pure_bind; [apply pure_GET_ALLOC|]. intros a2.
  apply pure_bind; [apply pure_FTRP|]. intros fp.
  apply pure_bind; [apply pure_GET_SIZE|]. intros a3.
  apply pure_bind; [apply pure_GET_ALLOC|]. intros a4.
  apply pure_ret.
Qed.

Lemma pure_check_heap_loop : forall fuel bp, pure (check_heap_loop fuel bp).
Proof.
  induction fuel as [|k IH]; intros bp; cbn [check_heap_loop];
    (apply pure_bind; [apply pure_GET_SIZE|]); intros sz;
    destruct (0 <? sz).
  - apply pure_fail.
  - apply pure_bind; [apply pure_GET_ALLOC|]. intros a.
    destruct (negb (sz =? 0) || (a =? 0)); apply pure_ret.
  - apply pure_bind; [apply pure_check_block|]. intros ok.
    destruct (negb ok); [apply pure_ret|].
    apply pure_bind; [apply pure_NEXT_BLKP|]. intros nb. apply IH.
  - apply pure_bind; [apply pure_GET_ALLOC|]. intros a.
    destruct (negb (sz =? 0) || (a =? 0)); apply pure_ret.
Qed.

Lemma pure_print_heap_loop : forall fuel bp, pure (print_heap_loop fuel bp).
Proof.
  induction fuel as [|k IH]; intros bp; cbn [print_heap_loop];
    (apply pure_bind; [apply pure_GET_SIZE|]); intros sz;
    destruct (0 <? sz).
  - apply pure_fail.
  - apply pure_bind; [apply pure_print_block|]. intros _. apply pure_ret.
  - apply pure_bind; [apply pure_print_block|]. intros r.
    apply pure_bind; [apply pure_NEXT_BLKP|]. intros nb.
    apply pure_bind; [apply IH|]. intros rest. apply pure_ret.
  - apply pure_bind; [apply pure_print_block|]. intros _. apply pure_ret.
Qed.

Lemma pure_find_fit_loop asize : forall fuel bp,
  pure (find_fit_loop fuel asize bp).
Proof.
  induction fuel as [|k IH]; intros bp; cbn [find_fit_loop];
    destruct (bp =? NULL); try apply pure_ret; [apply pure_fail|].
  apply pure_bind; [apply pure_GET_SIZE|]. intros sz.
  destruct (asize <=? sz); [apply pure_ret|].
  apply pure_bind; [apply pure_GET|]. intros nx. apply IH.
Qed.

(** X18: the search and the two diagnostic walks never write.  On any
    state whatever, when [find_fit], [check_heap] or [print_heap] returns,
    the state is the one it started from. *)
Theorem observers_never_write fuel asize :
  pure (find_fit fuel asize) /\ pure (check_heap fuel) /\
  pure (print_heap fuel).
Proof.
  split; [|split].
  - unfold find_fit. apply pure_bind; [apply pure_LL_START|]. intros ll.
    apply pure_bind; [apply pure_GET|]. intros b.
    apply pure_find_fit_loop.
  - intros s r s' E. unfold check_heap in E. revert E.
    apply pure_bind; [apply pure_GET_SIZE|]. intros sz.
    apply pure_bind; [apply pure_GET_ALLOC|]. intros a.
    destruct (negb (sz =? DSIZE) || (a =? 0)); [apply pure_ret|].
    apply pure_check_heap_loop.
  - intros s r s' E. unfold print_heap in E. revert E.
    apply pure_print_heap_loop.
Qed.

(** ** Initialisation without room for the first block *)

Lemma mm_init_short s :
  0 < mem_heap s -> mem_heap s mod 16 = 0 -> mem_brk s = mem_heap s ->
  mem_heap s + 32 <= mem_max_addr s -> mem_max_addr s < mem_heap s + 4128 ->
  mem_max_addr s < 2 ^ 63 ->
  wp mm_init
     (fun r s' =>
        r = -1 /\ heap_ok s' [] [] /\
        mem_heap s' = mem_heap s /\ mem_brk s' = mem_heap s + 32 /\
        mem_max_addr s' = mem_max_addr s) s.
Proof.
  intros Hpos Hal Hbrk Hroom Hshort Hmax.
  set (lo := mem_heap s) in *.
  unfold mm_init.
  apply wp_bind. unfold wp at 1, mem_sbrk. rewrite Hbrk.
  change (4 * WSIZE) with 32.
  destruct (Z.leb_spec (lo + 32) (mem_max_addr s)) as [_|Hno]; [|lia].
  apply wp_bind, (wp_modify (fun s0 => set_heap_start s0 lo)).
  destruct (Z.eqb_spec lo NULL) as [E|_]; [unfold NULL in E; lia|].
  set (s1 := set_heap_start (set_brk s (lo + 32)) lo).
  assert (V1 : forall p, lo <= p -> p + 8 <= lo + 32 -> valid s1 p).
  { intros p H1 H2. unfold valid.
    cbn [mem_heap mem_brk s1 set_brk set_heap_start]. fold lo. lia. }
  norm_ptr.
  apply wp_bind, wp_PUT_PTR; [apply V1; lia|].
  apply wp_bind, wp_PUT; [apply V1; lia|].
  apply wp_bind, wp_PUT; [apply V1; lia|].
  apply wp_bind, wp_PUT; [apply V1; lia|].
  apply wp_bind,
    (wp_modify (fun s0 => set_heap_start s0 (PADD (heap_start s0) DSIZE))).
  cbn [mem heap_start set_mem s1 set_brk set_heap_start].
  norm_ptr.
  change (PACK 16 1) with 17. change (PACK 0 1) with 1.
  set (m4 := store (store (store (store (mem s) lo 0) (lo + 8) 17)
                      (lo + 16) 17) (lo + 24) 1).
  match goal with |- wp _ _ ?st => set (s5 := st) end.
  assert (H5 : heap_ok s5 [] []).
  { split; [split; [|split]|reflexivity].
    - constructor;
        cbn [mem_heap heap_start mem_brk mem_max_addr s5 s1
             set_mem set_brk set_heap_start]; fold lo; lia.
    - unfold tags.
      cbn [mem_heap heap_start mem_brk mem_max_addr mem s5 s1
           set_mem set_brk set_heap_start]. fold lo m4.
      split; [constructor|]. split; [cbn [total]; lia|].
      unfold prologue. cbn [blocks]. change (tag 16 true) with 17.
      unfold m4. repeat split.
      + replace (lo + 16 - 8) with (lo + 8) by lia.
        rewrite !load_store_other by lia. apply load_store_same. lia.
      + replace (lo + 16 + 16 - 16) with (lo + 16) by lia.
        rewrite !load_store_other by lia. apply load_store_same. lia.
      + replace (lo + 32 - 8) with (lo + 24) by lia.
        apply load_store_same. lia.
    - unfold flist.
      cbn [mem_heap heap_start mem_brk mem_max_addr mem s5 s1
           set_mem set_brk set_heap_start]. fold lo m4.
      split; [|split; [constructor|intros b; cbn; tauto]].
      cbn [dll]. unfold cell. cbn [Z.eqb]. unfold m4.
      rewrite !load_store_other by lia. apply load_store_same. lia. }
  change (CHUNKSIZE / WSIZE) with 512.
  apply wp_bind. eapply wp_mono.
  - apply (extend_heap_spec s5 [] [] 512 H5); lia.
  - cbv beta. intros r s' R.
    change (even_bytes 512) with 4096 in R.
    replace (mem_brk s5) with (lo + 32) in R by reflexivity.
    replace (mem_max_addr s5) with (mem_max_addr s) in R by reflexivity.
    replace (mem_heap s5) with lo in R by reflexivity.
    destruct (Z.leb_spec (lo + 32 + 4096) (mem_max_addr s)) as [Hyes|_];
      [lia|].
    destruct R as [-> ->].
    apply wp_ret. split; [reflexivity|]. split; [exact H5|].
    repeat split.
Qed.

(** X19: [mm_init] reports failure when the first block does not fit.  On
    an untouched arena with room for the 32 bytes of padding, prologue and
    epilogue but not for 4096 bytes more, [mm_init] returns -1; the arena
    has grown by the 32 bytes, and the heap left behind holds the prologue
    and the epilogue and an empty free list. *)
Theorem mm_init_fails_without_room s :
  0 < mem_heap s -> mem_heap s mod 16 = 0 -> mem_brk s = mem_heap s ->
  mem_heap s + 32 <= mem_max_addr s -> mem_max_addr s < mem_heap s + 4128 ->
  mem_max_addr s < 2 ^ 63 ->
  exists s',
    mm_init s = Ok (-1) s' /\
    mem_brk s' = mem_heap s + 32 /\
    print_heap 1 s' = Ok [(mem_heap s + 16, (16, 1), (16, 1))] s' /\
    free_list 0 s' = Ok [] s'.
Proof.
  intros H1 H2 H3 H4 H5 H6.
  destruct (wp_run _ _ _ (mm_init_short s H1 H2 H3 H4 H5 H6))
    as (r & s' & E & -> & [W _] & K1 & K2 & _).
  exists s'. split; [exact E|]. split; [exact K2|]. split.
  - rewrite (print_heap_spec s' [] [] 1 W) by (cbn [length]; lia).
    rewrite K1. reflexivity.
  - apply (free_list_spec s' [] [] 0 W). cbn [length]. lia.
Qed.

Lemma mm_init_fails_without_room_witness :
  mem_brk (fresh 100) = mem_heap (fresh 100) /\
  exists s',
    mm_init (fresh 100) = Ok (-1) s' /\ mem_brk s' = 4128 /\
    print_heap 1 s' = Ok [(4112, (16, 1), (16, 1))] s'.
Proof.
  split; [reflexivity|].
  assert (H1 : 0 < mem_heap (fresh 100)) by (vm_compute; congruence).
  assert (H4 : mem_heap (fresh 100) + 32 <= mem_max_addr (fresh 100))
    by (vm_compute; congruence).
  assert (H5 : mem_max_addr (fresh 100) < mem_heap (fresh 100) + 4128)
    by (vm_compute; congruence).
  assert (H6 : mem_max_addr (fresh 100) < 2 ^ 63)
    by (vm_compute; congruence).
  destruct (mm_init_fails_without_room (fresh 100) H1 eq_refl eq_refl
              H4 H5 H6) as (s' & E & B & P & _).
  exists s'. exact (conj E (conj B P)).
Defined.

(** ** Growing the arena *)

(** X20: what [extend_heap] does to a consistent heap.  The request is
    rounded up to an even number of 8-byte words.  When the arena cannot
    grow by that many bytes the call returns [NULL] and changes nothing.
    Otherwise the arena grows by exactly that many bytes: when the last
    block was allocated, a new free block starts at the old break, is put
    in front of the free list and is returned; when the last block was
    free, that block is extended by the new bytes, stays where it was in
    the free list and is returned.  No payload byte of an allocated block
    changes. *)
Theorem extend_heap_grows_or_fails s ubs fl words :
  heap_ok s ubs fl -> 3 <= words -> words * 8 + 8 < 2 ^ 64 ->
  even_bytes words mod 16 = 0 /\ words * 8 <= even_bytes words /\
  (mem_max_addr s < mem_brk s + even_bytes words ->
   extend_heap words s = Ok NULL s) /\
  (mem_brk s + even_bytes words <= mem_max_addr s ->
   exists r s',
     extend_heap words s = Ok r s' /\
     mem_brk s' = mem_brk s + even_bytes words /\
     match prev_free ubs with
     | None =>
         r = mem_brk s /\
         heap_ok s' (ubs ++ [(even_bytes words, false)]) (mem_brk s :: fl)
     | Some ps =>
         r = mem_brk s - ps /\
         heap_ok s' (removelast ubs ++ [(ps + even_bytes words, false)]) fl
     end /\
     (forall a, pay true (mem_heap s + 16) (prologue :: ubs) a ->
                mem s' a = mem s a)).
Proof.
  intros H W1 W2.
  split; [apply even_bytes_mod16; lia|].
  split; [unfold even_bytes; destruct (words mod 2 =? 1); lia|].
  destruct (wp_run _ _ _ (extend_heap_spec s ubs fl words H W1 W2))
    as (r & s' & E & R).
  pose proof H as ((AR & (T1 & T2 & _) & (_ & _ & FL3)) & _).
  pose proof (Forall_good_okb _ T1) as FO.
  split.
  - intros Hno.
    destruct (Z.leb_spec (mem_brk s + even_bytes words) (mem_max_addr s))
      as [|_]; [lia|].
    destruct R as [-> ->]. exact E.
  - intros Hyes.
    destruct (Z.leb_spec (mem_brk s + even_bytes words) (mem_max_addr s))
      as [_|]; [|lia].
    exists r, s'. split; [exact E|].
    destruct R as ((_ & _ & G3 & _) & R). split; [exact G3|].
    unfold coalesced, coalesced_list in R. cbn [next_free] in R.
    destruct (prev_free ubs) as [ps|] eqn:PF.
    + destruct R as (-> & R & FR). split; [|exact FR].
      assert (Eps : ubs = removelast ubs ++ [(ps, false)]).
      { unfold prev_free in PF.
        destruct (last_split ubs) as (pre0 & _ & Efree).
        destruct (last ubs prologue) as [ps' []]; [discriminate|].
        injection PF as ->. exact (proj2 (Efree eq_refl)). }
      assert (Nb : ~ In (mem_brk s) fl).
      { intros Hin. apply FL3 in Hin.
        apply free_addrs_bounds in Hin; [|exact FO]. lia. }
      split.
      * rewrite Eps in T2 at 1. rewrite total_app in T2. cbn [total] in T2.
        lia.
      * cbn [remove] in R.
        destruct (Z.eq_dec (mem_brk s) (mem_brk s)) as [_|N]; [|congruence].
        rewrite notin_remove in R by exact Nb. exact R.
    + destruct R as (-> & R & FR). split; [|exact FR].
      split; [lia|exact R].
Qed.

Lemma extend_heap_grows_or_fails_witness :
  heap_ok one_released
    [(32, false); (32, true); (32, true); (4000, false)] [4128; 4224] /\
  exists s',
    extend_heap 75 one_released = Ok 4224 s' /\
    mem_brk s' = mem_brk one_released + 608 /\
    heap_ok s' [(32, false); (32, true); (32, true); (4608, false)]
      [4128; 4224].
Proof.
  assert (H : heap_ok one_released
                [(32, false); (32, true); (32, true); (4000, false)]
                [4128; 4224]) by eval_heap_ok.
  split; [exact H|].
  destruct (extend_heap_grows_or_fails one_released _ _ 75 H
              ltac:(lia) ltac:(lia)) as (_ & _ & _ & G).
  destruct G as (r & s' & E & B & R & _); [vm_compute; congruence|].
  cbn [prev_free last prologue] in R. destruct R as [-> R].
  exists s'. exact (conj E (conj B R)).
Defined.

(** ** Resizing and the other blocks *)

(** X21: [mm_realloc] of one block disturbs no other block.  When
    [mm_realloc] of the live block [p] to a size [0 < size <= 2^64 - 32]
    returns, every other block that was allocated is still allocated with
    its size, none of its payload bytes has changed, and the heap is
    consistent. *)
Theorem mm_realloc_keeps_other_blocks s ubs fl fuel p szp size r s3 :
  heap_ok s ubs fl ->
  In (p, szp, true) (layout (mem_heap s + 32) ubs) ->
  0 < size <= 2 ^ 64 - 32 -> (length fl <= fuel)%nat ->
  mm_realloc fuel p size s = Ok r s3 ->
  exists ubs3 fl3,
    heap_ok s3 ubs3 fl3 /\
    forall q sz, In (q, sz, true) (layout (mem_heap s + 32) ubs) ->
                 q <> p ->
                 In (q, sz, true) (layout (mem_heap s + 32) ubs3) /\
                 forall a, q <= a < q + sz - 16 -> mem s3 a = mem s a.
Proof.
  intros H Hp Hs LEN ER.
  destruct (wp_run _ _ _ (mm_malloc_spec s ubs fl fuel size H Hs LEN))
    as (r1 & s1 & Em & Rm).
  destruct Rm as [[-> ->]|(Hr & ubs1 & fl1 & MO)].
  { rewrite (mm_realloc_null_faults s ubs fl fuel p szp size H Hp
               ltac:(lia) Em) in ER. discriminate. }
  destruct (mm_realloc_spec s ubs fl fuel p szp size H Hp Hs LEN)
    as (r' & s1' & Em' & R).
  rewrite Em in Em'. injection Em' as <- <-.
  destruct (R Hr) as (s2 & s3' & Hc & Hcopy & Hf & Hre & _).
  rewrite ER in Hre. injection Hre as -> ->.
  destruct MO as (H1 & _ & K2 & _ & _ & AK & FR1 & szr & Hin & Hszr & FRESH).
  pose proof H1 as ((_ & (TG1 & _) & _) & _).
  pose proof (Forall_good_okb _ TG1) as FO1.
  assert (SC : same_ctl s1 s2) by (eapply copy_loop_ctl; eauto).
  assert (H2 : heap_ok s2 ubs1 fl1).
  { apply (heap_ok_frame s1); auto.
    intros a NP. rewrite Hcopy. unfold copied.
    destruct (Z.leb_spec r1 a); destruct (Z.ltb_spec a (r1 + Z.min szp size));
      cbn [andb]; try reflexivity.
    exfalso. apply NP. rewrite K2. unfold prologue. cbn [pay]. right.
    replace (mem_heap s + 16 + 16) with (mem_heap s + 32) by lia.
    apply (layout_pay _ _ r1 szr); auto. lia. }
  pose proof SC as (_ & L2 & _).
  assert (Hp2 : In (p, szp, true) (layout (mem_heap s2 + 32) ubs1)).
  { rewrite L2, K2. apply AK. exact Hp. }
  destruct (mm_free_others s2 ubs1 fl1 p szp H2 Hp2)
    as (s4 & ubs3 & fl3 & Hf' & H3 & _ & _ & _ & _ & K).
  rewrite Hf in Hf'. injection Hf' as <-.
  exists ubs3, fl3. split; [exact H3|].
  intros q sz Hq Nq.
  pose proof (AK q sz Hq) as Hq0.
  assert (Hq1 : In (q, sz, true) (layout (mem_heap s2 + 32) ubs1)).
  { rewrite L2, K2. exact Hq0. }
  destruct (K q sz Hq1 Nq) as [K1 K3].
  rewrite L2, K2 in K1. split; [exact K1|].
  intros a Ha. rewrite (K3 a Ha), Hcopy. unfold copied.
  assert (Nqr : q <> r1).
  { intros ->. exact (FRESH sz Hq). }
  destruct (layout_disjoint _ _ _ _ _ _ _ _ FO1 Hq0 Hin) as [E|E];
    [contradiction|].
  destruct (Z.leb_spec r1 a); destruct (Z.ltb_spec a (r1 + Z.min szp size));
    cbn [andb]; try lia.
  all: apply FR1; unfold prologue; cbn [pay]; right;
    replace (mem_heap s + 16 + 16) with (mem_heap s + 32) by lia;
    apply (layout_pay _ _ q sz); auto.
Qed.

Lemma mm_realloc_keeps_other_blocks_witness :
  heap_ok one_released
    [(32, false); (32, true); (32, true); (4000, false)] [4128; 4224] /\
  exists s3 ubs3 fl3,
    mm_realloc 8 4160 100 one_released = Ok 4224 s3 /\
    heap_ok s3 ubs3 fl3 /\
    In (4192, 32, true) (layout (mem_heap one_released + 32) ubs3) /\
    (forall a, 4192 <= a < 4192 + 32 - 16 ->
               mem s3 a = mem one_released a).
Proof.
  assert (H : heap_ok one_released
                [(32, false); (32, true); (32, true); (4000, false)]
                [4128; 4224]) by eval_heap_ok.
  assert (Hp : In (4160, 32, true)
                  (layout (mem_heap one_released + 32)
                     [(32, false); (32, true); (32, true); (4000, false)]))
    by (vm_compute; tauto).
  assert (LEN : (length [4128; 4224] <= 8)%nat) by (cbn [length]; lia).
  split; [exact H|].
  destruct (mm_realloc_spec one_released _ _ 8 4160 32 100 H Hp
              ltac:(lia) LEN) as (r & s1 & Em & R).
  assert (Er : forget (mm_malloc 8 100 one_released) = Some 4224)
    by (vm_compute; reflexivity).
  rewrite Em in Er. cbn [forget] in Er. injection Er as Er.
  rewrite Er in R.
  destruct (R ltac:(discriminate)) as (s2 & s3 & _ & _ & _ & ER & _).
  destruct (mm_realloc_keeps_other_blocks one_released _ _ 8 4160 32 100
              4224 s3 H Hp ltac:(lia) LEN ER) as (ubs3 & fl3 & H3 & K).
  destruct (K 4192 32) as [K1 K2].
  - vm_compute. tauto.
  - lia.
  - exists s3, ubs3, fl3. exact (conj ER (conj H3 (conj K1 K2))).
Defined.

(** ** Alignment and layout of the blocks *)

Lemma layout_tiles (bs : list block) : forall bp,
  tiles bp (map line_of (layout bp bs)) (bp + total bs).
Proof.
  induction bs as [|[sz a] r IH]; intros bp; cbn [layout map tiles total].
  - lia.
  - cbn [line_of fst snd]. split; [reflexivity|].
    replace (bp + (sz + total r)) with (bp + sz + total r) by lia. apply IH.
Qed.

Lemma layout_aligned least (bs : list block) : forall bp,
  Forall (fun b : block => least <= fst b /\ fst b mod 16 = 0) bs ->
  bp mod 16 = 0 ->
  Forall (line_aligned least) (map line_of (layout bp bs)).
Proof.
  induction bs as [|[sz a] r IH]; intros bp F Hal; cbn [layout map];
    [constructor|].
  apply Forall_cons_iff in F as [[F1 F2] F]. cbn [fst] in F1, F2.
  constructor.
  - unfold line_aligned. cbn [line_of fst snd]. auto.
  - apply IH; [exact F|]. rewrite Z.add_mod, Hal, F2 by lia. reflexivity.
Qed.

Lemma wf_walk_layout s ubs fl :
  wf s ubs fl ->
  exists w,
    print_heap (fuel_of s) s =
      Ok ((heap_start s, (16, 1), (16, 1)) :: w) s /\
    tiles (heap_start s + 16) w (mem_brk s) /\
    Forall (line_aligned 32) w.
Proof.
  intros W. pose proof W as (AR & (T1 & T2 & _) & _).
  pose proof AR as [A1 A2 A3 A4 A5].
  destruct (fuel_of_enough s ubs fl W) as [_ F2].
  exists (map line_of (layout (mem_heap s + 32) ubs)).
  split; [|split].
  - rewrite (print_heap_spec s ubs fl _ W F2), A3.
    unfold prologue. cbn [layout map line_of Z.b2z].
    now replace (mem_heap s + 16 + 16) with (mem_heap s + 32) by lia.
  - rewrite A3, T2.
    replace (mem_heap s + 16 + 16) with (mem_heap s + 32) by lia.
    apply layout_tiles.
  - apply layout_aligned; [exact T1|].
    rewrite Z.add_mod, A2 by lia. reflexivity.
Qed.

(** X22: alignment and layout survive every session.  After [mm_init] and
    any sequence of requests with sizes up to [2^64 - 32], releases and
    resizes of blocks the client holds, the walk of [print_heap] starts
    with the prologue at [heap_start]; the blocks after it lie back to
    back, the first right after the prologue and the last ending at the
    break; every block pointer and every size is a multiple of 16; and no
    block is smaller than 32 bytes.  Every pointer the client holds is a
    multiple of 16. *)
Theorem session_blocks_aligned s0 os :
  start_ok s0 -> Forall op_ok os ->
  match session os s0 with
  | Ok L s =>
      (exists w,
         print_heap (fuel_of s) s =
           Ok ((heap_start s, (16, 1), (16, 1)) :: w) s /\
         tiles (heap_start s + 16) w (mem_brk s) /\
         Forall (line_aligned 32) w) /\
      Forall (fun h : Z * Z => fst h mod 16 = 0) L
  | Fault => existsb is_realloc os = true
  | OutOfFuel => False
  end.
Proof.
  intros S F. destruct (mm_init_inv s0 S) as (s & E & _ & I).
  unfold session, bind. rewrite E.
  pose proof (run_inv os s [] I F) as R.
  destruct (run os [] s) as [L s'| |]; auto.
  destruct R as (ubs & fl & [W _] & _ & LV).
  split; [exact (wf_walk_layout s' ubs fl W)|].
  apply Forall_forall. intros [p n] Hin. cbn [fst].
  destruct (LV p n Hin) as (sz & Hl & _).
  pose proof W as (AR & (T1 & _) & _).
  apply layout_split in Hl as (l1 & l2 & EU & ->).
  rewrite EU in T1. apply Forall_app in T1 as [T1 _].
  pose proof (total_mod16 _ T1) as M.
  rewrite Z.add_mod, (Z.add_mod (mem_heap s')), (ar_align _ AR), M by lia.
  reflexivity.
Qed.

Lemma session_blocks_aligned_witness :
  start_ok (fresh 65536) /\ Forall op_ok sample_session /\
  exists s w,
    session sample_session (fresh 65536) =
      Ok [(4528, 5000); (4304, 200)] s /\
    print_heap (fuel_of s) s = Ok ((heap_start s, (16, 1), (16, 1)) :: w) s /\
    tiles (heap_start s + 16) w (mem_brk s).
Proof.
  assert (F : Forall op_ok sample_session)
    by (repeat constructor; cbn [op_ok]; lia).
  split; [exact start_ok_fresh|]. split; [exact F|].
  pose proof (session_blocks_aligned (fresh 65536) sample_session
                start_ok_fresh F) as T.
  assert (E : forget (session sample_session (fresh 65536)) =
              Some [(4528, 5000); (4304, 200)])
    by (vm_compute; reflexivity).
  destruct (session sample_session (fresh 65536)) as [L s| |];
    try discriminate E.
  injection E as ->. destruct T as [(w & P & Ti & _) _].
  exists s, w. split; [reflexivity|]. exact (conj P Ti).
Defined.

(** ** Where an allocation comes from *)

(** X23: the placement policy of [mm_malloc].  In a consistent heap, for a
    request of [0 < size <= 2^64 - 32] bytes: when some node of the free
    list is large enough for the adjusted size, [mm_malloc] returns the
    first such node in list order and the arena keeps its extent; when
    none is and the arena has room, the arena grows by exactly the larger
    of the adjusted size and 4096 bytes and a block is returned. *)
Theorem mm_malloc_first_fit_or_grow s ubs fl fuel size :
  heap_ok s ubs fl -> 0 < size <= 2 ^ 64 - 32 -> (length fl <= fuel)%nat ->
  (first_fit s (adjusted_size size) fl <> NULL ->
   exists s',
     mm_malloc fuel size s =
       Ok (first_fit s (adjusted_size size) fl) s' /\
     mem_brk s' = mem_brk s) /\
  (first_fit s (adjusted_size size) fl = NULL ->
   mem_brk s + Z.max (adjusted_size size) 4096 <= mem_max_addr s ->
   exists r s',
     mm_malloc fuel size s = Ok r s' /\ r <> NULL /\
     mem_brk s' = mem_brk s + Z.max (adjusted_size size) 4096).
Proof.
  intros H Hs LEN.
  pose proof H as (WF & _).
  pose proof (list_ok_of_wf _ _ _ WF) as LO.
  destruct (free_block_fits s ubs fl (adjusted_size size) WF) as [FB1 _].
  destruct (adjusted_size_spec size Hs) as (S16 & S32 & SLO & SHI).
  set (A := adjusted_size size) in *.
  assert (EM : mm_malloc fuel size s =
               (if negb (first_fit s A fl =? NULL)
                then (place (first_fit s A fl) A ;;; ret (first_fit s A fl)) s
                else (bp <- extend_heap (max A CHUNKSIZE / WSIZE) ;;
                      if bp =? NULL then ret NULL
                      else place bp A ;;; ret bp) s)).
  { unfold mm_malloc. destruct (Z.leb_spec size 0) as [|_]; [lia|].
    fold A. unfold bind at 1.
    rewrite (find_fit_first s fl fuel A LO LEN).
    destruct (negb (first_fit s A fl =? NULL)); reflexivity. }
  split.
  - intros NN. rewrite EM.
    destruct (Z.eqb_spec (first_fit s A fl) NULL) as [|_]; [contradiction|].
    cbn [negb].
    assert (Hin : In (first_fit s A fl) fl /\
                  fits s A (first_fit s A fl) = true).
    { unfold first_fit in *.
      destruct (find (fits s A) fl) as [b|] eqn:EF; [|contradiction].
      now apply find_some in EF. }
    destruct Hin as [Hin Hf].
    destruct (FB1 _ Hin) as (sz & Hl & Hfit).
    rewrite Hf in Hfit. symmetry in Hfit. apply Z.leb_le in Hfit.
    apply layout_split in Hl as (upre & post & EU & Eb).
    rewrite EU in H.
    destruct (wp_run _ _ _ (place_spec s upre sz post fl A H
                              ltac:(lia) S16))
      as ([] & s' & Ep & (_ & _ & SC3 & _) & _).
    rewrite <- Eb in Ep.
    exists s'. split; [|exact SC3]. unfold bind. now rewrite Ep.
  - intros EN Hroom. rewrite EM, EN.
    replace (negb (NULL =? NULL)) with false by reflexivity.
    rewrite max_spec. unfold CHUNKSIZE, WSIZE.
    replace (Z.shiftl 1 12) with 4096 by reflexivity.
    set (X := Z.max A 4096) in *.
    assert (X16 : X mod 16 = 0).
    { unfold X. destruct (Z.max_spec A 4096) as [[_ ->]|[_ ->]]; auto. }
    pose proof (Z.div_mod X 16 ltac:(lia)) as DX. rewrite X16 in DX.
    assert (XW : X / 8 = 2 * (X / 16)).
    { rewrite DX at 1.
      replace (16 * (X / 16) + 0) with ((2 * (X / 16)) * 8) by lia.
      apply Z.div_mul. lia. }
    assert (XB : even_bytes (X / 8) = X).
    { unfold even_bytes. rewrite XW.
      replace (2 * (X / 16)) with (0 + (X / 16) * 2) by lia.
      rewrite Z.mod_add by lia.
      change (0 mod 2 =? 1) with false. cbv iota. lia. }
    assert (XL : 4096 <= X < 2 ^ 64) by (unfold X; lia).
    destruct (wp_run _ _ _
      (extend_heap_spec s ubs fl (X / 8) H ltac:(lia) ltac:(lia)))
      as (rb & sb & Eb & Rb).
    rewrite XB in Rb.
    destruct (Z.leb_spec (mem_brk s + X) (mem_max_addr s)) as [_|]; [|lia].
    destruct Rb as ((_ & G2 & G3 & _) & Rb).
    pose proof WF as (AR & (TG1 & _) & _).
    assert (G : Forall good (ubs ++ (X, false) :: [])).
    { apply Forall_app. split; [exact TG1|].
      constructor; [split; cbn [fst]; [lia|exact X16]|constructor]. }
    pose proof (coalesced_covers ubs X [] G) as CV.
    destruct (coalesced ubs X []) as [[u' z'] p'].
    destruct Rb as (-> & Hb & _). destruct CV as [CV1 CV2].
    pose proof Hb as ((_ & (TGb & _) & _) & _).
    apply Forall_app in TGb as [TGb _].
    pose proof (total_nonneg _ (Forall_good_okb _ TGb)) as TN.
    pose proof (total_nonneg _ (Forall_good_okb _ TG1)) as TN0.
    destruct (wp_run _ _ _ (place_spec sb u' z' p' _ A Hb
                              ltac:(lia) S16))
      as ([] & s' & Ep & (_ & _ & SC3 & _) & _).
    rewrite G2 in Ep.
    exists (mem_heap s + 32 + total u'), s'.
    pose proof (ar_pos _ AR) as A1.
    split; [|split; [unfold NULL; lia|lia]].
    unfold bind at 1. rewrite Eb.
    destruct (Z.eqb_spec (mem_heap s + 32 + total u') NULL) as [E0|_];
      [unfold NULL in E0; lia|].
    unfold bind. now rewrite Ep.
Qed.

Lemma mm_malloc_first_fit_or_grow_witness :
  heap_ok two_free
    [(32, false); (32, true); (64, false); (32, true); (3936, false)]
    [4192; 4128; 4288] /\
  first_fit two_free (adjusted_size 100) [4192; 4128; 4288] = 4288 /\
  exists s',
    mm_malloc 8 100 two_free = Ok 4288 s' /\ mem_brk s' = mem_brk two_free.
Proof.
  assert (H : heap_ok two_free
                [(32, false); (32, true); (64, false); (32, true);
                 (3936, false)] [4192; 4128; 4288]) by eval_heap_ok.
  assert (R : first_fit two_free (adjusted_size 100) [4192; 4128; 4288] =
              4288) by (vm_compute; reflexivity).
  split; [exact H|]. split; [exact R|].
  destruct (mm_malloc_first_fit_or_grow two_free _ _ 8 100 H ltac:(lia)
              ltac:(cbn [length]; lia)) as [G _].
  rewrite R in G. apply G. discriminate.
Defined.
